(** * Ai-trader: the signal-scoring core of the [ai-trading-analysis] edge function

    A shallow embedding of the scoring pipeline of the edge function
    (the variant with the fixed threshold [0.6], which also carries
    [calculateTechnicalIndicators] and [calculateRSI]):

    - [calculateTechnicalScore], [calculateTechnicalIndicators],
      [calculateRSI], [calculateVolatility]   (TechnicalAnalyzer)
    - [analyzeSentiment]                       (SentimentAnalyzer)
    - [analyzeMarket]                          (SignalSynthesizer)
    - [generateMockMarketData]                 (MarketSeriesSource)
    - [executeTrade] and the request handler
    - [analyzeMarket], [analyzeSentiment] and [executeTrade] of the variant
      that reads its threshold from the strategy (module [Configured])

    A TypeScript [number] is an IEEE 754 binary64 value.  It is modelled by
    Rocq's primitive [float], whose operations are the same correctly
    rounded binary64 operations, so a definition below computes, bit for
    bit, what the function it embeds computes.  Array lengths, loop indices
    and the hit counters of [analyzeSentiment] are integers far below
    [2^53]; they are modelled by [nat] and converted with [of_nat] where the
    source divides by them.

    A JavaScript expression that can throw ([x.close] on an [undefined]
    element, the explicit [throw] of [analyzeMarket]) is modelled in the
    error monad [result]. *)

From Stdlib Require Import Reals Lra Floats ZArith String Ascii List Bool Lia Arith Permutation.
Import ListNotations.

Set Warnings "-inexact-float".

(** ** The error monad *)

Inductive result (A : Type) : Type :=
| Ok (a : A)
| Throw (msg : string).

Arguments Ok {A} a.
Arguments Throw {A} msg.

Definition bind {A B : Type} (r : result A) (k : A -> result B) : result B :=
  match r with
  | Ok a => k a
  | Throw msg => Throw msg
  end.

Declare Scope result_scope.
Delimit Scope result_scope with result.
Notation "x <- r ;; k" := (bind r (fun x => k))
  (at level 61, r at next level, right associativity) : result_scope.

Definition returns {A : Type} (r : result A) : Prop := exists a, r = Ok a.

(** ** JavaScript numbers *)

Module JS.

Local Open Scope float_scope.

(** The Number nearest to the integer [z] (exact when [|z| <= 2^53]). *)
Definition of_Z (z : Z) : float := SF2Prim (binary_normalize prec emax z 0 false).

Definition of_nat (n : nat) : float := of_Z (Z.of_nat n).

(** [a > b] and [a < b]: false as soon as an operand is [NaN]. *)
Definition gt (a b : float) : bool := b <? a.
Definition lt (a b : float) : bool := a <? b.

(** [a === b] on numbers: [+0 === -0], and [NaN] equals nothing. *)
Definition strict_eq (a b : float) : bool := a =? b.

(** [ToBoolean] of a number: [0], [-0] and [NaN] are falsy. *)
Definition truthy (a : float) : bool := negb (is_zero a || is_nan a).

(** [v || d] where [v] is a number or [undefined]. *)
Definition or_default (v : option float) (d : float) : float :=
  match v with
  | Some a => if truthy a then a else d
  | None => d
  end.

(** [Math.min(a, b)]: [NaN] if an operand is, and [-0] below [+0]. *)
Definition Math_min (a b : float) : float :=
  if is_nan a || is_nan b then nan
  else if a <? b then a
  else if b <? a then b
  else if is_zero a && get_sign a then a
  else b.

Definition Math_abs (a : float) : float := abs a.

Definition Math_sqrt (a : float) : float := sqrt a.

(** [arr[i]] read as a number: [undefined] out of range, which arithmetic
    and comparisons turn into [NaN]. *)
Definition index (arr : list float) (i : nat) : float := nth i arr nan.

(** [n] such that [n / k] is nearest to [m * 2^e]; the larger [n] on a tie
    (step 6 of [Number.prototype.toFixed], with [k = 10^f]). *)
Definition nearest_scaled (m : positive) (e : Z) (k : Z) : Z :=
  if (0 <=? e)%Z then (Z.pos m * 2 ^ e * k)%Z
  else ((2 * Z.pos m * k + 2 ^ (- e)) / (2 * 2 ^ (- e)))%Z.

(** The Number nearest to the fraction [n / d], as [Number] reads the
    decimal literal that [toFixed] printed. *)
Definition of_fraction (n : Z) (d : positive) : float :=
  match n with
  | Zpos p => SF2Prim (SFdiv prec emax (S754_finite false p 0) (S754_finite false d 0))
  | _ => 0
  end.

(** [Number(x.toFixed(2))].  [toFixed] prints [NaN] and the infinities by
    name and a number of magnitude [>= 1e21] in full precision, and [Number]
    reads them back unchanged; otherwise the sign is kept apart and the
    magnitude is rounded to the nearest hundredth, ties away from zero. *)
Definition Number_toFixed2 (x : float) : float :=
  match Prim2SF x with
  | S754_finite s m e =>
      if 1e21 <=? abs x then x
      else
        let r := of_fraction (nearest_scaled m e 100) 100 in
        if s then - r else r
  | S754_zero _ => 0
  | _ => x
  end.

(** [Math.floor]. *)
Definition Math_floor (x : float) : float :=
  match Prim2SF x with
  | S754_finite s m e =>
      if (0 <=? e)%Z then x
      else
        let q := (Z.pos m / 2 ^ (- e))%Z in
        if s then
          - of_Z (if (Z.pos m mod 2 ^ (- e) =? 0)%Z then q else q + 1)
        else of_Z q
  | _ => x
  end.

End JS.

(** ** Data model *)

Record MarketData : Type := {
  date : string;
  close : float;
  volume : float;
  high : float;
  low : float;
  open : float
}.

Inductive Action : Type := BUY | SELL | HOLD.

(** A bar of which only [close] is populated: the other fields are
    [undefined], which reads as [NaN] wherever a number is expected. *)
Definition close_only (c : float) : MarketData :=
  {| date := ""; close := c; volume := nan; high := nan; low := nan; open := nan |}.

(** [arr[i]] for an array of objects: [None] is [undefined]. *)
Definition element {A : Type} (arr : list A) (i : nat) : option A := nth_error arr i.

(** [arr[i].f]: a property read on [undefined] throws a [TypeError]. *)
Definition property {A B : Type} (o : option A) (f : A -> B) : result B :=
  match o with
  | Some a => Ok (f a)
  | None => Throw "TypeError: Cannot read properties of undefined"
  end.

(** [arr.slice(-k)]: the last [min k (length arr)] elements. *)
Definition slice_last {A : Type} (k : nat) (arr : list A) : list A :=
  skipn (length arr - k) arr.

(** [arr.reduce((a, b) => a + b, 0)]. *)
Definition reduce_sum (arr : list float) : float :=
  fold_left (fun a b => (a + b)%float) arr 0%float.

(** ** TechnicalAnalyzer *)

Section TechnicalAnalyzer.

Local Open Scope float_scope.
Local Open Scope result_scope.

Definition calculateTechnicalScore (marketData : list MarketData) : result float :=
  if (length marketData <? 2)%nat then Ok 0.5
  else
    latestClose <- property (element marketData (length marketData - 1)) close ;;
    previousClose <- property (element marketData (length marketData - 2)) close ;;
    let priceChange := (latestClose - previousClose) / previousClose in
    let recentPrices := map close (slice_last 20 marketData) in
    let sma := reduce_sum recentPrices / JS.of_nat (length recentPrices) in
    let trendScore := if JS.gt latestClose sma then 0.6 else 0.4 in
    let momentumScore := if JS.gt priceChange 0 then 0.6 else 0.4 in
    Ok ((trendScore + momentumScore) / 2).


(** The object [calculateTechnicalIndicators] returns. *)
Record TechnicalIndicators : Type := {
  rsi : float;
  sma_20 : float;
  sma_50 : float;
  macd : float;
  volume_trend : string
}.

Definition rsi_step (prices : list float) (acc : float * float) (i : nat) : float * float :=
  let '(gains, losses) := acc in
  let change := JS.index prices i - JS.index prices (i - 1) in
  if JS.gt change 0 then (gains + change, losses)
  else (gains, losses - change).

Definition calculateRSI (prices : list float) (period : nat) : float :=
  if (length prices <? period + 1)%nat then 50
  else
    let '(gains, losses) :=
      fold_left (rsi_step prices) (seq (length prices - period) period) (0, 0) in
    let avgGain := gains / JS.of_nat period in
    let avgLoss := losses / JS.of_nat period in
    if JS.strict_eq avgLoss 0 then 100
    else
      let rs := avgGain / avgLoss in
      100 - (100 / (1 + rs)).

Definition calculateTechnicalIndicators (marketData : list MarketData) : TechnicalIndicators :=
  if (length marketData <? 14)%nat then
    {| rsi := 50;
       sma_20 := JS.or_default (option_map close (element marketData (length marketData - 1))) 50000;
       sma_50 := JS.or_default (option_map close (element marketData (length marketData - 1))) 50000;
       macd := 0;
       volume_trend := "neutral" |}
  else
    let closes := map close marketData in
    let volumes := map volume marketData in
    let rsi := calculateRSI closes 14 in
    let sma20 := reduce_sum (slice_last 20 closes) / 20 in
    let sma50 := reduce_sum (slice_last 50 closes) / JS.of_nat (Nat.min 50 (length closes)) in
    let avgVolume := reduce_sum (slice_last 20 volumes) / 20 in
    let latestVolume := JS.index volumes (length volumes - 1) in
    let volumeTrend := if JS.gt latestVolume avgVolume then "increasing"%string else "decreasing"%string in
    {| rsi := JS.Number_toFixed2 rsi;
       sma_20 := JS.Number_toFixed2 sma20;
       sma_50 := JS.Number_toFixed2 sma50;
       macd := JS.Number_toFixed2 ((sma20 - sma50) / sma50 * 100);
       volume_trend := volumeTrend |}.

(** ECMAScript leaves [Math.pow] implementation-approximated: the
    development is parametric in it. *)
Variable Math_pow : float -> float -> float.

(** The loop of [calculateVolatility] that pushes one return per bar. *)
Fixpoint volatility_returns (marketData : list MarketData) (indices : list nat)
    (returns : list float) : result (list float) :=
  match indices with
  | [] => Ok returns
  | i :: indices' =>
      c <- property (element marketData i) close ;;
      p <- property (element marketData (i - 1)) close ;;
      p' <- property (element marketData (i - 1)) close ;;
      let ret := (c - p) / p' in
      volatility_returns marketData indices' (returns ++ [ret])
  end.

Definition calculateVolatility (marketData : list MarketData) : result float :=
  if (length marketData <? 2)%nat then Ok 0.02
  else
    returns <- volatility_returns marketData (seq 1 (length marketData - 1)) [] ;;
    let mean := reduce_sum returns / JS.of_nat (length returns) in
    let variance :=
      fold_left (fun sum ret => sum + Math_pow (ret - mean) 2) returns 0
      / JS.of_nat (length returns) in
    Ok (JS.Math_sqrt variance).

End TechnicalAnalyzer.

(** ** SentimentAnalyzer *)

Section SentimentAnalyzer.

Local Open Scope string_scope.

(** [String.prototype.toLowerCase] on the ASCII letters; every other
    character is kept (strings are sequences of 8-bit characters here). *)
Definition lower_char (c : ascii) : ascii :=
  let n := nat_of_ascii c in
  if ((65 <=? n) && (n <=? 90))%nat then ascii_of_nat (n + 32) else c.

Fixpoint toLowerCase (s : string) : string :=
  match s with
  | EmptyString => EmptyString
  | String c s' => String (lower_char c) (toLowerCase s')
  end.

(** [s.includes(w)]: [w] occurs in [s] as a substring. *)
Fixpoint includes (s w : string) : bool :=
  if prefix w s then true
  else
    match s with
    | EmptyString => false
    | String _ s' => includes s' w
    end.

Definition positiveWords : list string :=
  ["strong"; "bullish"; "increase"; "growth"; "positive"; "gains"; "rally"; "surge"; "adoption"].

Definition negativeWords : list string :=
  ["weak"; "bearish"; "decrease"; "decline"; "negative"; "losses"; "crash"; "drop"; "fear"].

(** [words.forEach(word => { if (lowerNews.includes(word)) count++; })]. *)
Definition count_words (words : list string) (lowerNews : string) (count : nat) : nat :=
  fold_left (fun count word => if includes lowerNews word then S count else count) words count.

(** The body of [newsData.forEach], on the two counters. *)
Definition sentiment_step (counts : nat * nat) (news : string) : nat * nat :=
  let '(positiveCount, negativeCount) := counts in
  let lowerNews := toLowerCase news in
  (count_words positiveWords lowerNews positiveCount,
   count_words negativeWords lowerNews negativeCount).

Definition analyzeSentiment (newsData : list string) : float :=
  if (length newsData =? 0)%nat then 0.5%float
  else
    let '(positiveCount, negativeCount) := fold_left sentiment_step newsData (0, 0)%nat in
    let total := (positiveCount + negativeCount)%nat in
    if (total =? 0)%nat then 0.5%float
    else (JS.of_nat positiveCount / JS.of_nat total)%float.

End SentimentAnalyzer.

(** ** SignalSynthesizer *)

(** The row of [strategies] that [analyzeMarket] reads. *)
Record Strategy : Type := {
  symbols : option (list string);
  stop_loss_percentage : float;
  risk_level : string
}.

(** The [sentiment_analysis] object of the signal; its [confidence] field is
    [sentiment_score] here, the signal having a [confidence] of its own. *)
Record SentimentAnalysis : Type := {
  overall_sentiment : string;
  sentiment_score : float;
  sources_analyzed : nat
}.

(** [AISignal], without [timestamp] (the clock) and [rationale] (a message
    for the reader), which nothing below depends on. *)
Record AISignal : Type := {
  symbol : string;
  action : Action;
  confidence : float;
  price_target : float;
  stop_loss : float;
  technical_indicators : TechnicalIndicators;
  sentiment_analysis : SentimentAnalysis
}.

Section SignalSynthesizer.

Local Open Scope float_scope.
Local Open Scope result_scope.

Variable Math_pow : float -> float -> float.

Definition threshold : float := 0.6.

(** [const combinedScore = (technicalScore * 0.6) + (sentimentScore * 0.4)]. *)
Definition combinedScore (technicalScore sentimentScore : float) : float :=
  (technicalScore * 0.6) + (sentimentScore * 0.4).

(** [let action = 'HOLD'; if (combinedScore > threshold) action = 'BUY';
    else if (combinedScore < (1 - threshold)) action = 'SELL';]. *)
Definition select_action (combinedScore : float) : Action :=
  if JS.gt combinedScore threshold then BUY
  else if JS.lt combinedScore (1 - threshold) then SELL
  else HOLD.

(** [Math.min(0.95, Math.abs(combinedScore - 0.5) * 2)]. *)
Definition confidence_of (combinedScore : float) : float :=
  JS.Math_min 0.95 (JS.Math_abs (combinedScore - 0.5) * 2).

(** [priceTarget], before it is printed with two decimals. *)
Definition priceTarget (action : Action) (latestPrice volatility : float) : float :=
  match action with
  | BUY => latestPrice * (1 + volatility * 2)
  | SELL => latestPrice * (1 - volatility * 2)
  | HOLD => latestPrice
  end.

(** [stopLoss], before it is printed with two decimals. *)
Definition stopLoss (action : Action) (latestPrice stop_loss_percentage : float) : float :=
  match action with
  | BUY => latestPrice * (1 - stop_loss_percentage / 100)
  | SELL => latestPrice * (1 + stop_loss_percentage / 100)
  | HOLD => latestPrice
  end.

(** [strategy] is the row the query returned ([None] for [null]) and
    [random] the value [Math.random()] returns if it is called. *)
Definition analyzeMarket (strategy : option Strategy) (marketData : list MarketData)
    (newsData : list string) (random : float) : result AISignal :=
  match strategy with
  | None => Throw "Strategy not found"
  | Some strategy =>
      let symbol :=
        match symbols strategy with
        | Some (s :: _) => s
        | _ => "BTC/USDT"%string
        end in
      latestPrice <-
        (if (0 <? length marketData)%nat
         then property (element marketData (length marketData - 1)) close
         else Ok (50000 + random * 5000)) ;;
      technicalScore <- calculateTechnicalScore marketData ;;
      let sentimentScore := analyzeSentiment newsData in
      let combined := combinedScore technicalScore sentimentScore in
      let action := select_action combined in
      let confidence := confidence_of combined in
      volatility <- calculateVolatility Math_pow marketData ;;
      let technicalIndicators := calculateTechnicalIndicators marketData in
      let sentimentAnalysis :=
        {| overall_sentiment :=
             if JS.gt combined 0.6 then "positive"%string
             else if JS.lt combined 0.4 then "negative"%string
             else "neutral"%string;
           sentiment_score := sentimentScore;
           sources_analyzed := length newsData |} in
      Ok {| symbol := symbol;
            action := action;
            confidence := confidence;
            price_target := JS.Number_toFixed2 (priceTarget action latestPrice volatility);
            stop_loss :=
              JS.Number_toFixed2 (stopLoss action latestPrice (stop_loss_percentage strategy));
            technical_indicators := technicalIndicators;
            sentiment_analysis := sentimentAnalysis |}
  end.

End SignalSynthesizer.

(** ** MarketSeriesSource *)

Section MarketSeriesSource.

Local Open Scope float_scope.

(** [Math_random k] is the value of the [k]-th call of [Math.random()], and
    [isoDate d] the ISO date of the day [d] days from today. *)
Variable Math_random : nat -> float.
Variable isoDate : Z -> string.

(** One turn of the loop: [calls] counts the calls of [Math.random()] so
    far; the fields of the pushed object are evaluated in source order. *)
Definition generate_step (days : nat) (state : list MarketData * nat) (i : nat)
    : list MarketData * nat :=
  let '(data, calls) := state in
  let basePrice := 50000 in
  let trend := (JS.of_nat i / JS.of_nat days) * 5000 in
  let noise := (Math_random calls - 0.5) * 2000 in
  let close := basePrice + trend + noise in
  (data ++
   [{| date := isoDate (- Z.of_nat (days - i));
       close := JS.Number_toFixed2 close;
       volume := JS.Math_floor (800000 + Math_random (calls + 1) * 1200000);
       high := JS.Number_toFixed2 (close + Math_random (calls + 2) * 500);
       low := JS.Number_toFixed2 (close - Math_random (calls + 3) * 500);
       open := JS.Number_toFixed2 (close + (Math_random (calls + 4) - 0.5) * 200) |}],
   (calls + 5)%nat).

Definition generateMockMarketData (days : nat) : list MarketData :=
  fst (fold_left (generate_step days) (seq 0 days) ([], 0%nat)).

End MarketSeriesSource.

(** ** Trade execution and the request handler *)

(** The row of [strategies], with the columns [executeTrade] reads besides
    those [analyzeMarket] reads. *)
Record StrategyRow : Type := {
  strategy_columns : Strategy;
  is_active : bool;
  max_position_size : float
}.

(** The object [executeTrade] inserts into [trades]. *)
Record TradeInsert : Type := {
  trade_user_id : string;
  trade_strategy_id : string;
  trade_symbol : string;
  trade_action : Action;
  quantity : float;
  entry_price : float;
  status : string
}.

Section Handler.

Local Open Scope float_scope.
Local Open Scope result_scope.

Variable Math_pow : float -> float -> float.
Variable Math_random : nat -> float.
Variable isoDate : Z -> string.

(** The database during one request: [strategies user_id id] is the answer
    of [from("strategies").select("*").eq("id", id).eq("user_id", user_id)
    .maybeSingle()], and [insert_trade] that of the insert into [trades],
    the row it created or the error it reported. [getUser] is
    [supabase.auth.getUser]: the user's id, or [None] on an error or
    without a user. *)
Variable TradeRow : Type.
Variable strategies : string -> string -> option StrategyRow.
Variable insert_trade : TradeInsert -> TradeRow + string.
Variable getUser : string -> option string.

(** [Number(x.toFixed(f))], as [JS.Number_toFixed2] for any [f]. *)
Definition Number_toFixed (fractionDigits : nat) (x : float) : float :=
  match Prim2SF x with
  | S754_finite s m e =>
      if 1e21 <=? abs x then x
      else
        let k := (10 ^ Z.of_nat fractionDigits)%Z in
        let r := JS.of_fraction (JS.nearest_scaled m e k) (Z.to_pos k) in
        if s then - r else r
  | S754_zero _ => 0
  | _ => x
  end.

(** What [executeTrade] returns: [{ message, trade, signal }], [trade]
    being absent from the first two. *)
Record TradeResult : Type := {
  message : string;
  trade : option TradeRow;
  signal : AISignal
}.

(** [analyzeMarket] run against the database.  [calls] is the number of
    calls of [Math.random()] made before. *)
Definition analyzeMarket_for (userId strategyId : string) (marketData : list MarketData)
    (newsData : list string) (calls : nat) : result AISignal :=
  analyzeMarket Math_pow (option_map strategy_columns (strategies userId strategyId))
    marketData newsData (Math_random calls).

Definition executeTrade (userId strategyId : string) : result TradeResult :=
  match strategies userId strategyId with
  | None => Throw "Strategy is not active"
  | Some strategy =>
      if negb (is_active strategy) then Throw "Strategy is not active"
      else
        let marketData := generateMockMarketData Math_random isoDate 50 in
        let newsData :=
          ["Market shows positive momentum"; "Institutional adoption increasing"]%string in
        signal <- analyzeMarket_for userId strategyId marketData newsData (5 * 50) ;;
        match action signal with
        | HOLD =>
            Ok {| message := "No trade signal, holding position";
                  trade := None; signal := signal |}
        | _ =>
            if JS.lt (confidence signal) 0.6 then
              Ok {| message := "Confidence below threshold, skipping trade";
                    trade := None; signal := signal |}
            else
              let quantity := max_position_size strategy / price_target signal in
              match insert_trade
                      {| trade_user_id := userId;
                         trade_strategy_id := strategyId;
                         trade_symbol := symbol signal;
                         trade_action := action signal;
                         quantity := Number_toFixed 6 quantity;
                         entry_price := price_target signal;
                         status := "pending" |} with
              | inr tradeError => Throw tradeError
              | inl trade =>
                  Ok {| message := "Trade executed successfully";
                        trade := Some trade; signal := signal |}
              end
        end
  end.

(** [s.replace(pattern, replacement)] for a string pattern: the first
    occurrence only. *)
Fixpoint replace (pattern replacement s : string) : string :=
  if prefix pattern s then
    append replacement (substring (String.length pattern) (String.length s) s)
  else
    match s with
    | EmptyString => EmptyString
    | String c s' => String c (replace pattern replacement s')
    end.

(** The request, as far as the handler reads it: the method, the
    [Authorization] header ([None] for [null]) and the body [req.json()]
    parses, or the error it throws. *)
Record RequestBody : Type := {
  body_action : option string;
  body_strategyId : string;
  body_marketData : option (list MarketData);
  body_newsData : option (list string)
}.

Record Request : Type := {
  method : string;
  authorization : option string;
  json : result RequestBody
}.

(** The JSON document of the response. *)
Inductive ResponseBody : Type :=
| NoBody
| SuccessResult (result : TradeResult)
| SuccessSignal (signal : AISignal)
| ErrorMessage (error : string).

Record Response : Type := {
  response_status : nat;
  response_headers : list (string * string);
  response_body : ResponseBody
}.

Definition corsHeaders : list (string * string) :=
  [("Access-Control-Allow-Origin", "*");
   ("Access-Control-Allow-Methods", "GET, POST, PUT, DELETE, OPTIONS");
   ("Access-Control-Allow-Headers", "Content-Type, Authorization, X-Client-Info, Apikey")]%string.

(** [{ ...corsHeaders, "Content-Type": "application/json" }]. *)
Definition jsonHeaders : list (string * string) :=
  app corsHeaders [("Content-Type", "application/json")]%string.

(** The [try] block of the handler. *)
Definition serve_try (req : Request) : result Response :=
  match authorization req with
  | None | Some EmptyString => Throw "No authorization header"
  | Some authHeader =>
      let token := replace "Bearer " "" authHeader in
      match getUser token with
      | None => Throw "Unauthorized"
      | Some user_id =>
          requestBody <- json req ;;
          if match body_action requestBody with
             | Some a => String.eqb a "execute_trade"
             | None => false
             end
          then
            result <- executeTrade user_id (body_strategyId requestBody) ;;
            Ok {| response_status := 200; response_headers := jsonHeaders;
                  response_body := SuccessResult result |}
          else
            signal <- analyzeMarket_for user_id (body_strategyId requestBody)
                        (match body_marketData requestBody with Some d => d | None => [] end)
                        (match body_newsData requestBody with Some d => d | None => [] end)
                        0 ;;
            Ok {| response_status := 200; response_headers := jsonHeaders;
                  response_body := SuccessSignal signal |}
      end
  end.

(** The handler given to [Deno.serve]. *)
Definition serve (req : Request) : Response :=
  if String.eqb (method req) "OPTIONS" then
    {| response_status := 200; response_headers := corsHeaders; response_body := NoBody |}
  else
    match serve_try req with
    | Ok response => response
    | Throw error =>
        {| response_status := 500; response_headers := jsonHeaders;
           response_body := ErrorMessage error |}
    end.

End Handler.

Arguments Build_TradeResult {TradeRow} message trade signal.
Arguments message {TradeRow} t.
Arguments trade {TradeRow} t.
Arguments signal {TradeRow} t.
Arguments executeTrade Math_pow Math_random isoDate {TradeRow} strategies insert_trade
  userId strategyId.
Arguments NoBody {TradeRow}.
Arguments SuccessResult {TradeRow} result.
Arguments SuccessSignal {TradeRow} signal.
Arguments ErrorMessage {TradeRow} error.
Arguments Build_Response {TradeRow} response_status response_headers response_body.
Arguments response_status {TradeRow} r.
Arguments response_headers {TradeRow} r.
Arguments response_body {TradeRow} r.
Arguments serve_try Math_pow Math_random isoDate {TradeRow} strategies insert_trade getUser req.
Arguments serve Math_pow Math_random isoDate {TradeRow} strategies insert_trade getUser req.

(** ** The variant with a configured threshold

    [supabase/functions/ai-trading-analysis/index.ts] is the same function
    with another [analyzeMarket], [analyzeSentiment] and [executeTrade]:
    the threshold is read from the strategy, the word lists have eight
    words each and a trade belongs to a trading session.
    [calculateTechnicalScore], [calculateVolatility] and
    [generateMockMarketData] are the same text in both and are shared. *)

Module Configured.

(** [strategy.ai_model_config], of which the code reads
    [confidence_threshold] as a number; [None] is an absent field. *)
Record ModelConfig : Type := {
  confidence_threshold : option float
}.

(** The row of [trading_strategies], as far as the code reads it;
    [ai_model_config] is [None] for [null]. *)
Record StrategyRow : Type := {
  ai_model_config : option ModelConfig;
  stop_loss_percentage : float;
  strategy_type : string;
  is_active : bool;
  max_investment_per_trade : float
}.

(** [AISignal], without [timestamp] and [rationale]. *)
Record AISignal : Type := {
  symbol : string;
  action : Action;
  confidence : float;
  price_target : float;
  stop_loss : float
}.

(** The object [executeTrade] inserts into [trades], without
    [trade_metadata] (the rationale and the name of the strategy). *)
Record TradeInsert (SessionId : Type) : Type := {
  user_id : string;
  session_id : SessionId;
  trade_type : string;
  asset_type : string;
  trade_symbol : string;
  entry_price : float;
  quantity : float;
  ai_confidence_score : float;
  trade_status : string
}.

Arguments Build_TradeInsert {SessionId}.
Arguments user_id {SessionId} t.
Arguments session_id {SessionId} t.
Arguments trade_type {SessionId} t.
Arguments asset_type {SessionId} t.
Arguments trade_symbol {SessionId} t.
Arguments entry_price {SessionId} t.
Arguments quantity {SessionId} t.
Arguments ai_confidence_score {SessionId} t.
Arguments trade_status {SessionId} t.

Definition positiveWords : list string :=
  ["strong"; "bullish"; "increase"; "growth"; "positive"; "gains"; "rally"; "surge"]%string.

Definition negativeWords : list string :=
  ["weak"; "bearish"; "decrease"; "decline"; "negative"; "losses"; "crash"; "drop"]%string.

(** The body of [newsData.forEach], on the two counters. *)
Definition sentiment_step (counts : nat * nat) (news : string) : nat * nat :=
  let '(positiveCount, negativeCount) := counts in
  let lowerNews := toLowerCase news in
  (count_words positiveWords lowerNews positiveCount,
   count_words negativeWords lowerNews negativeCount).

Definition analyzeSentiment (newsData : list string) : float :=
  if (length newsData =? 0)%nat then 0.5%float
  else
    let '(positiveCount, negativeCount) := fold_left sentiment_step newsData (0, 0)%nat in
    let total := (positiveCount + negativeCount)%nat in
    if (total =? 0)%nat then 0.5%float
    else (JS.of_nat positiveCount / JS.of_nat total)%float.

(** [strategy.ai_model_config?.confidence_threshold || 0.7]. *)
Definition threshold (strategy : StrategyRow) : float :=
  JS.or_default
    (match ai_model_config strategy with
     | Some config => confidence_threshold config
     | None => None
     end)
    0.7%float.

(** ['BUY'], ['SELL'] and ['HOLD'] as the strings they are. *)
Definition action_name (a : Action) : string :=
  match a with
  | BUY => "BUY"
  | SELL => "SELL"
  | HOLD => "HOLD"
  end.

Section Variant.

Local Open Scope float_scope.
Local Open Scope result_scope.

Variable Math_pow : float -> float -> float.
Variable Math_random : nat -> float.
Variable isoDate : Z -> string.

(** [strategy] is the row the query returned ([None] for [null]) and
    [random] the value [Math.random()] returns if it is called. *)
Definition analyzeMarket (strategy : option StrategyRow) (marketData : list MarketData)
    (newsData : list string) (random : float) : result AISignal :=
  match strategy with
  | None => Throw "Strategy not found"
  | Some strategy =>
      latestPrice <-
        (if (0 <? length marketData)%nat
         then property (element marketData (length marketData - 1)) close
         else Ok (50000 + random * 5000)) ;;
      technicalScore <- calculateTechnicalScore marketData ;;
      let sentimentScore := analyzeSentiment newsData in
      let combinedScore := (technicalScore * 0.6) + (sentimentScore * 0.4) in
      let threshold := threshold strategy in
      let action :=
        if JS.gt combinedScore threshold then BUY
        else if JS.lt combinedScore (1 - threshold) then SELL
        else HOLD in
      let confidence := JS.Math_abs (combinedScore - 0.5) * 2 in
      volatility <- calculateVolatility Math_pow marketData ;;
      Ok {| symbol :=
              if String.eqb (strategy_type strategy) "crypto"
              then "BTC/USDT"%string else "EUR/USD"%string;
            action := action;
            confidence := JS.Math_min 0.95 confidence;
            price_target := JS.Number_toFixed2 (priceTarget action latestPrice volatility);
            stop_loss :=
              JS.Number_toFixed2 (stopLoss action latestPrice (stop_loss_percentage strategy)) |}
  end.

(** The database during one call: [trading_strategies user_id id] is the
    answer of the query on [trading_strategies], [active_session user_id
    strategy_id] the [id] of the active session that the query on
    [trading_sessions] returned ([None] without a row), [insert_session]
    the [id] of the row the insert created ([None] when it returned no
    row) and [insert_trade] the row created in [trades] or the error
    reported.  [truthy_id] is [ToBoolean] on an [id]. *)
Variable SessionId : Type.
Variable TradeRow : Type.
Variable truthy_id : SessionId -> bool.
Variable trading_strategies : string -> string -> option StrategyRow.
Variable active_session : string -> string -> option SessionId.
Variable insert_session : string -> string -> option SessionId.
Variable insert_trade : TradeInsert SessionId -> TradeRow + string.

(** What [executeTrade] returns: [{ message, trade, signal }], [trade]
    being absent from the first two. *)
Record TradeResult : Type := {
  message : string;
  trade : option TradeRow;
  signal : AISignal
}.

Definition executeTrade (userId strategyId : string) : result TradeResult :=
  match trading_strategies userId strategyId with
  | None => Throw "Strategy is not active"
  | Some strategy =>
      if negb (is_active strategy) then Throw "Strategy is not active"
      else
        let marketData := generateMockMarketData Math_random isoDate 50 in
        let newsData := ["Market shows positive momentum"]%string in
        signal <- analyzeMarket (trading_strategies userId strategyId) marketData newsData
                    (Math_random (5 * 50)) ;;
        match action signal with
        | HOLD =>
            Ok {| message := "No trade signal, holding position";
                  trade := None; signal := signal |}
        | _ =>
            if JS.lt (confidence signal) (threshold strategy) then
              Ok {| message := "Confidence below threshold, skipping trade";
                    trade := None; signal := signal |}
            else
              sessionId <-
                (match active_session userId strategyId with
                 | Some id =>
                     if truthy_id id then Ok id
                     else property (insert_session userId strategyId) (fun id => id)
                 | None => property (insert_session userId strategyId) (fun id => id)
                 end) ;;
              let quantity := max_investment_per_trade strategy / price_target signal in
              match insert_trade
                      {| user_id := userId;
                         session_id := sessionId;
                         trade_type := toLowerCase (action_name (action signal));
                         asset_type := strategy_type strategy;
                         trade_symbol := symbol signal;
                         entry_price := price_target signal;
                         quantity := quantity;
                         ai_confidence_score := confidence signal;
                         trade_status := "open" |} with
              | inr tradeError => Throw tradeError
              | inl trade =>
                  Ok {| message := "Trade executed successfully";
                        trade := Some trade; signal := signal |}
              end
        end
  end.

End Variant.

Arguments Build_TradeResult {TradeRow} message trade signal.
Arguments message {TradeRow} t.
Arguments trade {TradeRow} t.
Arguments signal {TradeRow} t.
Arguments executeTrade Math_pow Math_random isoDate {SessionId TradeRow} truthy_id
  trading_strategies active_session insert_session insert_trade userId strategyId.

End Configured.

(** ** Reference definitions, in the words of the specification *)

Section Reference.

Local Open Scope float_scope.

(** The last [k] elements of [l]. *)
Definition lastn {A : Type} (k : nat) (l : list A) : list A := rev (firstn k (rev l)).

(** The arithmetic mean: the sum, taken from left to right, over the count. *)
Definition mean (xs : list float) : float := reduce_sum xs / JS.of_nat (length xs).

(** The technical score as section 4.1 words it. *)
Definition technical_score_reference (bars : list MarketData) : float :=
  match rev bars with
  | last :: prev :: _ =>
      let lastClose := close last in
      let prevClose := close prev in
      let priceChange := (lastClose - prevClose) / prevClose in
      let SMA := mean (map close (lastn (Nat.min 20 (length bars)) bars)) in
      let trendScore := if SMA <? lastClose then 0.6 else 0.4 in
      let momentumScore := if 0 <? priceChange then 0.6 else 0.4 in
      (trendScore + momentumScore) / 2
  | _ => 0.5
  end.

(** The price the signal is built on: the close of the last bar, and
    [50000 + Math.random() * 5000] when there is no bar. *)
Definition latest_price (bars : list MarketData) (random : float) : float :=
  match rev bars with
  | last :: _ => close last
  | [] => 50000 + random * 5000
  end.

(** The number of (snippet, word) pairs such that the word occurs in the
    lower-cased snippet. *)
Definition hits (words newsData : list string) : nat :=
  length (filter (fun '(news, word) => includes (toLowerCase news) word)
                 (list_prod newsData words)).

(** The sentiment score as section 4.2 words it. *)
Definition sentiment_reference (newsData : list string) : float :=
  let positiveCount := hits positiveWords newsData in
  let negativeCount := hits negativeWords newsData in
  if (positiveCount + negativeCount =? 0)%nat then 0.5
  else JS.of_nat positiveCount / JS.of_nat (positiveCount + negativeCount).

(** An instance of [Math.pow] for the closed examples: the exact square,
    which [Math.pow(x, 2)] approximates. *)
Definition pow_square (base exponent : float) : float := base * base.

End Reference.

(** ** Numbers as real numbers

    The value of a finite Number as a real, the numbers of the binary64
    format, and what it is for a Number to be the correctly rounded value
    of a real: the vocabulary of the bounds proved on the arithmetic of the
    code in the last part. *)

Module Binary64.

Local Open Scope R_scope.

(** [2^e], for an integer [e] of either sign. *)
Definition bpow (e : Z) : R := powerRZ 2 e.

(** The reals [m * 2^e] with [|m| < 2^53] and [e >= -1074]: the binary64
    numbers, were there no largest exponent. *)
Definition InF (u : R) : Prop :=
  exists m e : Z, u = IZR m * bpow e /\ (Z.abs m < 2 ^ 53)%Z /\ (-1074 <= e)%Z.

(** [u] is a number of the format nearest to [x]. *)
Definition nearest (x u : R) : Prop :=
  InF u /\ forall g : R, InF g -> Rabs (u - x) <= Rabs (g - x).

(** The real [x] is at location [l] of the interval between [m * 2^e] and
    [(m + 1) * 2^e]. *)
Definition inbetween (m e : Z) (l : location) (x : R) : Prop :=
  match l with
  | loc_Exact => x = IZR m * bpow e
  | loc_Inexact Lt => IZR m * bpow e < x < (IZR m + / 2) * bpow e
  | loc_Inexact Eq => x = (IZR m + / 2) * bpow e
  | loc_Inexact Gt => (IZR m + / 2) * bpow e < x < (IZR m + 1) * bpow e
  end.

(** What [binary_round_aux] asks of its input: the mantissa has the full
    precision, or the exponent is not above the least one. *)
Definition enough_digits (m e : Z) : Prop := (53 <= Zdigits2 m \/ e <= -1074)%Z.

(** The real value of a float of [SpecFloat]: 0 for a zero, and also for
    the infinities and [NaN], which have none. *)
Definition B2R (z : spec_float) : R :=
  match z with
  | S754_finite s m e => IZR (cond_Zopp s (Z.pos m)) * bpow e
  | _ => 0
  end.

(** [z] is a binary64 rounding of the real [x] to nearest: the nearest
    number of the format when that is below [2^1024] in magnitude, and
    the infinity of its sign otherwise. *)
Definition rounds (x : R) (z : spec_float) : Prop :=
  valid_binary z = true
  /\ exists u : R,
       nearest x u
       /\ match z with
          | S754_nan => False
          | S754_infinity s => if s then u <= - bpow 1024 else bpow 1024 <= u
          | _ => u = B2R z
          end.

(** A zero or a finite number: neither an infinity nor [NaN]. *)
Definition is_finite_SF (z : spec_float) : bool :=
  match z with
  | S754_zero _ | S754_finite _ _ _ => true
  | _ => false
  end.

(** The real value of a finite float; [finite] excludes the infinities and
    [NaN]. *)
Definition val (x : float) : R := B2R (Prim2SF x).

Definition finite (x : float) : Prop := is_finite_SF (Prim2SF x) = true.

(** [x <= y] and [x < y] as JavaScript compares numbers. *)
Definition fle (x y : float) : Prop := (x <=? y)%float = true.

Definition flt (x y : float) : Prop := (x <? y)%float = true.

(** [NaN], or a number that is not negative. *)
Definition nan_or_nonneg (x : float) : Prop := Prim2SF x = S754_nan \/ fle 0%float x.

(** [x] is a finite number between the integers [a] and [b]. *)
Definition within (x : float) (a b : Z) : Prop :=
  finite x /\ IZR a <= val x <= IZR b.

(** An integer that a Number holds exactly. *)
Definition small (a : Z) : Prop := (Z.abs a < 2 ^ 53)%Z.

End Binary64.

(** ** Lists and the error monad *)

Lemma element_in_range {A : Type} (arr : list A) (i : nat) :
  i < length arr -> exists a, element arr i = Some a.
Proof.
  intros Hi. unfold element.
  destruct (nth_error arr i) as [a |] eqn:E; [now exists a |].
  apply nth_error_None in E. lia.
Qed.

Lemma lastn_slice_last {A : Type} (k : nat) (l : list A) :
  lastn (Nat.min k (length l)) l = slice_last k l.
Proof.
  unfold lastn, slice_last.
  rewrite firstn_rev, rev_involutive.
  f_equal. lia.
Qed.

Lemma element_last {A : Type} (l : list A) (a : A) :
  element (l ++ [a]) (length (l ++ [a]) - 1) = Some a.
Proof.
  unfold element. rewrite length_app. simpl.
  replace (length l + 1 - 1) with (length l) by lia.
  rewrite nth_error_app2 by lia. now rewrite Nat.sub_diag.
Qed.

Lemma element_prev {A : Type} (l : list A) (a b : A) :
  element ((l ++ [b]) ++ [a]) (length ((l ++ [b]) ++ [a]) - 2) = Some b.
Proof.
  unfold element. rewrite !length_app. simpl.
  replace (length l + 1 + 1 - 2) with (length l) by lia.
  rewrite nth_error_app1 by (rewrite length_app; simpl; lia).
  rewrite nth_error_app2 by lia. now rewrite Nat.sub_diag.
Qed.

(** [calculateTechnicalScore] never reads a missing bar: it returns the
    reference score. *)
Lemma technical_score_is_reference (marketData : list MarketData) :
  calculateTechnicalScore marketData = Ok (technical_score_reference marketData).
Proof.
  unfold technical_score_reference.
  rewrite lastn_slice_last.
  destruct (rev marketData) as [| last [| prev rest]] eqn:E;
    apply (f_equal (@rev _)) in E; rewrite rev_involutive in E; subst marketData;
    try reflexivity.
  unfold calculateTechnicalScore.
  replace (length (rev (last :: prev :: rest)) <? 2)%nat with false
    by (symmetry; apply Nat.ltb_ge; rewrite length_rev; simpl; lia).
  simpl rev.
  rewrite element_last, element_prev.
  reflexivity.
Qed.

(** ** The technical score

    C2: for every bar sequence the technical score is the reference
    definition of the specification: 0.5 with fewer than two bars, and
    otherwise the mean of a trend score and a momentum score, each 0.6 or
    0.4; for the two bars with closes 100 and 110 it is exactly 0.6. *)
Theorem technical_score_refines_reference :
  (forall marketData : list MarketData,
      calculateTechnicalScore marketData = Ok (technical_score_reference marketData))
  /\ (forall marketData : list MarketData,
         length marketData < 2 -> calculateTechnicalScore marketData = Ok 0.5%float)
  /\ calculateTechnicalScore [close_only 100; close_only 110] = Ok 0.6%float.
Proof.
  assert (H : forall marketData,
             calculateTechnicalScore marketData = Ok (technical_score_reference marketData)).
  { intros marketData.
    unfold technical_score_reference.
    rewrite lastn_slice_last.
    destruct (rev marketData) as [| last [| prev rest]] eqn:E;
      apply (f_equal (@rev _)) in E; rewrite rev_involutive in E; subst marketData;
      try reflexivity.
    unfold calculateTechnicalScore.
    replace (length (rev (last :: prev :: rest)) <? 2)%nat with false
      by (symmetry; apply Nat.ltb_ge; rewrite length_rev; simpl; lia).
    simpl rev.
    rewrite element_last, element_prev.
    reflexivity. }
  split; [exact H | split].
  - intros marketData Hlen. rewrite H. unfold technical_score_reference.
    destruct marketData as [| a [| b l]]; simpl in *; try reflexivity; lia.
  - reflexivity.
Qed.

Lemma technical_score_short_witness :
  calculateTechnicalScore [close_only 100] = Ok 0.5%float.
Proof.
  apply (proj1 (proj2 technical_score_refines_reference)). simpl. lia.
Defined.

(** ** Action selection *)

Section ActionSelection.

Local Open Scope float_scope.

Lemma one_minus_threshold : 1 - threshold = 0.4.
Proof. reflexivity. Qed.

Lemma lt_04_not_gt_06 (c : float) : (c <? 0.4) = true -> (0.6 <? c) = false.
Proof.
  rewrite !ltb_spec.
  change (Prim2SF 0.4) with (S754_finite false 7205759403792794 (-54)).
  change (Prim2SF 0.6) with (S754_finite false 5404319552844595 (-53)).
  destruct (Prim2SF c) as [s | s | | s m e]; unfold SFltb, SFcompare;
    try destruct s; try discriminate; try reflexivity.
  destruct (Z.compare_spec e (-54)) as [He | He | He];
    destruct (Z.compare_spec (-53) e) as [He' | He' | He'];
    try lia; try discriminate; reflexivity.
Qed.

Lemma select_action_cases (c : float) :
  select_action c =
    if JS.gt c 0.6 then BUY else if JS.lt c 0.4 then SELL else HOLD.
Proof. reflexivity. Qed.

(** C1: with [combined = technical_score * 0.6 + sentiment_score * 0.4] and
    the fixed threshold 0.6, the action is BUY exactly when
    [combined > 0.6], SELL exactly when [combined < 0.4] and HOLD exactly
    when neither holds; the two comparisons never hold together.  This holds
    for every pair of scores, those of [[0,1]] included, and the signal
    [analyzeMarket] returns carries this action. *)
Theorem action_selection (technical_score sentiment_score : float) :
  let combined := combinedScore technical_score sentiment_score in
  (select_action combined = BUY <-> JS.gt combined 0.6 = true)
  /\ (select_action combined = SELL <-> JS.lt combined 0.4 = true)
  /\ (select_action combined = HOLD <->
        JS.gt combined 0.6 = false /\ JS.lt combined 0.4 = false)
  /\ ~ (JS.gt combined 0.6 = true /\ JS.lt combined 0.4 = true).
Proof.
  intros combined. rewrite select_action_cases.
  pose proof (lt_04_not_gt_06 combined) as Hexcl.
  unfold JS.gt, JS.lt in *.
  destruct (0.6 <? combined) eqn:Hgt, (combined <? 0.4) eqn:Hlt;
    try (specialize (Hexcl eq_refl); discriminate);
    repeat split; try congruence; intros; intuition congruence.
Qed.

End ActionSelection.

(** ** The sentiment score *)

Section Sentiment.

Lemma count_words_filter (words : list string) (lowerNews : string) (count : nat) :
  count_words words lowerNews count
  = count + length (filter (fun word => includes lowerNews word) words).
Proof.
  unfold count_words. revert count.
  induction words as [| w words IH]; intros count; simpl.
  - lia.
  - rewrite IH. destruct (includes lowerNews w); simpl; lia.
Qed.

Lemma hits_cons (words : list string) (news : string) (newsData : list string) :
  hits words (news :: newsData)
  = length (filter (fun word => includes (toLowerCase news) word) words)
    + hits words newsData.
Proof.
  unfold hits. simpl. rewrite filter_app, length_app. f_equal.
  induction words as [| w words IH]; simpl; [reflexivity |].
  destruct (includes (toLowerCase news) w); simpl; now rewrite IH.
Qed.

Lemma sentiment_loop (newsData : list string) (p n : nat) :
  fold_left sentiment_step newsData (p, n)
  = (p + hits positiveWords newsData, n + hits negativeWords newsData).
Proof.
  revert p n. induction newsData as [| news newsData IH]; intros p n.
  - unfold hits. simpl. f_equal; lia.
  - cbn [fold_left]. unfold sentiment_step at 2.
    rewrite IH, !count_words_filter, !hits_cons. f_equal; lia.
Qed.

(** C4: for every list of snippets the sentiment score is
    [positiveCount / (positiveCount + negativeCount)], the counts being the
    numbers of (snippet, word) pairs such that the word of the positive,
    respectively negative, list occurs in the lower-cased snippet; it is
    0.5 when the two counts are zero and when there is no snippet, and 1
    for the single snippet "strong bullish rally". *)
Theorem sentiment_score_refines_reference :
  (forall newsData : list string,
      analyzeSentiment newsData = sentiment_reference newsData)
  /\ (forall newsData : list string,
         hits positiveWords newsData + hits negativeWords newsData = 0 ->
         analyzeSentiment newsData = 0.5%float)
  /\ analyzeSentiment [] = 0.5%float
  /\ hits positiveWords ["strong bullish rally"%string] = 3
  /\ hits negativeWords ["strong bullish rally"%string] = 0
  /\ analyzeSentiment ["strong bullish rally"%string] = 1%float.
Proof.
  assert (H : forall newsData, analyzeSentiment newsData = sentiment_reference newsData).
  { intros newsData. unfold analyzeSentiment, sentiment_reference.
    rewrite sentiment_loop. simpl Nat.add.
    destruct newsData as [| news newsData]; reflexivity. }
  split; [exact H | split; [| repeat split; reflexivity]].
  intros newsData Hzero. rewrite H. unfold sentiment_reference.
  now rewrite Hzero.
Qed.

Lemma sentiment_no_hit_witness :
  analyzeSentiment ["Major exchanges report record trading volumes"%string] = 0.5%float.
Proof.
  apply (proj1 (proj2 sentiment_score_refines_reference)). reflexivity.
Defined.

End Sentiment.

(** ** No thrown error *)

Section Totality.

Variable Math_pow : float -> float -> float.

Lemma calculateTechnicalScore_returns (marketData : list MarketData) :
  returns (calculateTechnicalScore marketData).
Proof.
  exists (technical_score_reference marketData).
  apply technical_score_is_reference.
Qed.

Lemma volatility_returns_total (marketData : list MarketData) (indices : list nat) :
  (forall i, In i indices -> i < length marketData) ->
  forall acc, returns (volatility_returns marketData indices acc).
Proof.
  induction indices as [| i indices IH]; intros Hin acc; simpl.
  - now exists acc.
  - destruct (element_in_range marketData i) as [c Hc]; [apply Hin; now left |].
    destruct (element_in_range marketData (i - 1)) as [p Hp].
    { specialize (Hin i (or_introl eq_refl)). lia. }
    rewrite Hc, Hp. simpl.
    apply IH. intros j Hj. apply Hin. now right.
Qed.

Lemma calculateVolatility_returns (marketData : list MarketData) :
  returns (calculateVolatility Math_pow marketData).
Proof.
  unfold calculateVolatility.
  destruct (length marketData <? 2)%nat eqn:Hlen; [now eexists |].
  apply Nat.ltb_ge in Hlen.
  destruct (volatility_returns_total marketData (seq 1 (length marketData - 1)))
    with (acc := @nil float) as [rets Hrets].
  { intros i Hi. apply in_seq in Hi. lia. }
  rewrite Hrets. simpl. now eexists.
Qed.

Lemma latest_close_returns (marketData : list MarketData) (random : float) :
  (if (0 <? length marketData)%nat
   then property (element marketData (length marketData - 1)) close
   else Ok (50000 + random * 5000)%float)
  = Ok (latest_price marketData random).
Proof.
  unfold latest_price.
  destruct (rev marketData) as [| b rest] eqn:E;
    apply (f_equal (@rev _)) in E; rewrite rev_involutive in E; subst marketData.
  - reflexivity.
  - simpl rev.
    replace (0 <? length (rev rest ++ [b]))%nat with true
      by (symmetry; apply Nat.ltb_lt; rewrite length_app; simpl; lia).
    now rewrite element_last.
Qed.

(** What [analyzeMarket] returns for a strategy that exists. *)
Lemma analyzeMarket_unfold (strategy : Strategy) (marketData : list MarketData)
    (newsData : list string) (random : float) :
  exists volatility,
    calculateVolatility Math_pow marketData = Ok volatility
    /\ analyzeMarket Math_pow (Some strategy) marketData newsData random
       = let latestPrice := latest_price marketData random in
         let technicalScore := technical_score_reference marketData in
         let sentimentScore := analyzeSentiment newsData in
         let combined := combinedScore technicalScore sentimentScore in
         let action := select_action combined in
         Ok {| symbol := match symbols strategy with
                         | Some (s :: _) => s
                         | _ => "BTC/USDT"%string
                         end;
               action := action;
               confidence := confidence_of combined;
               price_target := JS.Number_toFixed2 (priceTarget action latestPrice volatility);
               stop_loss :=
                 JS.Number_toFixed2
                   (stopLoss action latestPrice (stop_loss_percentage strategy));
               technical_indicators := calculateTechnicalIndicators marketData;
               sentiment_analysis :=
                 {| overall_sentiment :=
                      if JS.gt combined 0.6 then "positive"%string
                      else if JS.lt combined 0.4 then "negative"%string
                      else "neutral"%string;
                    sentiment_score := sentimentScore;
                    sources_analyzed := length newsData |} |}.
Proof.
  destruct (calculateVolatility_returns marketData) as [volatility Hvol].
  exists volatility. split; [exact Hvol |].
  unfold analyzeMarket.
  rewrite latest_close_returns.
  rewrite technical_score_is_reference.
  simpl bind. rewrite Hvol. reflexivity.
Qed.

End Totality.

(** ** Price target and stop loss *)

Section PriceLevels.

Local Open Scope float_scope.

Variable Math_pow : float -> float -> float.

(** The scenario of the specification, end to end: one bar closing at
    50000 (technical score 0.5), seven positive hits and one negative
    (sentiment 0.875), hence a combined score of 0.65. *)
Definition scenario_strategy : Strategy :=
  {| symbols := None; stop_loss_percentage := 2; risk_level := "medium" |}.

Definition scenario_news : list string :=
  ["strong bullish growth"; "positive gains rally surge"; "weak"]%string.

(** C5, as the code has it: the signal's [price_target] is
    [lastClose * (1 + volatility * 2)] for BUY, [lastClose * (1 - volatility * 2)]
    for SELL and [lastClose] for HOLD, and its [stop_loss] is
    [lastClose * (1 - stop_loss_percentage / 100)] for BUY,
    [lastClose * (1 + stop_loss_percentage / 100)] for SELL and [lastClose]
    for HOLD, each rounded to two decimals by [Number(x.toFixed(2))].
    For a combined score of 0.65, a stop-loss percentage of 2 and a last
    close of 50000 the action is BUY, the stop loss 49000 and the
    confidence [|0.65 - 0.5| * 2], which in binary64 is
    0.30000000000000004 rather than 0.3. *)
Theorem price_target_and_stop_loss :
  (forall (strategy : Strategy) (marketData : list MarketData)
          (newsData : list string) (random : float),
      exists (signal : AISignal) (volatility : float),
        analyzeMarket Math_pow (Some strategy) marketData newsData random = Ok signal
        /\ calculateVolatility Math_pow marketData = Ok volatility
        /\ let lastClose := latest_price marketData random in
           price_target signal
           = JS.Number_toFixed2
               match action signal with
               | BUY => lastClose * (1 + volatility * 2)
               | SELL => lastClose * (1 - volatility * 2)
               | HOLD => lastClose
               end
           /\ stop_loss signal
              = JS.Number_toFixed2
                  match action signal with
                  | BUY => lastClose * (1 - stop_loss_percentage strategy / 100)
                  | SELL => lastClose * (1 + stop_loss_percentage strategy / 100)
                  | HOLD => lastClose
                  end)
  /\ (select_action 0.65 = BUY
      /\ confidence_of 0.65 = 0.30000000000000004
      /\ JS.Number_toFixed2 (stopLoss BUY 50000 2) = 49000)
  /\ (exists signal : AISignal,
         analyzeMarket Math_pow (Some scenario_strategy) [close_only 50000] scenario_news 0
         = Ok signal
         /\ combinedScore (technical_score_reference [close_only 50000])
                          (analyzeSentiment scenario_news) = 0.65
         /\ action signal = BUY
         /\ confidence signal = 0.30000000000000004
         /\ stop_loss signal = 49000
         /\ price_target signal = 52000).
Proof.
  split; [| split].
  - intros strategy marketData newsData random.
    destruct (analyzeMarket_unfold Math_pow strategy marketData newsData random)
      as [volatility [Hvol Hsig]].
    eexists. exists volatility. split; [exact Hsig |]. split; [exact Hvol |].
    cbn [price_target stop_loss action]. split; reflexivity.
  - repeat split; reflexivity.
  - destruct (analyzeMarket_unfold Math_pow scenario_strategy [close_only 50000]
                scenario_news 0) as [volatility [Hvol Hsig]].
    assert (volatility = 0.02) by (cbv in Hvol; congruence). subst volatility.
    eexists. split; [exact Hsig |].
    repeat split; vm_compute; reflexivity.
Qed.

End PriceLevels.

Section PriceLevelsClosed.

Local Open Scope float_scope.

(** The claim of C5 without the rounding and with a confidence of 0.3 fails:
    a bar closing at 100.01, a BUY and a stop-loss percentage of 2.5 give a
    stop loss of 97.51, not [100.01 * (1 - 2.5 / 100)]; and the confidence
    for a combined score of 0.65 is not 0.3. *)
Lemma price_levels_are_rounded :
  exists signal : AISignal,
    analyzeMarket pow_square
      (Some {| symbols := None; stop_loss_percentage := 2.5; risk_level := "low" |})
      [close_only 100.01] ["strong"%string] 0 = Ok signal
    /\ action signal = BUY
    /\ stop_loss signal = 97.51
    /\ 100.01 * (1 - 2.5 / 100) = 97.509749999999997
    /\ (stop_loss signal =? 100.01 * (1 - 2.5 / 100)) = false
    /\ (confidence_of 0.65 =? 0.3) = false.
Proof.
  destruct (analyzeMarket_unfold pow_square
              {| symbols := None; stop_loss_percentage := 2.5; risk_level := "low" |}
              [close_only 100.01] ["strong"%string] 0) as [volatility [Hvol Hsig]].
  eexists. split; [exact Hsig |].
  repeat split; vm_compute; reflexivity.
Qed.

End PriceLevelsClosed.

(** ** The indicator set *)

Section Indicators.

Local Open Scope float_scope.

Lemma of_nat_20 : JS.of_nat 20 = 20.
Proof. reflexivity. Qed.

Lemma slice_last_length {A : Type} (k : nat) (l : list A) :
  length (slice_last k l) = Nat.min k (length l).
Proof. unfold slice_last. rewrite length_skipn. lia. Qed.

Lemma lastn_full_window {A : Type} (k : nat) (l : list A) :
  k <= length l -> lastn k l = slice_last k l.
Proof.
  intros Hk. rewrite <- lastn_slice_last. now rewrite Nat.min_l.
Qed.

Lemma indicators_short (marketData : list MarketData) :
  length marketData < 14 ->
  calculateTechnicalIndicators marketData
  = {| rsi := 50;
       sma_20 := JS.or_default (option_map close (element marketData (length marketData - 1))) 50000;
       sma_50 := JS.or_default (option_map close (element marketData (length marketData - 1))) 50000;
       macd := 0;
       volume_trend := "neutral" |}.
Proof.
  intros Hlen. unfold calculateTechnicalIndicators.
  now replace (length marketData <? 14)%nat with true by (symmetry; now apply Nat.ltb_lt).
Qed.

Lemma indicators_full (marketData : list MarketData) :
  14 <= length marketData ->
  calculateTechnicalIndicators marketData
  = let closes := map close marketData in
    let volumes := map volume marketData in
    let sma20 := reduce_sum (slice_last 20 closes) / 20 in
    let sma50 := reduce_sum (slice_last 50 closes) / JS.of_nat (Nat.min 50 (length closes)) in
    {| rsi := JS.Number_toFixed2 (calculateRSI closes 14);
       sma_20 := JS.Number_toFixed2 sma20;
       sma_50 := JS.Number_toFixed2 sma50;
       macd := JS.Number_toFixed2 ((sma20 - sma50) / sma50 * 100);
       volume_trend :=
         if JS.gt (JS.index volumes (length volumes - 1))
                  (reduce_sum (slice_last 20 volumes) / 20)
         then "increasing"%string else "decreasing"%string |}.
Proof.
  intros Hlen. unfold calculateTechnicalIndicators.
  now replace (length marketData <? 14)%nat with false by (symmetry; now apply Nat.ltb_ge).
Qed.

(** With twenty bars or more the divisor 20 is the number of closes summed:
    [sma_20] is the mean of the last twenty closes, to two decimals. *)
Lemma sma_20_is_mean_from_20_bars (marketData : list MarketData) :
  20 <= length marketData ->
  sma_20 (calculateTechnicalIndicators marketData)
  = JS.Number_toFixed2 (mean (lastn 20 (map close marketData))).
Proof.
  intros Hlen. rewrite indicators_full by lia. cbn [sma_20].
  unfold mean.
  rewrite lastn_full_window by (rewrite length_map; lia).
  rewrite slice_last_length.
  rewrite length_map, Nat.min_l, of_nat_20 by lia.
  reflexivity.
Qed.

(** [sma_50] is the mean of the last [min 50 n] closes, to two decimals. *)
Lemma sma_50_is_mean (marketData : list MarketData) :
  14 <= length marketData ->
  sma_50 (calculateTechnicalIndicators marketData)
  = JS.Number_toFixed2
      (mean (lastn (Nat.min 50 (length marketData)) (map close marketData))).
Proof.
  intros Hlen. rewrite indicators_full by lia. cbn [sma_50].
  unfold mean.
  rewrite <- (length_map close marketData).
  rewrite lastn_slice_last, slice_last_length.
  reflexivity.
Qed.

(** C6 fails on the code for 14 to 19 bars: the sum of the closes at hand
    is divided by 20, not by their number.  Fourteen bars closing at 100
    have a mean close of 100 and an [sma_20] of 70 (and, from it, a [macd]
    of -30), while [sma_50], which divides by [min 50 n], is 100. *)
Theorem sma_20_divides_by_20 :
  let marketData := map close_only (repeat 100 14) in
  length marketData = 14%nat
  /\ mean (lastn (Nat.min 20 (length marketData)) (map close marketData)) = 100
  /\ sma_20 (calculateTechnicalIndicators marketData) = 70
  /\ sma_50 (calculateTechnicalIndicators marketData) = 100
  /\ macd (calculateTechnicalIndicators marketData) = -30.
Proof. repeat split; vm_compute; reflexivity. Qed.

(** C7, as the code has it: with fewer than 14 bars [volume_trend] is
    'neutral'; with 14 bars or more it is 'increasing' or 'decreasing'; and
    with 20 bars or more it is 'increasing' exactly when the latest volume
    is strictly greater than the mean of the last 20 volumes, and
    'decreasing' otherwise. *)
Theorem volume_trend_values (marketData : list MarketData) :
  let trend := volume_trend (calculateTechnicalIndicators marketData) in
  (length marketData < 14 -> trend = "neutral"%string)
  /\ (14 <= length marketData ->
      trend = "increasing"%string \/ trend = "decreasing"%string)
  /\ (20 <= length marketData ->
      forall latest : MarketData,
        element marketData (length marketData - 1) = Some latest ->
        let average := mean (lastn 20 (map volume marketData)) in
        (trend = "increasing"%string <-> JS.gt (volume latest) average = true)
        /\ (trend = "decreasing"%string <-> JS.gt (volume latest) average = false)).
Proof.
  intros trend. subst trend. split; [| split].
  - intros Hlen. now rewrite indicators_short.
  - intros Hlen. rewrite indicators_full by assumption. cbn [volume_trend].
    destruct (JS.gt _ _); [now left | now right].
  - intros Hlen latest Hlatest average. subst average.
    rewrite indicators_full by lia. cbn [volume_trend].
    unfold mean.
    rewrite lastn_full_window, slice_last_length by (rewrite length_map; lia).
    rewrite !length_map, Nat.min_l, of_nat_20 by lia.
    unfold JS.index.
    rewrite (nth_error_nth (map volume marketData) (length marketData - 1) nan
               (x := volume latest))
      by (rewrite nth_error_map; unfold element in Hlatest; now rewrite Hlatest).
    destruct (JS.gt (volume latest) _); split; split; congruence.
Qed.

End Indicators.

Section IndicatorExamples.

Local Open Scope float_scope.

(** Twenty bars of volume 1000 but the last, of volume 2000. *)
Definition rising_volumes : list MarketData :=
  map (fun v => {| date := ""; close := 100; volume := v; high := 100; low := 100; open := 100 |})
      (repeat 1000 19 ++ [2000]).

Lemma volume_trend_witness :
  volume_trend (calculateTechnicalIndicators rising_volumes) = "increasing"%string
  \/ volume_trend (calculateTechnicalIndicators rising_volumes) = "decreasing"%string.
Proof.
  apply (proj1 (proj2 (volume_trend_values rising_volumes))). simpl. lia.
Defined.

(** C7 as stated fails below 14 bars: the trend of the empty sequence is
    'neutral', neither 'increasing' nor 'decreasing'. *)
Lemma volume_trend_neutral :
  volume_trend (calculateTechnicalIndicators []) = "neutral"%string
  /\ volume_trend (calculateTechnicalIndicators []) <> "increasing"%string
  /\ volume_trend (calculateTechnicalIndicators []) <> "decreasing"%string.
Proof. repeat split; discriminate. Qed.

(** C8, as the code has it: with fewer than 14 bars [rsi] is 50 and [macd]
    is 0, and [sma_20] and [sma_50] are both the latest close when there is
    one and it is neither zero nor NaN, and 50000 otherwise (no bar, or a
    latest close of 0, -0 or NaN). *)
Theorem indicator_fallback (marketData : list MarketData) :
  length marketData < 14 ->
  let indicators := calculateTechnicalIndicators marketData in
  rsi indicators = 50
  /\ macd indicators = 0
  /\ sma_20 indicators = sma_50 indicators
  /\ (forall latest : MarketData,
         element marketData (length marketData - 1) = Some latest ->
         JS.truthy (close latest) = true ->
         sma_20 indicators = close latest /\ sma_50 indicators = close latest)
  /\ (forall latest : MarketData,
         element marketData (length marketData - 1) = Some latest ->
         is_zero (close latest) = true \/ is_nan (close latest) = true ->
         sma_20 indicators = 50000 /\ sma_50 indicators = 50000)
  /\ (marketData = [] -> sma_20 indicators = 50000 /\ sma_50 indicators = 50000).
Proof.
  intros Hlen indicators. subst indicators.
  rewrite indicators_short by assumption. cbn [rsi macd sma_20 sma_50].
  repeat split; try reflexivity.
  - rewrite H. simpl. now rewrite H0.
  - rewrite H. simpl. now rewrite H0.
  - rewrite H. simpl. unfold JS.truthy.
    destruct H0 as [-> | ->]; [reflexivity | now rewrite orb_true_r].
  - rewrite H. simpl. unfold JS.truthy.
    destruct H0 as [-> | ->]; [reflexivity | now rewrite orb_true_r].
  - now subst marketData.
  - now subst marketData.
Qed.

Lemma indicator_fallback_witness :
  let indicators := calculateTechnicalIndicators [close_only 100; close_only 110] in
  rsi indicators = 50
  /\ macd indicators = 0
  /\ sma_20 indicators = 110
  /\ sma_50 indicators = 110.
Proof.
  pose proof (indicator_fallback [close_only 100; close_only 110]) as H.
  destruct H as [Hrsi [Hmacd [_ [Hlatest _]]]]; [simpl; lia |].
  destruct (Hlatest (close_only 110) eq_refl eq_refl) as [H20 H50].
  repeat split; assumption.
Defined.

(** C8 as stated fails for a latest close of zero: the moving averages
    are then 50000, not the latest close. *)
Lemma indicator_fallback_zero_close :
  length [close_only 0] < 14
  /\ element [close_only 0] (length [close_only 0] - 1) = Some (close_only 0)
  /\ close (close_only 0) = 0
  /\ sma_20 (calculateTechnicalIndicators [close_only 0]) = 50000
  /\ sma_50 (calculateTechnicalIndicators [close_only 0]) = 50000
  /\ (sma_20 (calculateTechnicalIndicators [close_only 0]) =? close (close_only 0)) = false.
Proof. repeat split; simpl; lia. Qed.

End IndicatorExamples.

(** * Further properties of the code *)

(** ** The technical score *)

Section TechnicalScore.

Local Open Scope float_scope.

Lemma technical_score_reference_values (marketData : list MarketData) :
  technical_score_reference marketData = 0.4
  \/ technical_score_reference marketData = 0.5
  \/ technical_score_reference marketData = 0.6.
Proof.
  unfold technical_score_reference.
  destruct (rev marketData) as [| last [| prev rest]]; [now right; left | now right; left |].
  cbv zeta.
  destruct (_ <? close last), (0 <? _);
    [right; right | right; left | right; left | left]; reflexivity.
Qed.

(** X1: on every bar sequence the technical score is one of the three
    values 0.4, 0.5 and 0.6. *)
Theorem technical_score_values (marketData : list MarketData) :
  calculateTechnicalScore marketData = Ok 0.4
  \/ calculateTechnicalScore marketData = Ok 0.5
  \/ calculateTechnicalScore marketData = Ok 0.6.
Proof.
  rewrite technical_score_is_reference.
  destruct (technical_score_reference_values marketData) as [-> | [-> | ->]]; auto.
Qed.

Lemma slice_last_rev {A : Type} (k : nat) (l : list A) :
  rev (slice_last k l) = firstn k (rev l).
Proof. unfold slice_last. now rewrite firstn_rev. Qed.

Lemma slice_last_idempotent {A : Type} (k : nat) (l : list A) :
  slice_last k (slice_last k l) = slice_last k l.
Proof.
  unfold slice_last at 1. rewrite slice_last_length.
  replace (Nat.min k (length l) - k)%nat with 0%nat by lia. reflexivity.
Qed.

(** X2: the technical score reads the last twenty bars only: every bar
    sequence has the score of its last twenty bars. *)
Theorem technical_score_window (marketData : list MarketData) :
  calculateTechnicalScore marketData
  = calculateTechnicalScore (slice_last 20 marketData).
Proof.
  rewrite !technical_score_is_reference. f_equal.
  unfold technical_score_reference.
  rewrite !lastn_slice_last, slice_last_idempotent, slice_last_rev.
  destruct (rev marketData) as [| last [| prev rest]]; reflexivity.
Qed.

End TechnicalScore.

(** ** The signal *)

Section Signal.

Local Open Scope float_scope.

Variable Math_pow : float -> float -> float.

(** X3: [analyzeMarket] throws exactly when the strategy is not found,
    with the message "Strategy not found"; for a strategy that exists it
    returns a signal on every bar sequence, the empty one included, and
    every list of snippets. *)
Theorem analyzeMarket_throws_only_without_strategy
    (strategy : Strategy) (marketData : list MarketData)
    (newsData : list string) (random : float) :
  analyzeMarket Math_pow None marketData newsData random = Throw "Strategy not found"
  /\ returns (analyzeMarket Math_pow (Some strategy) marketData newsData random).
Proof.
  split; [reflexivity |].
  destruct (analyzeMarket_unfold Math_pow strategy marketData newsData random)
    as [volatility [_ Hsig]].
  rewrite Hsig. now eexists.
Qed.

(** X4: the sentiment label of a signal and its action are two readings
    of the same comparison: 'positive' goes with BUY, 'negative' with SELL
    and 'neutral' with HOLD, on every input. *)
Theorem sentiment_label_follows_action
    (strategy : Strategy) (marketData : list MarketData)
    (newsData : list string) (random : float) :
  exists signal : AISignal,
    analyzeMarket Math_pow (Some strategy) marketData newsData random = Ok signal
    /\ overall_sentiment (sentiment_analysis signal)
       = match action signal with
         | BUY => "positive"
         | SELL => "negative"
         | HOLD => "neutral"
         end%string.
Proof.
  destruct (analyzeMarket_unfold Math_pow strategy marketData newsData random)
    as [volatility [_ Hsig]].
  eexists. split; [exact Hsig |].
  cbn [sentiment_analysis overall_sentiment action].
  rewrite select_action_cases.
  destruct (JS.gt _ 0.6); [reflexivity |].
  destruct (JS.lt _ 0.4); reflexivity.
Qed.

End Signal.

(** ** The sentiment score, continued *)

Section SentimentProperties.

Lemma analyzeSentiment_hits (newsData : list string) :
  analyzeSentiment newsData = sentiment_reference newsData.
Proof.
  unfold analyzeSentiment, sentiment_reference.
  rewrite sentiment_loop. simpl Nat.add.
  destruct newsData as [| news newsData]; reflexivity.
Qed.

Lemma hits_lower (words newsData newsData' : list string) :
  map toLowerCase newsData = map toLowerCase newsData' ->
  hits words newsData = hits words newsData'.
Proof.
  revert newsData'.
  induction newsData as [| news newsData IH]; intros [| news' newsData'] Heq;
    try discriminate; [reflexivity |].
  simpl in Heq. injection Heq as Hhead Htail.
  rewrite !hits_cons, Hhead. f_equal. now apply IH.
Qed.

(** X5: the sentiment score does not see the case of letters: two lists
    of snippets that agree once lower-cased have the same score. *)
Theorem sentiment_ignores_case (newsData newsData' : list string) :
  map toLowerCase newsData = map toLowerCase newsData' ->
  analyzeSentiment newsData = analyzeSentiment newsData'.
Proof.
  intros Heq. rewrite !analyzeSentiment_hits. unfold sentiment_reference.
  now rewrite !(hits_lower _ newsData newsData' Heq).
Qed.

Lemma sentiment_ignores_case_witness :
  analyzeSentiment ["STRONG Rally, no Fear"%string]
  = analyzeSentiment ["strong rally, NO FEAR"%string].
Proof. apply sentiment_ignores_case. reflexivity. Defined.

Lemma hits_permutation (words newsData newsData' : list string) :
  Permutation newsData newsData' -> hits words newsData = hits words newsData'.
Proof.
  induction 1 as [| news l l' _ IH | a b l | l l' l'' _ IH1 _ IH2].
  - reflexivity.
  - now rewrite !hits_cons, IH.
  - rewrite !hits_cons. lia.
  - congruence.
Qed.

(** X6: the sentiment score does not depend on the order of the snippets:
    a permutation of the list has the same score. *)
Theorem sentiment_ignores_order (newsData newsData' : list string) :
  Permutation newsData newsData' ->
  analyzeSentiment newsData = analyzeSentiment newsData'.
Proof.
  intros Hperm. rewrite !analyzeSentiment_hits. unfold sentiment_reference.
  now rewrite !(hits_permutation _ newsData newsData' Hperm).
Qed.

Lemma sentiment_ignores_order_witness :
  analyzeSentiment ["strong rally"; "fear"]%string
  = analyzeSentiment ["fear"; "strong rally"]%string.
Proof. apply sentiment_ignores_order. apply perm_swap. Defined.

End SentimentProperties.

(** ** The mock generator *)

Section Generator.

Local Open Scope float_scope.

Variable Math_random : nat -> float.
Variable isoDate : Z -> string.

(** The bar of day [i], from the five draws [5 * i], ..., [5 * i + 4]. *)
Definition generated_bar (days i : nat) : MarketData :=
  let close := 50000 + (JS.of_nat i / JS.of_nat days) * 5000
               + (Math_random (5 * i) - 0.5) * 2000 in
  {| date := isoDate (- Z.of_nat (days - i));
     close := JS.Number_toFixed2 close;
     volume := JS.Math_floor (800000 + Math_random (5 * i + 1) * 1200000);
     high := JS.Number_toFixed2 (close + Math_random (5 * i + 2) * 500);
     low := JS.Number_toFixed2 (close - Math_random (5 * i + 3) * 500);
     open := JS.Number_toFixed2 (close + (Math_random (5 * i + 4) - 0.5) * 200) |}.

Lemma generate_loop (days start count : nat) (data : list MarketData) :
  fold_left (generate_step Math_random isoDate days) (seq start count) (data, 5 * start)%nat
  = (data ++ map (generated_bar days) (seq start count), 5 * (start + count))%nat.
Proof.
  revert start data. induction count as [| count IH]; intros start data.
  - simpl. rewrite app_nil_r. f_equal. lia.
  - cbn [seq fold_left map]. unfold generate_step at 2.
    replace (5 * start + 5)%nat with (5 * S start)%nat by lia.
    rewrite IH, <- app_assoc. cbn [app].
    f_equal. lia.
Qed.


End Generator.

(** ** Trade execution *)

Section TradeExecution.

Local Open Scope float_scope.

Variable Math_pow : float -> float -> float.
Variable Math_random : nat -> float.
Variable isoDate : Z -> string.
Variable TradeRow : Type.
Variable strategies : string -> string -> option StrategyRow.
Variable insert_trade : TradeInsert -> TradeRow + string.

Definition trade_news : list string :=
  ["Market shows positive momentum"; "Institutional adoption increasing"]%string.

(** The two fixed snippets of [executeTrade] hit 'positive' and 'adoption'
    and no negative word. *)
Lemma trade_news_sentiment : analyzeSentiment trade_news = 1.
Proof. reflexivity. Qed.

(** With a sentiment score of 1 every technical score gives a BUY whose
    confidence is below 0.6. *)
Lemma trade_signal_weak (technicalScore : float) :
  technicalScore = 0.4 \/ technicalScore = 0.5 \/ technicalScore = 0.6 ->
  select_action (combinedScore technicalScore 1) = BUY
  /\ JS.lt (confidence_of (combinedScore technicalScore 1)) 0.6 = true.
Proof.
  intros [-> | [-> | ->]]; split; reflexivity.
Qed.

Lemma executeTrade_skips (userId strategyId : string) (strategy : StrategyRow) :
  strategies userId strategyId = Some strategy ->
  is_active strategy = true ->
  exists signal : AISignal,
    executeTrade Math_pow Math_random isoDate strategies insert_trade userId strategyId
    = Ok {| message := "Confidence below threshold, skipping trade";
            trade := None;
            signal := signal |}
    /\ action signal = BUY
    /\ JS.lt (confidence signal) 0.6 = true.
Proof.
  intros Hrow Hactive.
  unfold executeTrade, analyzeMarket_for. rewrite Hrow, Hactive. cbn [negb option_map].
  set (marketData := generateMockMarketData Math_random isoDate 50).
  destruct (analyzeMarket_unfold Math_pow (strategy_columns strategy) marketData
              trade_news (Math_random (5 * 50))) as [volatility [_ Hsig]].
  fold trade_news. rewrite Hsig. cbv zeta. cbn [bind action confidence].
  rewrite trade_news_sentiment.
  destruct (trade_signal_weak (technical_score_reference marketData)
              (technical_score_reference_values marketData)) as [Hbuy Hweak].
  rewrite Hbuy, Hweak.
  eexists. split; [reflexivity |]. cbn [action confidence]. now split.
Qed.

(** X8: [executeTrade] never inserts a trade.  For a strategy that is
    found and active, whatever the draws of [Math.random()], the signal on
    the fifty mock bars and the two fixed snippets is a BUY of confidence
    below 0.6 (at most 0.52), so the answer is always "Confidence below
    threshold, skipping trade", without a trade. *)
Theorem executeTrade_never_trades (userId strategyId : string) (strategy : StrategyRow) :
  strategies userId strategyId = Some strategy ->
  is_active strategy = true ->
  exists signal : AISignal,
    executeTrade Math_pow Math_random isoDate strategies insert_trade userId strategyId
    = Ok {| message := "Confidence below threshold, skipping trade";
            trade := None;
            signal := signal |}
    /\ action signal = BUY
    /\ JS.lt (confidence signal) 0.6 = true.
Proof. apply executeTrade_skips. Qed.

(** X9: [executeTrade] throws "Strategy is not active" exactly when the
    strategy is not found or not active, and then before any analysis. *)
Theorem executeTrade_requires_active_strategy (userId strategyId : string) :
  executeTrade Math_pow Math_random isoDate strategies insert_trade userId strategyId
  = Throw "Strategy is not active"
  <-> (strategies userId strategyId = None
       \/ exists strategy : StrategyRow,
            strategies userId strategyId = Some strategy /\ is_active strategy = false).
Proof.
  split.
  - intros Hthrow.
    destruct (strategies userId strategyId) as [strategy |] eqn:Hrow; [| now left].
    right. exists strategy. split; [reflexivity |].
    destruct (is_active strategy) eqn:Hactive; [| reflexivity].
    destruct (executeTrade_skips userId strategyId strategy Hrow Hactive)
      as [signal [Hok _]].
    congruence.
  - unfold executeTrade. intros [-> | [strategy [-> ->]]]; reflexivity.
Qed.

End TradeExecution.

Section TradeExecutionClosed.

Local Open Scope string_scope.
Local Open Scope float_scope.

(** A database with one active strategy, for the closed examples. *)
Definition example_row : StrategyRow :=
  {| strategy_columns :=
       {| symbols := Some ["ETH/USDT"%string]; stop_loss_percentage := 2; risk_level := "medium" |};
     is_active := true;
     max_position_size := 1000 |}.

Definition example_strategies (userId strategyId : string) : option StrategyRow :=
  if (String.eqb userId "user-1" && String.eqb strategyId "strategy-1")%bool
  then Some example_row else None.

Definition example_insert (row : TradeInsert) : TradeInsert + string := inl row.

Lemma executeTrade_never_trades_witness :
  exists signal : AISignal,
    executeTrade pow_square (fun _ => 0.25) (fun _ => ""%string)
      example_strategies example_insert "user-1" "strategy-1"
    = Ok {| message := "Confidence below threshold, skipping trade";
            trade := None;
            signal := signal |}
    /\ action signal = BUY
    /\ JS.lt (confidence signal) 0.6 = true.
Proof.
  apply (executeTrade_never_trades pow_square (fun _ => 0.25) (fun _ => ""%string)
           TradeInsert example_strategies example_insert "user-1" "strategy-1" example_row);
    reflexivity.
Defined.

End TradeExecutionClosed.

(** ** The request handler *)

Section RequestHandler.

Variable Math_pow : float -> float -> float.
Variable Math_random : nat -> float.
Variable isoDate : Z -> string.
Variable TradeRow : Type.
Variable strategies : string -> string -> option StrategyRow.
Variable insert_trade : TradeInsert -> TradeRow + string.
Variable getUser : string -> option string.

Local Abbreviation handle :=
  (serve Math_pow Math_random isoDate strategies insert_trade getUser).



Lemma executeTrade_needs_row (userId strategyId : string) :
  returns (executeTrade Math_pow Math_random isoDate strategies insert_trade
             userId strategyId) ->
  exists row : StrategyRow, strategies userId strategyId = Some row.
Proof.
  unfold executeTrade.
  destruct (strategies userId strategyId) as [row |]; [now exists row |].
  intros [r Hr]. discriminate.
Qed.


(** X11: every response is a 200 or a 500 and carries the three CORS
    headers; it is a 500 exactly when its body is an error message, which
    is then the message of the error thrown. *)
Theorem response_status_and_headers (req : Request) :
  incl corsHeaders (response_headers (handle req))
  /\ ((response_status (handle req) = 200
       /\ forall error, response_body (handle req) <> ErrorMessage error)
      \/ (response_status (handle req) = 500
          /\ exists error,
               response_body (handle req) = ErrorMessage error
               /\ serve_try Math_pow Math_random isoDate strategies insert_trade getUser req
                  = Throw error)).
Proof.
  unfold serve.
  destruct (String.eqb (method req) "OPTIONS").
  - split; [apply incl_refl |]. left. split; [reflexivity | discriminate].
  - destruct (serve_try _ _ _ _ _ _ req) as [response | error] eqn:Htry.
    + unfold serve_try in Htry.
      destruct (authorization req) as [[| c authHeader] |]; try discriminate.
      destruct (getUser _); [| discriminate].
      destruct (json req) as [body | msg]; [| discriminate].
      cbn [bind] in Htry.
      destruct (match body_action body with Some a => String.eqb a "execute_trade" | None => false end).
      * destruct (executeTrade _ _ _ _ _ _ _); [| discriminate].
        injection Htry as <-. cbn [response_headers response_status response_body].
        split; [unfold jsonHeaders; apply incl_appl, incl_refl |].
        left. split; [reflexivity | discriminate].
      * destruct (analyzeMarket_for _ _ _ _ _ _ _ _); [| discriminate].
        injection Htry as <-. cbn [response_headers response_status response_body].
        split; [unfold jsonHeaders; apply incl_appl, incl_refl |].
        left. split; [reflexivity | discriminate].
    + cbn [response_headers response_status response_body]. split; [unfold jsonHeaders; apply incl_appl, incl_refl |].
      right. split; [reflexivity |]. now exists error.
Qed.

(** X12: no request makes the handler insert a trade: the answer to an
    "execute_trade" request, when it is not an error, is always
    "Confidence below threshold, skipping trade", without a trade. *)
Theorem handler_never_trades (req : Request) (result : TradeResult TradeRow) :
  response_body (handle req) = SuccessResult result ->
  message result = "Confidence below threshold, skipping trade"%string
  /\ trade result = None
  /\ action (signal result) = BUY.
Proof.
  unfold serve, serve_try.
  destruct (String.eqb (method req) "OPTIONS"); [discriminate |].
  destruct (authorization req) as [[| c authHeader] |]; try discriminate.
  destruct (getUser _) as [user_id |]; [| discriminate].
  destruct (json req) as [body | msg]; [| discriminate].
  cbn [bind].
  destruct (match body_action body with Some a => String.eqb a "execute_trade" | None => false end).
  - destruct (executeTrade _ _ _ _ _ _ _) as [r | msg] eqn:Hr; [| discriminate].
    cbn. intros Hbody. injection Hbody as <-.
    destruct (executeTrade_needs_row user_id (body_strategyId body)) as [row Hrow];
      [now exists r |].
    destruct (is_active row) eqn:Hactive.
    + destruct (executeTrade_skips Math_pow Math_random isoDate TradeRow strategies
                  insert_trade user_id (body_strategyId body) row Hrow Hactive)
        as [s [Hok [Hbuy _]]].
      rewrite Hok in Hr. injection Hr as <-. cbn. auto.
    + unfold executeTrade in Hr. rewrite Hrow, Hactive in Hr. discriminate.
  - destruct (analyzeMarket_for _ _ _ _ _ _ _ _); discriminate.
Qed.

End RequestHandler.

Section RequestHandlerClosed.

Local Open Scope string_scope.
Local Open Scope float_scope.

Definition example_getUser (token : string) : option string :=
  if String.eqb token "token-1" then Some "user-1" else None.


(** A request for a trade. *)
Definition example_trade_request : Request :=
  {| method := "POST";
     authorization := Some "Bearer token-1";
     json := Ok {| body_action := Some "execute_trade";
                   body_strategyId := "strategy-1";
                   body_marketData := None;
                   body_newsData := None |} |}.

Definition example_serve : Request -> Response TradeInsert :=
  serve pow_square (fun _ => 0.25) (fun _ => "") example_strategies example_insert
    example_getUser.


Lemma handler_never_trades_witness :
  exists result : TradeResult TradeInsert,
    response_body (example_serve example_trade_request) = SuccessResult result
    /\ message result = "Confidence below threshold, skipping trade"
    /\ trade result = None
    /\ action (signal result) = BUY.
Proof.
  destruct (response_body (example_serve example_trade_request)) as [| result | |] eqn:Hbody;
    try (vm_compute in Hbody; discriminate).
  exists result. split; [reflexivity |].
  apply (handler_never_trades pow_square (fun _ => 0.25) (fun _ => "") TradeInsert
           example_strategies example_insert example_getUser example_trade_request).
  exact Hbody.
Defined.

End RequestHandlerClosed.

(** ** The RSI *)

Section RSI.

Local Open Scope float_scope.

Lemma calculateRSI_short (prices : list float) (period : nat) :
  length prices < period + 1 -> calculateRSI prices period = 50.
Proof.
  intros Hlen. unfold calculateRSI.
  now replace (length prices <? period + 1)%nat with true
    by (symmetry; now apply Nat.ltb_lt).
Qed.

(** X13: below fifteen bars the [rsi] of the indicator set is exactly 50:
    below fourteen by the fallback object, and for fourteen bars because
    the full path hands [calculateRSI] fourteen closes, one short of
    [period + 1], and 50 is printed unchanged. *)
Theorem rsi_neutral_below_15_bars (marketData : list MarketData) :
  length marketData < 15 ->
  rsi (calculateTechnicalIndicators marketData) = 50.
Proof.
  intros Hlen.
  destruct (Nat.lt_ge_cases (length marketData) 14) as [Hshort | Hfull].
  - now rewrite indicators_short.
  - rewrite indicators_full by assumption. cbn [rsi].
    rewrite calculateRSI_short by (rewrite length_map; lia).
    reflexivity.
Qed.

Lemma rsi_neutral_witness :
  rsi (calculateTechnicalIndicators (map close_only (repeat 100 14))) = 50.
Proof. apply rsi_neutral_below_15_bars. simpl. lia. Defined.

End RSI.

(** * Binary64 arithmetic

    The operations of [SpecFloat], which specify the primitive operations
    on [float], round the exact result to the nearest number of the format.
    This is proved here from their definitions, and the order and
    monotonicity properties used below are derived from it. *)

Module IEEE.

Import Binary64.

Local Open Scope R_scope.

(** ** Powers of two *)

Lemma bpow_gt_0 (e : Z) : 0 < bpow e.
Proof. apply powerRZ_lt. lra. Qed.

Lemma bpow_add (a b : Z) : bpow (a + b) = bpow a * bpow b.
Proof. apply powerRZ_add. lra. Qed.

Lemma bpow_0 : bpow 0 = 1.
Proof. reflexivity. Qed.

Lemma bpow_1 : bpow 1 = 2.
Proof. unfold bpow, powerRZ. rewrite Pos2Nat.inj_1. apply pow_1. Qed.

Lemma bpow_succ (e : Z) : bpow (e + 1) = 2 * bpow e.
Proof. rewrite bpow_add, bpow_1. lra. Qed.

Lemma bpow_IZR (e : Z) : (0 <= e)%Z -> bpow e = IZR (2 ^ e).
Proof.
  intros He. unfold bpow.
  destruct e as [| p | p]; [reflexivity | | lia].
  unfold powerRZ. rewrite pow_IZR. now rewrite positive_nat_Z.
Qed.

Lemma bpow_ge_1 (e : Z) : (0 <= e)%Z -> 1 <= bpow e.
Proof.
  intros He. rewrite bpow_IZR by assumption.
  apply IZR_le. pose proof (Z.pow_pos_nonneg 2 e). lia.
Qed.

Lemma bpow_le (a b : Z) : (a <= b)%Z -> bpow a <= bpow b.
Proof.
  intros Hab. replace b with (a + (b - a))%Z by lia.
  rewrite bpow_add.
  pose proof (bpow_gt_0 a). pose proof (bpow_ge_1 (b - a) ltac:(lia)). nra.
Qed.

Lemma bpow_lt (a b : Z) : (a < b)%Z -> bpow a < bpow b.
Proof.
  intros Hab. replace b with ((a + 1) + (b - a - 1))%Z by lia.
  rewrite bpow_add, bpow_succ.
  pose proof (bpow_gt_0 a). pose proof (bpow_ge_1 (b - a - 1) ltac:(lia)). nra.
Qed.

Global Opaque bpow.

(** [m * 2^e] with an integer [m] below [2^k] is below [2^(k + e)], and
    conversely. *)
Lemma scaled_lt_bpow (m k e : Z) :
  (0 <= k)%Z -> (m < 2 ^ k)%Z -> IZR m * bpow e < bpow (k + e).
Proof.
  intros Hk Hm. rewrite bpow_add, (bpow_IZR k) by assumption.
  pose proof (bpow_gt_0 e). apply IZR_lt in Hm. nra.
Qed.

Lemma scaled_ge_bpow (m k e : Z) :
  (0 <= k)%Z -> (2 ^ k <= m)%Z -> bpow (k + e) <= IZR m * bpow e.
Proof.
  intros Hk Hm. rewrite bpow_add, (bpow_IZR k) by assumption.
  pose proof (bpow_gt_0 e). apply IZR_le in Hm. nra.
Qed.

Lemma scaled_lt_inv (m n : Z) (e : Z) :
  IZR m * bpow e < IZR n * bpow e -> (m < n)%Z.
Proof.
  intros H. apply lt_IZR. pose proof (bpow_gt_0 e). nra.
Qed.

Lemma scaled_le_inv (m n : Z) (e : Z) :
  IZR m * bpow e <= IZR n * bpow e -> (m <= n)%Z.
Proof.
  intros H. apply le_IZR. pose proof (bpow_gt_0 e). nra.
Qed.

(** [m * 2^e] on a coarser exponent is an integer multiple. *)
Lemma scaled_shift (m e e' : Z) :
  (e' <= e)%Z -> IZR m * bpow e = IZR (m * 2 ^ (e - e')) * bpow e'.
Proof.
  intros He. rewrite mult_IZR, <- bpow_IZR by lia.
  replace e with ((e - e') + e')%Z at 1 by lia.
  rewrite bpow_add. ring.
Qed.

(** ** Binary digits *)

Lemma digits2_pos_bounds (m : positive) :
  (2 ^ (Z.pos (digits2_pos m) - 1) <= Z.pos m < 2 ^ Z.pos (digits2_pos m))%Z.
Proof.
  induction m as [m IH | m IH |]; cbn [digits2_pos].
  - rewrite Pos2Z.inj_succ.
    replace (Z.succ (Z.pos (digits2_pos m)) - 1)%Z with (Z.succ (Z.pos (digits2_pos m) - 1)) by lia.
    rewrite !Z.pow_succ_r by lia. lia.
  - rewrite Pos2Z.inj_succ.
    replace (Z.succ (Z.pos (digits2_pos m)) - 1)%Z with (Z.succ (Z.pos (digits2_pos m) - 1)) by lia.
    rewrite !Z.pow_succ_r by lia. lia.
  - cbn. lia.
Qed.

Lemma Zdigits2_nonneg (m : Z) : (0 <= Zdigits2 m)%Z.
Proof. destruct m; cbn; lia. Qed.

Lemma Zdigits2_bounds (m : Z) :
  (0 < m)%Z -> (2 ^ (Zdigits2 m - 1) <= m < 2 ^ Zdigits2 m)%Z.
Proof.
  destruct m as [| p | p]; try lia. intros _. apply digits2_pos_bounds.
Qed.

(** The digit count from bounds. *)
Lemma Zdigits2_unique (m d : Z) :
  (2 ^ (d - 1) <= m < 2 ^ d)%Z -> (0 < d)%Z -> Zdigits2 m = d.
Proof.
  intros [Hlo Hhi] Hd.
  assert (Hm : (0 < m)%Z) by (pose proof (Z.pow_pos_nonneg 2 (d - 1)); lia).
  destruct (Zdigits2_bounds m Hm) as [Hlo' Hhi'].
  pose proof (Zdigits2_nonneg m).
  destruct (Z.lt_trichotomy (Zdigits2 m) d) as [Hlt | [Heq | Hgt]]; [| assumption |].
  - assert (2 ^ Zdigits2 m <= 2 ^ (d - 1))%Z by (apply Z.pow_le_mono_r; lia). lia.
  - assert (2 ^ d <= 2 ^ (Zdigits2 m - 1))%Z by (apply Z.pow_le_mono_r; lia). lia.
Qed.

(** ** The binary64 format and nearest values *)

Lemma prec_53 : prec = 53%Z.
Proof. reflexivity. Qed.

Lemma emax_1024 : emax = 1024%Z.
Proof. reflexivity. Qed.

Lemma fexp_64 (e : Z) : fexp prec emax e = Z.max (e - 53) (-1074).
Proof. reflexivity. Qed.

Lemma InF_0 : InF 0.
Proof. exists 0%Z, 0%Z. repeat split; try lia. lra. Qed.

Lemma InF_opp (u : R) : InF u -> InF (- u).
Proof.
  intros (m & e & -> & Hm & He). exists (- m)%Z, e.
  rewrite opp_IZR. repeat split; try lia. ring.
Qed.

(** Between two neighbours of the grid of exponent [e1] there is no number
    of the format, when [m1] is normal or [e1] is the least exponent. *)
Lemma format_gap (m1 e1 : Z) (g : R) :
  (0 <= m1)%Z -> (-1074 <= e1)%Z -> (2 ^ 52 <= m1 \/ e1 = -1074)%Z ->
  InF g ->
  g <= IZR m1 * bpow e1 \/ (IZR m1 + 1) * bpow e1 <= g.
Proof.
  intros Hm1 He1 Hnorm (k & e & -> & Hk & He).
  pose proof (bpow_gt_0 e1) as Hb.
  destruct (Z_le_gt_dec e1 e) as [Hge | Hlt].
  - rewrite (scaled_shift k e e1) by assumption.
    set (K := (k * 2 ^ (e - e1))%Z).
    destruct (Z_le_gt_dec K m1) as [HK | HK].
    + left. apply IZR_le in HK. nra.
    + right. assert (HK' : (m1 + 1 <= K)%Z) by lia.
      apply IZR_le in HK'. rewrite plus_IZR in HK'. nra.
  - left. destruct Hnorm as [Hnorm | ->]; [| lia].
    assert (H1 : IZR k * bpow e < bpow (53 + e)) by (apply scaled_lt_bpow; lia).
    assert (H2 : bpow (53 + e) <= bpow (52 + e1)) by (apply bpow_le; lia).
    assert (H3 : bpow (52 + e1) <= IZR m1 * bpow e1) by (apply scaled_ge_bpow; lia).
    lra.
Qed.

Lemma nearest_opp (x u : R) : nearest x u -> nearest (- x) (- u).
Proof.
  intros [Hu Hnear]. split; [now apply InF_opp |].
  intros g Hg. specialize (Hnear (- g) (InF_opp g Hg)).
  replace (- u - - x) with (- (u - x)) by ring.
  replace (g - - x) with (- (- g - x)) by ring.
  now rewrite !Rabs_Ropp.
Qed.

(** Rounding to nearest is monotone. *)
Lemma nearest_mono (x1 x2 u1 u2 : R) :
  nearest x1 u1 -> nearest x2 u2 -> x1 < x2 -> u1 <= u2.
Proof.
  intros [Hu1 H1] [Hu2 H2] Hlt.
  specialize (H1 u2 Hu2). specialize (H2 u1 Hu1).
  destruct (Rle_or_lt u1 u2) as [Hle | Hgt]; [assumption |].
  unfold Rabs in H1, H2.
  destruct (Rcase_abs (u1 - x1)), (Rcase_abs (u2 - x1)),
           (Rcase_abs (u2 - x2)), (Rcase_abs (u1 - x2)); lra.
Qed.

(** A number of the format bounds what its side of the line rounds to. *)
Lemma nearest_le (x u g : R) : nearest x u -> InF g -> x <= g -> u <= g.
Proof.
  intros [Hu H] Hg Hxg. specialize (H g Hg).
  unfold Rabs in H. destruct (Rcase_abs (u - x)), (Rcase_abs (g - x)); lra.
Qed.

Lemma nearest_ge (x u g : R) : nearest x u -> InF g -> g <= x -> g <= u.
Proof.
  intros [Hu H] Hg Hxg. specialize (H g Hg).
  unfold Rabs in H. destruct (Rcase_abs (u - x)), (Rcase_abs (g - x)); lra.
Qed.

Lemma nearest_exact (x : R) : InF x -> nearest x x.
Proof.
  intros Hx. split; [assumption |]. intros g _.
  replace (x - x) with 0 by ring. rewrite Rabs_R0. apply Rabs_pos.
Qed.

Lemma nearest_of_exact (x u : R) : InF x -> nearest x u -> u = x.
Proof.
  intros Hx Hu. apply Rle_antisym.
  - apply (nearest_le x u x Hu Hx). lra.
  - apply (nearest_ge x u x Hu Hx). lra.
Qed.

(** ** Locations and right shifts *)

Lemma inbetween_bounds (m e : Z) (l : location) (x : R) :
  inbetween m e l x -> IZR m * bpow e <= x < (IZR m + 1) * bpow e.
Proof.
  pose proof (bpow_gt_0 e).
  destruct l as [| []]; cbn [inbetween]; intros Hx; nra.
Qed.

Lemma shr_1_inbetween (mrs : shr_record) (e : Z) (x : R) :
  (0 <= shr_m mrs)%Z ->
  inbetween (shr_m mrs) e (loc_of_shr_record mrs) x ->
  (0 <= shr_m (shr_1 mrs))%Z
  /\ inbetween (shr_m (shr_1 mrs)) (e + 1) (loc_of_shr_record (shr_1 mrs)) x.
Proof.
  destruct mrs as [m r s]. cbn [shr_m]. intros Hm.
  pose proof (bpow_gt_0 e) as Hy.
  destruct m as [| [p | p |] | p]; try lia;
    destruct r, s; cbn [inbetween loc_of_shr_record shr_1 shr_m orb];
    rewrite ?bpow_succ, ?(IZR_POS_xO p), ?(IZR_POS_xI p); intros Hx;
    (split; [lia | lra]).
Qed.

Lemma iter_pos_nat {A : Type} (f : A -> A) (p : positive) (x : A) :
  SpecFloat.iter_pos f p x = Nat.iter (Pos.to_nat p) f x.
Proof.
  revert x. induction p as [p IH | p IH |]; intros x; cbn [SpecFloat.iter_pos].
  - rewrite !IH, Pos2Nat.inj_xI.
    replace (S (2 * Pos.to_nat p)) with (Pos.to_nat p + S (Pos.to_nat p))%nat by lia.
    now rewrite Nat.iter_add, Nat.iter_succ_r.
  - rewrite !IH, Pos2Nat.inj_xO.
    replace (2 * Pos.to_nat p)%nat with (Pos.to_nat p + Pos.to_nat p)%nat by lia.
    now rewrite Nat.iter_add.
  - reflexivity.
Qed.

Lemma shr_iter_inbetween (n : nat) (mrs : shr_record) (e : Z) (x : R) :
  (0 <= shr_m mrs)%Z ->
  inbetween (shr_m mrs) e (loc_of_shr_record mrs) x ->
  (0 <= shr_m (Nat.iter n shr_1 mrs))%Z
  /\ inbetween (shr_m (Nat.iter n shr_1 mrs)) (e + Z.of_nat n)
       (loc_of_shr_record (Nat.iter n shr_1 mrs)) x.
Proof.
  intros Hm Hx. induction n as [| n [IHm IHx]].
  - cbn [Nat.iter]. now replace (e + Z.of_nat 0)%Z with e by lia.
  - cbn [Nat.iter].
    replace (e + Z.of_nat (S n))%Z with (e + Z.of_nat n + 1)%Z by lia.
    now apply shr_1_inbetween.
Qed.

Lemma shr_record_of_loc_m (m : Z) (l : location) : shr_m (shr_record_of_loc m l) = m.
Proof. now destruct l as [| []]. Qed.

Lemma loc_of_shr_record_of_loc (m : Z) (l : location) :
  loc_of_shr_record (shr_record_of_loc m l) = l.
Proof. now destruct l as [| []]. Qed.

(** [shr] by [n] keeps the location of [x], [n] exponents higher. *)
Lemma shr_inbetween (m e n : Z) (l : location) (x : R) :
  (0 <= m)%Z -> inbetween m e l x ->
  (0 <= shr_m (fst (shr (shr_record_of_loc m l) e n)))%Z
  /\ snd (shr (shr_record_of_loc m l) e n) = (e + Z.max 0 n)%Z
  /\ inbetween (shr_m (fst (shr (shr_record_of_loc m l) e n)))
       (e + Z.max 0 n) (loc_of_shr_record (fst (shr (shr_record_of_loc m l) e n))) x.
Proof.
  intros Hm Hx.
  destruct n as [| p | p]; cbn [shr fst snd].
  - rewrite shr_record_of_loc_m, loc_of_shr_record_of_loc.
    replace (e + Z.max 0 0)%Z with e by lia. repeat split; auto.
  - rewrite iter_pos_nat.
    replace (e + Z.max 0 (Z.pos p))%Z with (e + Z.of_nat (Pos.to_nat p))%Z
      by (rewrite positive_nat_Z; lia).
    destruct (shr_iter_inbetween (Pos.to_nat p) (shr_record_of_loc m l) e x) as [H1 H2].
    + now rewrite shr_record_of_loc_m.
    + now rewrite shr_record_of_loc_m, loc_of_shr_record_of_loc.
    + repeat split; auto. rewrite positive_nat_Z. lia.
  - rewrite shr_record_of_loc_m, loc_of_shr_record_of_loc.
    replace (e + Z.max 0 (Z.neg p))%Z with e by lia. repeat split; auto.
Qed.

(** ** Truncation to the working precision *)

Lemma succ_le_pow_digits (m : Z) : (0 <= m)%Z -> (m + 1 <= 2 ^ Zdigits2 m)%Z.
Proof.
  intros Hm. destruct (Z.eq_dec m 0) as [-> | Hne]; [cbn; lia |].
  pose proof (Zdigits2_bounds m ltac:(lia)). lia.
Qed.

Lemma shr_fexp_spec (m e : Z) (l : location) (x : R) :
  (0 <= m)%Z -> inbetween m e l x -> enough_digits m e ->
  (0 <= shr_m (fst (shr_fexp prec emax m e l)) < 2 ^ 53)%Z
  /\ (-1074 <= snd (shr_fexp prec emax m e l))%Z
  /\ (2 ^ 52 <= shr_m (fst (shr_fexp prec emax m e l))
      \/ snd (shr_fexp prec emax m e l) = -1074)%Z
  /\ inbetween (shr_m (fst (shr_fexp prec emax m e l))) (snd (shr_fexp prec emax m e l))
       (loc_of_shr_record (fst (shr_fexp prec emax m e l))) x.
Proof.
  intros Hm Hx Hdig. unfold shr_fexp. rewrite fexp_64.
  set (d := Zdigits2 m) in *.
  set (E := Z.max (d + e - 53) (-1074)).
  destruct (shr_inbetween m e (E - e) l x Hm Hx) as (Hm' & He' & Hx').
  set (mrs := fst (shr (shr_record_of_loc m l) e (E - e))) in *.
  rewrite He'. clearbody mrs.
  assert (Hd : (0 <= d)%Z) by apply Zdigits2_nonneg.
  assert (HE : (e + Z.max 0 (E - e))%Z = E) by (unfold enough_digits in Hdig; fold d in Hdig; lia).
  rewrite HE in *.
  pose proof (inbetween_bounds _ _ _ _ Hx) as [Hlo Hhi].
  pose proof (inbetween_bounds _ _ _ _ Hx') as [Hlo' Hhi'].
  pose proof (bpow_gt_0 e) as Hbe. pose proof (bpow_gt_0 E) as HbE.
  assert (Hxd : x < bpow (d + e)).
  { pose proof (succ_le_pow_digits m Hm) as Hs. fold d in Hs.
    apply IZR_le in Hs. rewrite plus_IZR in Hs.
    rewrite bpow_add, (bpow_IZR d) by assumption. nra. }
  repeat split; try assumption; try lia.
  - apply (scaled_lt_inv _ _ E).
    rewrite <- bpow_IZR, <- bpow_add by lia.
    assert (bpow (d + e) <= bpow (53 + E)) by (apply bpow_le; lia). lra.
  - destruct (Z.eq_dec E (-1074)) as [HEmin | HEnorm]; [now right | left].
    assert (Hmpos : (0 < m)%Z).
    { destruct (Z.eq_dec m 0) as [Hm0 | ?]; [| lia].
      unfold enough_digits in Hdig. subst m. cbn in d. lia. }
    pose proof (Zdigits2_bounds m Hmpos) as [Hlow _]. fold d in Hlow.
    assert (Hx52 : bpow (52 + E) <= x).
    { replace (52 + E)%Z with ((d - 1) + e)%Z by lia.
      assert (bpow (d - 1 + e) <= IZR m * bpow e) by (apply scaled_ge_bpow; lia). lra. }
    rewrite bpow_add, (bpow_IZR 52) in Hx52 by lia.
    assert (Hlt : IZR (2 ^ 52) * bpow E < IZR (shr_m mrs + 1) * bpow E)
      by (rewrite plus_IZR; lra).
    apply scaled_lt_inv in Hlt. lia.
Qed.

(** ** Rounding *)

Lemma InF_scaled (m e : Z) :
  (0 <= m <= 2 ^ 53)%Z -> (-1074 <= e)%Z -> InF (IZR m * bpow e).
Proof.
  intros Hm He. destruct (Z.eq_dec m (2 ^ 53)) as [-> | Hne].
  - exists (2 ^ 52)%Z, (e + 1)%Z. repeat split; try lia.
    rewrite bpow_succ. change (2 ^ 53)%Z with (2 * 2 ^ 52)%Z. rewrite mult_IZR. ring.
  - exists m, e. repeat split; try lia.
Qed.

Lemma round_nearest_even_cases (m : Z) (l : location) :
  round_nearest_even m l = m \/ round_nearest_even m l = (m + 1)%Z.
Proof.
  destruct l as [| []]; cbn [round_nearest_even]; auto.
  destruct (Z.even m); auto.
Qed.

(** The neighbour that [round_nearest_even] picks is nearest to [x]. *)
Lemma round_nearest_even_nearest (m e : Z) (l : location) (x : R) :
  (0 <= m < 2 ^ 53)%Z -> (-1074 <= e)%Z -> (2 ^ 52 <= m \/ e = -1074)%Z ->
  inbetween m e l x ->
  nearest x (IZR (round_nearest_even m l) * bpow e).
Proof.
  intros Hm He Hnorm Hx.
  split.
  - apply InF_scaled; [| assumption].
    destruct (round_nearest_even_cases m l) as [-> | ->]; lia.
  - intros g Hg.
    destruct (format_gap m e g ltac:(lia) He Hnorm Hg) as [Hg' | Hg'];
      pose proof (bpow_gt_0 e) as Hb;
      destruct l as [| []]; cbn [round_nearest_even inbetween] in *;
      try destruct (Z.even m); rewrite ?plus_IZR;
      unfold Rabs;
      destruct (Rcase_abs _), (Rcase_abs _); lra.
Qed.

Lemma cond_Zopp_R (s : bool) (m : Z) :
  IZR (cond_Zopp s m) = if s then - IZR m else IZR m.
Proof. destruct s; cbn [cond_Zopp]; [apply opp_IZR | reflexivity]. Qed.

Theorem binary_round_aux_rounds (sx : bool) (mx ex : Z) (lx : location) (x : R) :
  (0 <= mx)%Z -> inbetween mx ex lx x -> enough_digits mx ex ->
  rounds (if sx then - x else x) (binary_round_aux prec emax sx mx ex lx).
Proof.
  intros Hmx Hx Hdig.
  pose proof (shr_fexp_spec mx ex lx x Hmx Hx Hdig) as (Hm1 & He1 & Hn1 & Hx1).
  unfold binary_round_aux.
  destruct (shr_fexp prec emax mx ex lx) as [mrs1 e1]. cbn [fst snd] in *.
  set (m1 := shr_m mrs1) in *. set (l1 := loc_of_shr_record mrs1) in *.
  pose proof (round_nearest_even_nearest m1 e1 l1 x Hm1 He1 Hn1 Hx1) as Hnear.
  set (m2 := round_nearest_even m1 l1) in *.
  assert (Hm2 : (m1 <= m2 <= m1 + 1)%Z)
    by (subst m2; destruct (round_nearest_even_cases m1 l1) as [-> | ->]; lia).
  set (u := IZR m2 * bpow e1) in *.
  assert (Hdig2 : enough_digits m2 e1).
  { destruct Hn1 as [Hn1 | Hn1]; [left | right; lia].
    pose proof (Zdigits2_bounds m2 ltac:(lia)) as [_ Hhi].
    destruct (Z_lt_le_dec (Zdigits2 m2) 53) as [Hlt | ?]; [| assumption].
    assert (2 ^ Zdigits2 m2 <= 2 ^ 52)%Z
      by (apply Z.pow_le_mono_r; pose proof (Zdigits2_nonneg m2); lia).
    lia. }
  pose proof (shr_fexp_spec m2 e1 loc_Exact u ltac:(lia) eq_refl Hdig2)
    as (Hm3 & He3 & Hn3 & Hx3).
  destruct (shr_fexp prec emax m2 e1 loc_Exact) as [mrs3 e3]. cbn [fst snd] in *.
  set (m3 := shr_m mrs3) in *.
  assert (Hu : u = IZR m3 * bpow e3).
  { pose proof (inbetween_bounds _ _ _ _ Hx3) as [Hlo Hhi].
    destruct (format_gap m3 e3 u ltac:(lia) He3 Hn3 (proj1 Hnear)); lra. }
  assert (Hsigned : nearest (if sx then - x else x) (if sx then - u else u))
    by (destruct sx; [now apply nearest_opp | assumption]).
  destruct m3 as [| p | p] eqn:Hp; [| | lia].
  - split; [reflexivity |].
    exists (if sx then - u else u). split; [assumption |].
    cbn [B2R]. rewrite Hu. destruct sx; ring.
  - change (emax - prec)%Z with 971%Z.
    destruct (Z.leb_spec e3 971) as [Hfin | Hinf].
    + split.
      * unfold SpecFloat.valid_binary, SpecFloat.bounded, SpecFloat.canonical_mantissa.
        rewrite fexp_64. change (emax - prec)%Z with 971%Z.
        apply andb_true_intro. split; [apply Z.eqb_eq | now apply Z.leb_le].
        change (Z.pos (digits2_pos p)) with (Zdigits2 (Z.pos p)).
        destruct Hn3 as [Hn3 | Hn3].
        -- rewrite (Zdigits2_unique (Z.pos p) 53) by lia. lia.
        -- pose proof (Zdigits2_bounds (Z.pos p) ltac:(lia)) as [Hlo _].
           pose proof (Zdigits2_nonneg (Z.pos p)).
           destruct (Z_lt_le_dec 53 (Zdigits2 (Z.pos p))) as [Hbig | ?]; [| lia].
           assert (2 ^ 53 <= 2 ^ (Zdigits2 (Z.pos p) - 1))%Z
             by (apply Z.pow_le_mono_r; lia).
           lia.
      * exists (if sx then - u else u). split; [assumption |].
        cbn [B2R]. rewrite cond_Zopp_R, Hu. destruct sx; ring.
    + split; [reflexivity |].
      exists (if sx then - u else u). split; [assumption |].
      assert (bpow 1024 <= u).
      { rewrite Hu. destruct Hn3 as [Hn3 | Hn3]; [| lia].
        assert (bpow (52 + e3) <= IZR (Z.pos p) * bpow e3) by (apply scaled_ge_bpow; lia).
        assert (bpow 1024 <= bpow (52 + e3)) by (apply bpow_le; lia). lra. }
      destruct sx; lra.
Qed.

(** ** Valid numbers and their order *)

Lemma valid_finite_bounds (s : bool) (m : positive) (e : Z) :
  valid_binary (S754_finite s m e) = true ->
  (Z.pos m < 2 ^ 53 /\ -1074 <= e <= 971 /\ (2 ^ 52 <= Z.pos m \/ e = -1074))%Z.
Proof.
  unfold SpecFloat.valid_binary, SpecFloat.bounded, SpecFloat.canonical_mantissa.
  rewrite fexp_64. change (emax - prec)%Z with 971%Z.
  intros H. apply andb_prop in H as [Hc He].
  apply Z.eqb_eq in Hc. apply Z.leb_le in He.
  change (Z.pos (digits2_pos m)) with (Zdigits2 (Z.pos m)) in Hc.
  pose proof (Zdigits2_bounds (Z.pos m) ltac:(lia)) as [Hlo Hhi].
  pose proof (Zdigits2_nonneg (Z.pos m)) as Hd.
  assert (Hd53 : (Zdigits2 (Z.pos m) <= 53)%Z) by lia.
  assert (2 ^ Zdigits2 (Z.pos m) <= 2 ^ 53)%Z by (apply Z.pow_le_mono_r; lia).
  repeat split; try lia.
  destruct (Z.eq_dec e (-1074)) as [? | Hne]; [now right | left].
  replace (Zdigits2 (Z.pos m)) with 53%Z in Hlo by lia. exact Hlo.
Qed.

Lemma B2R_InF (z : spec_float) : valid_binary z = true -> InF (B2R z).
Proof.
  destruct z as [s | s | | s m e]; try (intros _; apply InF_0).
  intros Hv. destruct (valid_finite_bounds s m e Hv) as (Hm & He & _).
  exists (cond_Zopp s (Z.pos m)), e. repeat split; try lia.
  destruct s; cbn [cond_Zopp]; lia.
Qed.

Lemma B2R_lt_emax (z : spec_float) :
  valid_binary z = true -> - bpow 1024 < B2R z < bpow 1024.
Proof.
  pose proof (bpow_gt_0 1024) as Hb.
  destruct z as [s | s | | s m e]; cbn [B2R]; try (intros _; lra).
  intros Hv. destruct (valid_finite_bounds s m e Hv) as (Hm & He & _).
  assert (H1 : IZR (Z.pos m) * bpow e < bpow (53 + e)) by (apply scaled_lt_bpow; lia).
  assert (H2 : bpow (53 + e) <= bpow 1024) by (apply bpow_le; lia).
  assert (H3 : 0 < IZR (Z.pos m) * bpow e).
  { apply Rmult_lt_0_compat; [apply IZR_lt; lia | apply bpow_gt_0]. }
  rewrite cond_Zopp_R. destruct s; lra.
Qed.

(** Valid magnitudes compare as their exponents, then their mantissas. *)
Lemma magnitude_lt (m1 m2 : positive) (e1 e2 : Z) :
  valid_binary (S754_finite false m1 e1) = true ->
  valid_binary (S754_finite false m2 e2) = true ->
  (e1 < e2)%Z ->
  IZR (Z.pos m1) * bpow e1 < IZR (Z.pos m2) * bpow e2.
Proof.
  intros H1 H2 He.
  destruct (valid_finite_bounds _ _ _ H1) as (Hm1 & He1 & _).
  destruct (valid_finite_bounds _ _ _ H2) as (Hm2 & He2 & Hn2).
  assert (IZR (Z.pos m1) * bpow e1 < bpow (53 + e1)) by (apply scaled_lt_bpow; lia).
  assert (bpow (53 + e1) <= bpow (52 + e2)) by (apply bpow_le; lia).
  assert (bpow (52 + e2) <= IZR (Z.pos m2) * bpow e2) by (apply scaled_ge_bpow; lia).
  lra.
Qed.

Lemma valid_sign_irrelevant (s s' : bool) (m : positive) (e : Z) :
  valid_binary (S754_finite s m e) = valid_binary (S754_finite s' m e).
Proof. reflexivity. Qed.

(** On valid finite numbers [SFcompare] is the order of the reals. *)
Lemma SFcompare_R (x y : spec_float) :
  valid_binary x = true -> valid_binary y = true ->
  is_finite_SF x = true -> is_finite_SF y = true ->
  match SFcompare x y with
  | Some Lt => B2R x < B2R y
  | Some Eq => B2R x = B2R y
  | Some Gt => B2R y < B2R x
  | None => False
  end.
Proof.
  destruct x as [sx | sx | | sx mx ex], y as [sy | sy | | sy my ey];
    try discriminate; intros Hvx Hvy _ _; cbn [SFcompare B2R].
  - reflexivity.
  - assert (0 < IZR (Z.pos my) * bpow ey)
      by (apply Rmult_lt_0_compat; [apply IZR_lt; lia | apply bpow_gt_0]).
    rewrite cond_Zopp_R. destruct sy; lra.
  - assert (0 < IZR (Z.pos mx) * bpow ex)
      by (apply Rmult_lt_0_compat; [apply IZR_lt; lia | apply bpow_gt_0]).
    rewrite cond_Zopp_R. destruct sx; lra.
  - assert (Hx : 0 < IZR (Z.pos mx) * bpow ex)
      by (apply Rmult_lt_0_compat; [apply IZR_lt; lia | apply bpow_gt_0]).
    assert (Hy : 0 < IZR (Z.pos my) * bpow ey)
      by (apply Rmult_lt_0_compat; [apply IZR_lt; lia | apply bpow_gt_0]).
    rewrite (valid_sign_irrelevant sx false) in Hvx.
    rewrite (valid_sign_irrelevant sy false) in Hvy.
    rewrite !cond_Zopp_R.
    assert (Hlex :
      match Z.compare ex ey with
      | Lt => IZR (Z.pos mx) * bpow ex < IZR (Z.pos my) * bpow ey
      | Gt => IZR (Z.pos my) * bpow ey < IZR (Z.pos mx) * bpow ex
      | Eq => match Pos.compare_cont Eq mx my with
              | Lt => IZR (Z.pos mx) * bpow ex < IZR (Z.pos my) * bpow ey
              | Gt => IZR (Z.pos my) * bpow ey < IZR (Z.pos mx) * bpow ex
              | Eq => IZR (Z.pos mx) * bpow ex = IZR (Z.pos my) * bpow ey
              end
      end).
    { destruct (Z.compare_spec ex ey) as [He | He | He].
      - subst ey. change (Pos.compare_cont Eq mx my) with (Pos.compare mx my).
        pose proof (bpow_gt_0 ex).
        destruct (Pos.compare_spec mx my) as [Hm | Hm | Hm].
        + now subst my.
        + apply Rmult_lt_compat_r; [assumption | apply IZR_lt; lia].
        + apply Rmult_lt_compat_r; [assumption | apply IZR_lt; lia].
      - now apply magnitude_lt.
      - now apply magnitude_lt. }
    destruct sx, sy; try lra;
      destruct (ex ?= ey)%Z; try lra;
      destruct (Pos.compare_cont Eq mx my); cbn [CompOpp]; lra.
Qed.

Lemma SFleb_R (x y : spec_float) :
  valid_binary x = true -> valid_binary y = true ->
  is_finite_SF x = true -> is_finite_SF y = true ->
  (SFleb x y = true <-> B2R x <= B2R y).
Proof.
  intros Hvx Hvy Hfx Hfy. pose proof (SFcompare_R x y Hvx Hvy Hfx Hfy) as H.
  unfold SFleb. destruct (SFcompare x y) as [[] |]; try contradiction;
    split; intros; try lra; try reflexivity; try discriminate.
Qed.

Lemma SFltb_R (x y : spec_float) :
  valid_binary x = true -> valid_binary y = true ->
  is_finite_SF x = true -> is_finite_SF y = true ->
  (SFltb x y = true <-> B2R x < B2R y).
Proof.
  intros Hvx Hvy Hfx Hfy. pose proof (SFcompare_R x y Hvx Hvy Hfx Hfy) as H.
  unfold SFltb. destruct (SFcompare x y) as [[] |]; try contradiction;
    split; intros; try lra; try reflexivity; try discriminate.
Qed.

Lemma SFeqb_R (x y : spec_float) :
  valid_binary x = true -> valid_binary y = true ->
  is_finite_SF x = true -> is_finite_SF y = true ->
  (SFeqb x y = true <-> B2R x = B2R y).
Proof.
  intros Hvx Hvy Hfx Hfy. pose proof (SFcompare_R x y Hvx Hvy Hfx Hfy) as H.
  unfold SFeqb. destruct (SFcompare x y) as [[] |]; try contradiction;
    split; intros; try lra; try reflexivity; try discriminate.
Qed.

(** ** Normalisation *)

Lemma rounds_exact (z : spec_float) :
  valid_binary z = true -> is_finite_SF z = true -> rounds (B2R z) z.
Proof.
  intros Hv Hf. split; [assumption |].
  exists (B2R z). split; [apply nearest_exact; now apply B2R_InF |].
  destruct z; try discriminate; reflexivity.
Qed.

Lemma rounds_zero (s : bool) : rounds 0 (S754_zero s).
Proof. apply (rounds_exact (S754_zero s)); reflexivity. Qed.

Lemma iter_xO_pow (m d : positive) :
  Z.pos (Pos.iter xO m d) = (Z.pos m * 2 ^ Z.pos d)%Z.
Proof.
  induction d as [| d IH] using Pos.peano_ind.
  - cbn [Pos.iter]. lia.
  - rewrite Pos.iter_succ, Pos2Z.inj_xO, IH, Pos2Z.inj_succ, Z.pow_succ_r by lia. lia.
Qed.

Lemma Zdigits2_ge_53 (m : Z) : (2 ^ 52 <= m)%Z -> (53 <= Zdigits2 m)%Z.
Proof.
  intros Hm. pose proof (Zdigits2_bounds m ltac:(lia)) as [_ Hhi].
  pose proof (Zdigits2_nonneg m).
  destruct (Z_lt_le_dec (Zdigits2 m) 53) as [Hlt | ?]; [| assumption].
  assert (2 ^ Zdigits2 m <= 2 ^ 52)%Z by (apply Z.pow_le_mono_r; lia). lia.
Qed.

Lemma Zdigits2_shift (m k : Z) :
  (0 < m)%Z -> (0 <= k)%Z -> Zdigits2 (m * 2 ^ k) = (Zdigits2 m + k)%Z.
Proof.
  intros Hm Hk. pose proof (Zdigits2_bounds m Hm) as [Hlo Hhi].
  pose proof (Zdigits2_nonneg m) as Hd.
  assert (Hd1 : (1 <= Zdigits2 m)%Z).
  { destruct (Z.eq_dec (Zdigits2 m) 0) as [H0 | ?]; [| lia]. rewrite H0 in Hhi. lia. }
  pose proof (Z.pow_pos_nonneg 2 k ltac:(lia) Hk) as Hpk.
  apply Zdigits2_unique; [| lia].
  replace (Zdigits2 m + k - 1)%Z with ((Zdigits2 m - 1) + k)%Z by lia.
  rewrite !Z.pow_add_r by lia. nia.
Qed.

(** [shl_align] keeps the value and does not raise the exponent. *)
Lemma shl_align_spec (mx : positive) (ex ex' : Z) :
  exists k : Z,
    (0 <= k)%Z
    /\ Z.pos (fst (shl_align mx ex ex')) = (Z.pos mx * 2 ^ k)%Z
    /\ snd (shl_align mx ex ex') = (ex - k)%Z
    /\ (snd (shl_align mx ex ex') = Z.min ex ex')%Z.
Proof.
  unfold shl_align. destruct (ex' - ex)%Z as [| d | d] eqn:Hd; cbn [fst snd].
  - exists 0%Z. repeat split; lia.
  - exists 0%Z. repeat split; lia.
  - exists (Z.pos d). rewrite iter_xO_pow. repeat split; lia.
Qed.

Lemma shl_align_value (mx : positive) (ex ex' : Z) :
  IZR (Z.pos (fst (shl_align mx ex ex'))) * bpow (snd (shl_align mx ex ex'))
  = IZR (Z.pos mx) * bpow ex.
Proof.
  destruct (shl_align_spec mx ex ex') as (k & Hk & Hm & He & _).
  rewrite Hm, He. symmetry. replace (2 ^ k)%Z with (2 ^ (ex - (ex - k)))%Z by (f_equal; lia).
  apply scaled_shift. lia.
Qed.

Lemma binary_round_rounds (sx : bool) (mx : positive) (ex : Z) :
  rounds (IZR (cond_Zopp sx (Z.pos mx)) * bpow ex) (binary_round prec emax sx mx ex).
Proof.
  unfold binary_round. rewrite fexp_64.
  change (Z.pos (digits2_pos mx)) with (Zdigits2 (Z.pos mx)).
  set (E := Z.max (Zdigits2 (Z.pos mx) + ex - 53) (-1074)).
  pose proof (shl_align_value mx ex E) as Hval.
  destruct (shl_align_spec mx ex E) as (k & Hk & Hm & He & Hmin).
  destruct (shl_align mx ex E) as [mz ez]. cbn [fst snd] in *.
  replace (IZR (cond_Zopp sx (Z.pos mx)) * bpow ex)
    with (if sx then - (IZR (Z.pos mz) * bpow ez) else IZR (Z.pos mz) * bpow ez)
    by (rewrite Hval, cond_Zopp_R; destruct sx; ring).
  apply binary_round_aux_rounds; [lia | reflexivity |].
  unfold enough_digits. rewrite Hm, Zdigits2_shift by lia.
  pose proof (Zdigits2_nonneg (Z.pos mx)). lia.
Qed.

Lemma binary_normalize_rounds (m e : Z) (szero : bool) :
  rounds (IZR m * bpow e) (binary_normalize prec emax m e szero).
Proof.
  destruct m as [| p | p]; cbn [binary_normalize].
  - rewrite Rmult_0_l. apply rounds_zero.
  - apply (binary_round_rounds false).
  - apply (binary_round_rounds true).
Qed.

(** ** The four operations on finite operands *)

Lemma aligned_value (s : bool) (m : positive) (e ez : Z) :
  (ez <= e)%Z ->
  IZR (cond_Zopp s (Z.pos (fst (shl_align m e ez)))) * bpow ez
  = B2R (S754_finite s m e).
Proof.
  intros Hez. pose proof (shl_align_value m e ez) as Hval.
  destruct (shl_align_spec m e ez) as (_ & _ & _ & _ & Hmin).
  replace (snd (shl_align m e ez)) with ez in Hval by lia.
  cbn [B2R]. rewrite !cond_Zopp_R. destruct s; lra.
Qed.

Theorem SFadd_rounds (sx sy : bool) (mx my : positive) (ex ey : Z) :
  rounds (B2R (S754_finite sx mx ex) + B2R (S754_finite sy my ey))
         (SFadd prec emax (S754_finite sx mx ex) (S754_finite sy my ey)).
Proof.
  cbn [SFadd].
  rewrite <- (aligned_value sx mx ex (Z.min ex ey)), <- (aligned_value sy my ey (Z.min ex ey))
    by lia.
  rewrite <- Rmult_plus_distr_r, <- plus_IZR.
  apply binary_normalize_rounds.
Qed.

Theorem SFsub_rounds (sx sy : bool) (mx my : positive) (ex ey : Z) :
  rounds (B2R (S754_finite sx mx ex) - B2R (S754_finite sy my ey))
         (SFsub prec emax (S754_finite sx mx ex) (S754_finite sy my ey)).
Proof.
  cbn [SFsub].
  rewrite <- (aligned_value sx mx ex (Z.min ex ey)), <- (aligned_value sy my ey (Z.min ex ey))
    by lia.
  rewrite <- Rmult_minus_distr_r, <- minus_IZR.
  apply binary_normalize_rounds.
Qed.

Theorem SFmul_rounds (sx sy : bool) (mx my : positive) (ex ey : Z) :
  valid_binary (S754_finite sx mx ex) = true ->
  valid_binary (S754_finite sy my ey) = true ->
  rounds (B2R (S754_finite sx mx ex) * B2R (S754_finite sy my ey))
         (SFmul prec emax (S754_finite sx mx ex) (S754_finite sy my ey)).
Proof.
  intros Hvx Hvy. cbn [SFmul].
  destruct (valid_finite_bounds _ _ _ Hvx) as (_ & _ & Hnx).
  destruct (valid_finite_bounds _ _ _ Hvy) as (_ & _ & Hny).
  replace (B2R (S754_finite sx mx ex) * B2R (S754_finite sy my ey))
    with (if xorb sx sy then - (IZR (Z.pos (mx * my)) * bpow (ex + ey))
          else IZR (Z.pos (mx * my)) * bpow (ex + ey)).
  - apply binary_round_aux_rounds; [lia | reflexivity |].
    unfold enough_digits. rewrite Pos2Z.inj_mul.
    destruct Hnx as [Hnx | Hnx]; [left; apply Zdigits2_ge_53; nia |].
    destruct Hny as [Hny | Hny]; [left; apply Zdigits2_ge_53; nia | right; lia].
  - cbn [B2R]. rewrite !cond_Zopp_R, Pos2Z.inj_mul, mult_IZR, bpow_add.
    destruct sx, sy; cbn [xorb]; ring.
Qed.

(** The location that [new_location] computes for a remainder. *)
Lemma new_location_inbetween (nb k q e : Z) :
  (0 < nb)%Z -> (0 <= k < nb)%Z ->
  inbetween q e (new_location nb k) ((IZR q + IZR k / IZR nb) * bpow e).
Proof.
  intros Hnb Hk. pose proof (bpow_gt_0 e) as Hb.
  assert (HnbR : 0 < IZR nb) by (apply IZR_lt; lia).
  assert (Hfrac : forall c : R, (IZR q + IZR k / IZR nb) * bpow e - (IZR q + c) * bpow e
                               = (IZR k - c * IZR nb) / IZR nb * bpow e)
    by (intros c; field; lra).
  assert (Hsign : forall c : R,
             (IZR k < c * IZR nb -> (IZR q + IZR k / IZR nb) * bpow e < (IZR q + c) * bpow e)
             /\ (c * IZR nb < IZR k -> (IZR q + c) * bpow e < (IZR q + IZR k / IZR nb) * bpow e)
             /\ (IZR k = c * IZR nb -> (IZR q + IZR k / IZR nb) * bpow e = (IZR q + c) * bpow e)).
  { intros c. repeat split; intros Hc.
    - apply Rmult_lt_compat_r; [assumption |]. apply Rplus_lt_compat_l.
      apply Rmult_lt_reg_r with (IZR nb); [assumption |]. field_simplify; lra.
    - apply Rmult_lt_compat_r; [assumption |]. apply Rplus_lt_compat_l.
      apply Rmult_lt_reg_r with (IZR nb); [assumption |]. field_simplify; lra.
    - f_equal. f_equal. rewrite Hc. field. lra. }
  destruct (Hsign 0) as (_ & H0lt & H0eq).
  destruct (Hsign (/ 2)) as (Hhlt & Hhgt & Hheq).
  destruct (Hsign 1) as (H1lt & _ & _).
  assert (Hk1 : IZR k < 1 * IZR nb) by (rewrite Rmult_1_l; apply IZR_lt; lia).
  specialize (H1lt Hk1).
  assert (Hexact : inbetween q e loc_Exact ((IZR q + IZR 0 / IZR nb) * bpow e)).
  { cbn [inbetween]. unfold Rdiv. now rewrite Rmult_0_l, Rplus_0_r. }
  assert (Hhalf : forall c, (2 * k ?= nb)%Z = c ->
            match c with
            | Lt => IZR k < / 2 * IZR nb
            | Eq => IZR k = / 2 * IZR nb
            | Gt => / 2 * IZR nb < IZR k
            end).
  { intros c <-. destruct (Z.compare_spec (2 * k) nb) as [H | H | H].
    - apply (f_equal IZR) in H. rewrite mult_IZR in H. lra.
    - apply IZR_lt in H. rewrite mult_IZR in H. lra.
    - apply IZR_lt in H. rewrite mult_IZR in H. lra. }
  unfold new_location.
  destruct (Z.even nb) eqn:Heven; unfold new_location_even, new_location_odd;
    (destruct (Z.eqb_spec k 0) as [-> | Hk0]; [exact Hexact |]);
    assert (HkR : 0 * IZR nb < IZR k) by (rewrite Rmult_0_l; apply IZR_lt; lia);
    specialize (H0lt HkR); rewrite Rplus_0_r in H0lt.
  - specialize (Hhalf _ eq_refl).
    destruct (2 * k ?= nb)%Z; cbn [inbetween].
    + now apply Hheq.
    + split; [assumption | now apply Hhlt].
    + split; [now apply Hhgt | assumption].
  - assert (Hodd : (2 * k <> nb)%Z).
    { intros <-. rewrite Z.even_mul in Heven. discriminate. }
    destruct (Z.compare_spec (2 * k + 1) nb) as [H | H | H]; cbn [inbetween].
    + split; [assumption | apply Hhlt; apply (Hhalf Lt); apply Z.compare_lt_iff; lia].
    + split; [assumption | apply Hhlt; apply (Hhalf Lt); apply Z.compare_lt_iff; lia].
    + split; [apply Hhgt; apply (Hhalf Gt); apply Z.compare_gt_iff; lia | assumption].
Qed.

Lemma SFdiv_core_spec (m1 m2 : positive) (e1 e2 : Z) :
  (0 <= fst (fst (SFdiv_core_binary prec emax (Z.pos m1) e1 (Z.pos m2) e2)))%Z
  /\ enough_digits (fst (fst (SFdiv_core_binary prec emax (Z.pos m1) e1 (Z.pos m2) e2)))
                   (snd (fst (SFdiv_core_binary prec emax (Z.pos m1) e1 (Z.pos m2) e2)))
  /\ inbetween (fst (fst (SFdiv_core_binary prec emax (Z.pos m1) e1 (Z.pos m2) e2)))
               (snd (fst (SFdiv_core_binary prec emax (Z.pos m1) e1 (Z.pos m2) e2)))
               (snd (SFdiv_core_binary prec emax (Z.pos m1) e1 (Z.pos m2) e2))
               (IZR (Z.pos m1) * bpow e1 / (IZR (Z.pos m2) * bpow e2)).
Proof.
  unfold SFdiv_core_binary. rewrite fexp_64.
  set (d1 := Zdigits2 (Z.pos m1)). set (d2 := Zdigits2 (Z.pos m2)).
  set (E := Z.min (Z.max (d1 + e1 - (d2 + e2) - 53) (-1074)) (e1 - e2)).
  assert (HEle : (E <= e1 - e2)%Z) by (subst E; lia).
  assert (HEdig : (E <= -1074 \/ E <= d1 + e1 - (d2 + e2) - 53)%Z) by (subst E; lia).
  clearbody E.
  set (s := (e1 - e2 - E)%Z).
  assert (Hs : (0 <= s)%Z) by (subst s; lia).
  set (m' := match s with
             | 0%Z => Z.pos m1
             | Z.pos _ => Z.shiftl (Z.pos m1) s
             | Z.neg _ => 0%Z
             end).
  assert (Hm' : m' = (Z.pos m1 * 2 ^ s)%Z).
  { subst m'. destruct s as [| p | p] eqn:Hsp; [lia | | lia].
    now rewrite Z.shiftl_mul_pow2 by lia. }
  pose proof (Z_div_mod m' (Z.pos m2) ltac:(lia)) as Hdiv.
  destruct (Z.div_eucl m' (Z.pos m2)) as [q r]. destruct Hdiv as [Hqr Hr].
  cbn [fst snd].
  pose proof (Z.pow_pos_nonneg 2 s ltac:(lia) Hs) as Hps.
  assert (Hq : (0 <= q)%Z) by nia.
  pose proof (Zdigits2_bounds (Z.pos m1) ltac:(lia)) as [Hlo1 Hhi1]. fold d1 in Hlo1, Hhi1.
  pose proof (Zdigits2_bounds (Z.pos m2) ltac:(lia)) as [Hlo2 Hhi2]. fold d2 in Hlo2, Hhi2.
  pose proof (Zdigits2_nonneg (Z.pos m1)) as Hd1. fold d1 in Hd1.
  pose proof (Zdigits2_nonneg (Z.pos m2)) as Hd2. fold d2 in Hd2.
  assert (Hd1' : (1 <= d1)%Z).
  { destruct (Z.eq_dec d1 0) as [H0 | ?]; [rewrite H0 in Hhi1; lia | lia]. }
  split; [assumption | split].
  - unfold enough_digits.
    destruct (Z_le_gt_dec E (-1074)) as [? | HE]; [now right | left].
    assert (Hs53 : (53 + d2 - d1 <= s)%Z) by (subst s; lia).
    apply Zdigits2_ge_53.
    assert (H1 : (2 ^ 52 * 2 ^ d2 <= m')%Z).
    { rewrite Hm', <- Z.pow_add_r by lia.
      assert (H0 : (2 ^ (52 + d2) <= 2 ^ (d1 - 1 + s))%Z) by (apply Z.pow_le_mono_r; lia).
      rewrite (Z.pow_add_r 2 (d1 - 1) s) in H0 by lia.
      apply Z.le_trans with (1 := H0).
      apply Z.mul_le_mono_nonneg_r; lia. }
    pose proof (Z.pow_pos_nonneg 2 52 ltac:(lia) ltac:(lia)).
    nia.
  - replace (IZR (Z.pos m1) * bpow e1 / (IZR (Z.pos m2) * bpow e2))
      with ((IZR q + IZR r / IZR (Z.pos m2)) * bpow E).
    + apply new_location_inbetween; lia.
    + assert (H2 : IZR (Z.pos m2) <> 0) by (apply not_0_IZR; lia).
      pose proof (bpow_gt_0 e2). pose proof (bpow_gt_0 E).
      assert (HmR : IZR m' = IZR (Z.pos m2) * IZR q + IZR r)
        by (rewrite Hqr, plus_IZR, mult_IZR; reflexivity).
      rewrite Hm', mult_IZR, <- bpow_IZR in HmR by assumption.
      replace e1 with (s + E + e2)%Z at 1 by (subst s; lia).
      rewrite !bpow_add.
      field_simplify_eq; [| lra].
      transitivity (bpow E * (IZR (Z.pos m2) * IZR q + IZR r)); [ring |].
      rewrite <- HmR. ring.
Qed.

Theorem SFdiv_rounds (sx sy : bool) (mx my : positive) (ex ey : Z) :
  rounds (B2R (S754_finite sx mx ex) / B2R (S754_finite sy my ey))
         (SFdiv prec emax (S754_finite sx mx ex) (S754_finite sy my ey)).
Proof.
  cbn [SFdiv].
  pose proof (SFdiv_core_spec mx my ex ey) as (Hq & Hdig & Hx).
  destruct (SFdiv_core_binary prec emax (Z.pos mx) ex (Z.pos my) ey) as [[q e'] l].
  cbn [fst snd] in *.
  replace (B2R (S754_finite sx mx ex) / B2R (S754_finite sy my ey))
    with (if xorb sx sy
          then - (IZR (Z.pos mx) * bpow ex / (IZR (Z.pos my) * bpow ey))
          else IZR (Z.pos mx) * bpow ex / (IZR (Z.pos my) * bpow ey)).
  - now apply binary_round_aux_rounds.
  - cbn [B2R]. rewrite !cond_Zopp_R.
    assert (IZR (Z.pos my) <> 0) by (apply not_0_IZR; lia).
    pose proof (bpow_gt_0 ey).
    destruct sx, sy; cbn [xorb]; field; lra.
Qed.

(** ** Rounding and order *)

Lemma SFleb_refl (z : spec_float) : z <> S754_nan -> SFleb z z = true.
Proof.
  destruct z as [s | s | | s m e]; intros Hz; try congruence; unfold SFleb; cbn [SFcompare].
  - reflexivity.
  - now destruct s.
  - rewrite Z.compare_refl.
    change (Pos.compare_cont Eq m m) with (Pos.compare m m). rewrite Pos.compare_refl.
    now destruct s.
Qed.

Lemma rounds_not_nan (x : R) (z : spec_float) : rounds x z -> z <> S754_nan.
Proof. intros (_ & u & _ & Hz) ->. exact Hz. Qed.

(** The rounding of the smaller real is below the rounding of the larger. *)
Lemma rounds_mono (x1 x2 : R) (z1 z2 : spec_float) :
  rounds x1 z1 -> rounds x2 z2 -> x1 < x2 -> SFleb z1 z2 = true.
Proof.
  intros (Hv1 & u1 & Hn1 & Hz1) (Hv2 & u2 & Hn2 & Hz2) Hlt.
  pose proof (nearest_mono x1 x2 u1 u2 Hn1 Hn2 Hlt) as Hu.
  pose proof (B2R_lt_emax z1 Hv1) as Hb1. pose proof (B2R_lt_emax z2 Hv2) as Hb2.
  pose proof (bpow_gt_0 1024) as Hb.
  destruct z1 as [s1 | [] | | s1 m1 e1], z2 as [s2 | [] | | s2 m2 e2];
    try contradiction; try reflexivity;
    try (exfalso; lra);
    try (now destruct s1); try (now destruct s2);
    apply SFleb_R; try reflexivity; try assumption; lra.
Qed.

(** A valid finite number above the real is above its rounding. *)
Lemma rounds_le (x : R) (z g : spec_float) :
  rounds x z -> valid_binary g = true -> is_finite_SF g = true ->
  x <= B2R g -> SFleb z g = true.
Proof.
  intros (Hv & u & Hn & Hz) Hvg Hfg Hx.
  pose proof (nearest_le x u (B2R g) Hn (B2R_InF g Hvg) Hx) as Hu.
  pose proof (B2R_lt_emax g Hvg) as Hbg.
  destruct z as [s | [] | | s m e]; try contradiction.
  - apply SFleb_R; try reflexivity; try assumption. lra.
  - now destruct g.
  - exfalso. lra.
  - apply SFleb_R; try reflexivity; try assumption. lra.
Qed.

Lemma rounds_ge (x : R) (z g : spec_float) :
  rounds x z -> valid_binary g = true -> is_finite_SF g = true ->
  B2R g <= x -> SFleb g z = true.
Proof.
  intros (Hv & u & Hn & Hz) Hvg Hfg Hx.
  pose proof (nearest_ge x u (B2R g) Hn (B2R_InF g Hvg) Hx) as Hu.
  pose proof (B2R_lt_emax g Hvg) as Hbg.
  destruct z as [s | [] | | s m e]; try contradiction.
  - apply SFleb_R; try reflexivity; try assumption. lra.
  - exfalso. lra.
  - now destruct g as [| | | []].
  - apply SFleb_R; try reflexivity; try assumption. lra.
Qed.

(** Valid finite numbers of the same value are the same, up to the sign of
    zero. *)
Lemma B2R_inj (x y : spec_float) :
  valid_binary x = true -> valid_binary y = true ->
  is_finite_SF x = true -> is_finite_SF y = true ->
  B2R x = B2R y ->
  x = y \/ (exists s s', x = S754_zero s /\ y = S754_zero s').
Proof.
  intros Hvx Hvy Hfx Hfy Heq.
  pose proof (SFcompare_R x y Hvx Hvy Hfx Hfy) as Hc.
  destruct x as [sx | sx | | sx mx ex], y as [sy | sy | | sy my ey]; try discriminate.
  - right. now exists sx, sy.
  - exfalso. cbn [SFcompare] in Hc. destruct sy; lra.
  - exfalso. cbn [SFcompare] in Hc. destruct sx; lra.
  - left. cbn [SFcompare] in Hc.
    destruct sx, sy; try lra;
      destruct (Z.compare_spec ex ey) as [He | He | He]; try lra;
      change (Pos.compare_cont Eq mx my) with (Pos.compare mx my) in Hc;
      destruct (Pos.compare_spec mx my) as [Hm | Hm | Hm]; cbn [CompOpp] in Hc;
      try lra; now subst.
Qed.

(** ** Primitive floats *)

Lemma fle_val (x y : float) : finite x -> finite y -> (fle x y <-> val x <= val y).
Proof.
  intros Hx Hy. unfold fle. rewrite FloatAxioms.leb_spec.
  apply SFleb_R; auto using Prim2SF_valid.
Qed.

Lemma flt_val (x y : float) : finite x -> finite y -> (flt x y <-> val x < val y).
Proof.
  intros Hx Hy. unfold flt. rewrite FloatAxioms.ltb_spec.
  apply SFltb_R; auto using Prim2SF_valid.
Qed.

Lemma feq_val (x y : float) :
  finite x -> finite y -> ((x =? y)%float = true <-> val x = val y).
Proof.
  intros Hx Hy. rewrite FloatAxioms.eqb_spec.
  apply SFeqb_R; auto using Prim2SF_valid.
Qed.

Lemma fle_not_nan (x y : float) :
  fle x y -> Prim2SF x <> S754_nan /\ Prim2SF y <> S754_nan.
Proof.
  unfold fle. rewrite FloatAxioms.leb_spec. unfold SFleb.
  destruct (Prim2SF x), (Prim2SF y); cbn [SFcompare]; intros H; split; congruence.
Qed.

Lemma fle_refl (x : float) : Prim2SF x <> S754_nan -> fle x x.
Proof. intros Hx. unfold fle. rewrite FloatAxioms.leb_spec. now apply SFleb_refl. Qed.

(** A float between two finite floats is finite. *)
Lemma finite_between (lo z hi : float) :
  finite lo -> finite hi -> fle lo z -> fle z hi -> finite z.
Proof.
  unfold finite, fle. rewrite !FloatAxioms.leb_spec. unfold SFleb.
  destruct (Prim2SF lo) as [| | |], (Prim2SF hi) as [| | |]; try discriminate;
    destruct (Prim2SF z) as [| [] | |]; cbn [SFcompare is_finite_SF];
    try discriminate; try reflexivity;
    repeat match goal with |- context [if ?b then _ else _] => destruct b end;
    intros; try discriminate; reflexivity.
Qed.

Lemma fle_trans (x y z : float) : fle x y -> fle y z -> fle x z.
Proof.
  intros Hxy Hyz.
  pose proof (fle_not_nan x y Hxy) as [Hx Hy].
  pose proof (fle_not_nan y z Hyz) as [_ Hz].
  pose proof (Prim2SF_valid x) as Hvx. pose proof (Prim2SF_valid y) as Hvy.
  pose proof (Prim2SF_valid z) as Hvz.
  unfold fle in *. rewrite FloatAxioms.leb_spec in *.
  destruct (Prim2SF x) as [sx | [] | | sx mx ex] eqn:Ex; try congruence;
    destruct (Prim2SF z) as [sz | [] | | sz mz ez] eqn:Ez; try congruence;
    try reflexivity; try (now destruct sx); try (now destruct sz);
    destruct (Prim2SF y) as [sy | [] | | sy my ey] eqn:Ey; try congruence;
    try discriminate; try (now destruct sx); try (now destruct sy);
    try (now destruct sz);
    (apply SFleb_R; try reflexivity; try assumption;
     apply SFleb_R in Hxy; try reflexivity; try assumption;
     apply SFleb_R in Hyz; try reflexivity; try assumption; lra).
Qed.

(** ** The operations on finite floats round the exact result *)

Ltac float_cases x :=
  let H := fresh "Hvalid" in
  pose proof (Prim2SF_valid x) as H;
  unfold finite, val in *;
  destruct (Prim2SF x) as [? | ? | | ? ? ?]; try discriminate.

Theorem add_rounds (x y : float) :
  finite x -> finite y -> rounds (val x + val y) (Prim2SF (x + y)).
Proof.
  intros Hx Hy. rewrite add_spec. unfold SF64add.
  float_cases x; float_cases y; cbn [B2R].
  - rewrite Rplus_0_l. cbn [SFadd]. destruct s, s0; apply rounds_zero.
  - rewrite Rplus_0_l. cbn [SFadd]. now apply rounds_exact.
  - rewrite Rplus_0_r. cbn [SFadd]. now apply rounds_exact.
  - apply SFadd_rounds.
Qed.

Theorem sub_rounds (x y : float) :
  finite x -> finite y -> rounds (val x - val y) (Prim2SF (x - y)).
Proof.
  intros Hx Hy. rewrite sub_spec. unfold SF64sub.
  float_cases x; float_cases y; cbn [B2R].
  - rewrite Rminus_0_r. cbn [SFsub]. destruct s, s0; apply rounds_zero.
  - cbn [SFsub].
    replace (0 - IZR (cond_Zopp s0 (Z.pos m)) * bpow e) with (B2R (S754_finite (negb s0) m e))
      by (cbn [B2R]; rewrite !cond_Zopp_R; destruct s0; cbn [negb]; ring).
    now apply rounds_exact.
  - rewrite Rminus_0_r. cbn [SFsub]. now apply rounds_exact.
  - apply SFsub_rounds.
Qed.

Theorem mul_rounds (x y : float) :
  finite x -> finite y -> rounds (val x * val y) (Prim2SF (x * y)).
Proof.
  intros Hx Hy. rewrite mul_spec. unfold SF64mul.
  float_cases x; float_cases y; cbn [B2R].
  - rewrite Rmult_0_l. apply rounds_zero.
  - rewrite Rmult_0_l. apply rounds_zero.
  - rewrite Rmult_0_r. apply rounds_zero.
  - now apply SFmul_rounds.
Qed.

Theorem div_rounds (x y : float) :
  finite x -> finite y -> val y <> 0 -> rounds (val x / val y) (Prim2SF (x / y)).
Proof.
  intros Hx Hy Hy0. rewrite div_spec. unfold SF64div.
  float_cases x; float_cases y; cbn [B2R] in *; try (exfalso; now apply Hy0).
  - unfold Rdiv. rewrite Rmult_0_l. apply rounds_zero.
  - apply SFdiv_rounds.
Qed.

Lemma rounds_fle (r1 r2 : R) (z1 z2 : float) :
  rounds r1 (Prim2SF z1) -> rounds r2 (Prim2SF z2) -> r1 < r2 -> fle z1 z2.
Proof.
  intros H1 H2 Hlt. unfold fle. rewrite FloatAxioms.leb_spec.
  now apply (rounds_mono r1 r2).
Qed.

(** A finite float above the exact result is above the rounded one. *)
Lemma rounds_fle_upper (r : R) (z g : float) :
  rounds r (Prim2SF z) -> finite g -> r <= val g -> fle z g.
Proof.
  intros Hz Hg Hr. unfold fle. rewrite FloatAxioms.leb_spec.
  apply (rounds_le r); auto using Prim2SF_valid.
Qed.

Lemma rounds_fle_lower (r : R) (z g : float) :
  rounds r (Prim2SF z) -> finite g -> val g <= r -> fle g z.
Proof.
  intros Hz Hg Hr. unfold fle. rewrite FloatAxioms.leb_spec.
  apply (rounds_ge r); auto using Prim2SF_valid.
Qed.

(** The exact result between two finite floats: the rounded result is
    finite and between them. *)
Lemma rounds_between (r : R) (z lo hi : float) :
  rounds r (Prim2SF z) -> finite lo -> finite hi -> val lo <= r <= val hi ->
  finite z /\ val lo <= val z <= val hi.
Proof.
  intros Hz Hlo Hhi [Hr1 Hr2].
  pose proof (rounds_fle_lower r z lo Hz Hlo Hr1) as H1.
  pose proof (rounds_fle_upper r z hi Hz Hhi Hr2) as H2.
  assert (Hfin : finite z) by (apply (finite_between lo z hi); assumption).
  split; [assumption |].
  split; [now apply fle_val | now apply fle_val].
Qed.

Lemma val_eq_cases (x y : float) :
  finite x -> finite y -> val x = val y ->
  x = y \/ (exists s s', Prim2SF x = S754_zero s /\ Prim2SF y = S754_zero s').
Proof.
  intros Hx Hy Heq.
  destruct (B2R_inj (Prim2SF x) (Prim2SF y)) as [H | H];
    auto using Prim2SF_valid.
  left. now apply Prim2SF_inj.
Qed.

(** A function of finite floats that rounds a strictly increasing function
    of the reals, and does not see the sign of zero, is monotone. *)
Lemma monotone_rounding (f : float -> float) (F : R -> R) :
  (forall x, finite x -> rounds (F (val x)) (Prim2SF (f x))) ->
  (forall r1 r2, r1 < r2 -> F r1 < F r2) ->
  (forall x y s s', Prim2SF x = S754_zero s -> Prim2SF y = S754_zero s' -> fle (f x) (f y)) ->
  forall x y, finite x -> finite y -> fle x y -> fle (f x) (f y).
Proof.
  intros Hround Hincr Hzero x y Hx Hy Hxy.
  apply fle_val in Hxy; [| assumption | assumption].
  destruct Hxy as [Hlt | Heq].
  - apply (rounds_fle (F (val x)) (F (val y))); auto.
  - destruct (val_eq_cases x y Hx Hy Heq) as [-> | (s & s' & Hsx & Hsy)].
    + apply fle_refl. apply (rounds_not_nan (F (val y))). auto.
    + now apply (Hzero x y s s').
Qed.

Lemma antitone_rounding (f : float -> float) (F : R -> R) :
  (forall x, finite x -> rounds (F (val x)) (Prim2SF (f x))) ->
  (forall r1 r2, r1 < r2 -> F r2 < F r1) ->
  (forall x y s s', Prim2SF x = S754_zero s -> Prim2SF y = S754_zero s' -> fle (f x) (f y)) ->
  forall x y, finite x -> finite y -> fle x y -> fle (f y) (f x).
Proof.
  intros Hround Hdecr Hzero x y Hx Hy Hxy.
  apply fle_val in Hxy; [| assumption | assumption].
  destruct Hxy as [Hlt | Heq].
  - apply (rounds_fle (F (val y)) (F (val x))); auto.
  - destruct (val_eq_cases x y Hx Hy Heq) as [-> | (s & s' & Hsx & Hsy)].
    + apply fle_refl. apply (rounds_not_nan (F (val y))). auto.
    + now apply (Hzero y x s' s).
Qed.

(** ** Monotonicity of the operations *)

Ltac zero_sign_case a :=
  let x := fresh "x" in let y := fresh "y" in
  let s := fresh "s" in let s' := fresh "s'" in
  let Hx := fresh "Hx" in let Hy := fresh "Hy" in
  intros x y s s' Hx Hy; unfold fle;
  rewrite FloatAxioms.leb_spec, ?add_spec, ?sub_spec, ?mul_spec, ?div_spec, Hx, Hy;
  unfold SF64add, SF64sub, SF64mul, SF64div;
  float_cases a; cbn [SFadd SFsub SFmul SFdiv];
  try (exfalso; cbn [B2R] in *; lra);
  repeat match goal with b : bool |- _ => destruct b end;
  try reflexivity; apply SFleb_refl; discriminate.

Lemma add_mono_r (a x y : float) :
  finite a -> finite x -> finite y -> fle x y -> fle (a + x) (a + y).
Proof.
  intros Ha. apply (monotone_rounding (fun x => (a + x)%float) (fun r => val a + r)).
  - intros z Hz. now apply add_rounds.
  - intros r1 r2 Hr. lra.
  - zero_sign_case a.
Qed.

Lemma add_mono_l (a x y : float) :
  finite a -> finite x -> finite y -> fle x y -> fle (x + a) (y + a).
Proof.
  intros Ha. apply (monotone_rounding (fun x => (x + a)%float) (fun r => r + val a)).
  - intros z Hz. now apply add_rounds.
  - intros r1 r2 Hr. lra.
  - zero_sign_case a.
Qed.

Lemma sub_mono_l (a x y : float) :
  finite a -> finite x -> finite y -> fle x y -> fle (x - a) (y - a).
Proof.
  intros Ha. apply (monotone_rounding (fun x => (x - a)%float) (fun r => r - val a)).
  - intros z Hz. now apply sub_rounds.
  - intros r1 r2 Hr. lra.
  - zero_sign_case a.
Qed.

Lemma sub_anti_r (a x y : float) :
  finite a -> finite x -> finite y -> fle x y -> fle (a - y) (a - x).
Proof.
  intros Ha. apply (antitone_rounding (fun x => (a - x)%float) (fun r => val a - r)).
  - intros z Hz. now apply sub_rounds.
  - intros r1 r2 Hr. lra.
  - zero_sign_case a.
Qed.

Lemma mul_mono_l (a x y : float) :
  finite a -> 0 < val a -> finite x -> finite y -> fle x y -> fle (x * a) (y * a).
Proof.
  intros Ha Hpos. apply (monotone_rounding (fun x => (x * a)%float) (fun r => r * val a)).
  - intros z Hz. now apply mul_rounds.
  - intros r1 r2 Hr. nra.
  - zero_sign_case a.
Qed.

Lemma mul_mono_r (a x y : float) :
  finite a -> 0 < val a -> finite x -> finite y -> fle x y -> fle (a * x) (a * y).
Proof.
  intros Ha Hpos. apply (monotone_rounding (fun x => (a * x)%float) (fun r => val a * r)).
  - intros z Hz. now apply mul_rounds.
  - intros r1 r2 Hr. nra.
  - zero_sign_case a.
Qed.

Lemma div_mono_l (a x y : float) :
  finite a -> 0 < val a -> finite x -> finite y -> fle x y -> fle (x / a) (y / a).
Proof.
  intros Ha Hpos. apply (monotone_rounding (fun x => (x / a)%float) (fun r => r / val a)).
  - intros z Hz. apply div_rounds; auto. lra.
  - intros r1 r2 Hr. unfold Rdiv. apply Rmult_lt_compat_r; [now apply Rinv_0_lt_compat | assumption].
  - zero_sign_case a. 
Qed.

End IEEE.

Import Binary64 IEEE.

(** * Ranges of the computed numbers *)

Section FloatBounds.

Local Open Scope R_scope.

Lemma rounds_value (x : R) (z : spec_float) :
  rounds x z -> InF x -> Rabs x < bpow 1024 -> is_finite_SF z = true /\ B2R z = x.
Proof.
  intros [_ (u & Hu & Hz)] Hx Hlt.
  apply (nearest_of_exact x u Hx) in Hu. subst u.
  apply Rabs_def2 in Hlt.
  destruct z as [s | [|] | | s m e]; cbn [is_finite_SF B2R] in *;
    try contradiction; try lra; auto.
Qed.

Lemma of_Z_rounds (z : Z) : rounds (IZR z) (Prim2SF (JS.of_Z z)).
Proof.
  unfold JS.of_Z.
  pose proof (binary_normalize_rounds z 0 false) as H.
  rewrite bpow_0, Rmult_1_r in H.
  rewrite Prim2SF_SF2Prim; [exact H | apply H].
Qed.

Lemma of_Z_value (z : Z) :
  (Z.abs z < 2 ^ 53)%Z -> finite (JS.of_Z z) /\ val (JS.of_Z z) = IZR z.
Proof.
  intros Hz. apply rounds_value.
  - apply of_Z_rounds.
  - exists z, 0%Z. rewrite bpow_0, Rmult_1_r. repeat split; [assumption | lia].
  - rewrite <- abs_IZR.
    apply Rlt_le_trans with (IZR (2 ^ 53)); [now apply IZR_lt |].
    rewrite <- bpow_IZR by lia. apply bpow_le. lia.
Qed.

Lemma of_nat_value (n : nat) :
  (Z.of_nat n < 2 ^ 53)%Z -> finite (JS.of_nat n) /\ val (JS.of_nat n) = INR n.
Proof.
  intros Hn. unfold JS.of_nat. rewrite INR_IZR_INZ.
  apply of_Z_value. lia.
Qed.

Lemma val_zero : val 0%float = 0.
Proof. reflexivity. Qed.

Lemma val_one : val 1%float = 1.
Proof.
  change 1%float with (JS.of_Z 1).
  now destruct (of_Z_value 1) as [_ ->].
Qed.

Lemma val_abs (x : float) : finite x -> finite (abs x) /\ val (abs x) = Rabs (val x).
Proof.
  unfold finite, val. rewrite abs_spec.
  destruct (Prim2SF x) as [s | s | | s m e]; try discriminate; intros _;
    cbn [SFabs is_finite_SF B2R].
  - now rewrite Rabs_R0.
  - split; [reflexivity |].
    pose proof (bpow_gt_0 e) as He.
    assert (Hm : 0 < IZR (Z.pos m)) by (apply IZR_lt; lia).
    destruct s; cbn [cond_Zopp].
    + rewrite opp_IZR. rewrite Rabs_left; [ring | nra].
    + rewrite Rabs_right; [reflexivity | nra].
Qed.

Lemma val_opp (x : float) : finite x -> finite (- x) /\ val (- x) = - val x.
Proof.
  unfold finite, val. rewrite opp_spec.
  destruct (Prim2SF x) as [s | s | | s m e]; try discriminate; intros _;
    cbn [SFopp is_finite_SF B2R].
  - split; [reflexivity | ring].
  - split; [reflexivity |].
    destruct s; cbn [cond_Zopp negb]; rewrite opp_IZR; ring.
Qed.

Lemma abs_between (x h : float) :
  finite h -> fle (- h) x -> fle x h -> fle 0 (abs x) /\ fle (abs x) h.
Proof.
  intros Hh Hlo Hhi.
  destruct (val_opp h Hh) as [Hoh Hvo].
  assert (Hx : finite x) by now apply (finite_between (- h)%float x h).
  destruct (val_abs x Hx) as [Hax Hva].
  apply fle_val in Hlo; [| assumption | assumption].
  apply fle_val in Hhi; [| assumption | assumption].
  rewrite Hvo in Hlo.
  split; apply fle_val; try assumption; try reflexivity; rewrite Hva.
  - rewrite val_zero. apply Rabs_pos.
  - apply Rabs_le. lra.
Qed.

Lemma finite_not_nan (x : float) : finite x -> is_nan x = false.
Proof.
  intros Hx. unfold is_nan.
  replace (x =? x)%float with true; [reflexivity |].
  symmetry. now apply feq_val.
Qed.

Lemma Math_min_right (a b : float) :
  finite a -> finite b -> flt b a -> JS.Math_min a b = b.
Proof.
  intros Ha Hb Hlt. unfold JS.Math_min.
  rewrite (finite_not_nan a Ha), (finite_not_nan b Hb). cbn [orb].
  destruct (a <? b)%float eqn:Hab.
  - apply flt_val in Hlt; [| assumption | assumption].
    apply flt_val in Hab; [| assumption | assumption]. lra.
  - unfold flt in Hlt. now rewrite Hlt.
Qed.

End FloatBounds.

Section SentimentRange.

Local Open Scope R_scope.

Lemma hits_bound (words newsData : list string) :
  (hits words newsData <= length newsData * length words)%nat.
Proof.
  unfold hits. rewrite <- length_prod. apply filter_length_le.
Qed.

Lemma quotient_in_unit_interval (p t : nat) :
  (p <= t)%nat -> (0 < t)%nat -> (Z.of_nat t < 2 ^ 53)%Z ->
  finite (JS.of_nat p / JS.of_nat t)
  /\ 0 <= val (JS.of_nat p / JS.of_nat t) <= 1.
Proof.
  intros Hpt Ht Hbound.
  destruct (of_nat_value p) as [Hfp Hvp]; [lia |].
  destruct (of_nat_value t) as [Hft Hvt]; [lia |].
  assert (Hp : 0 <= INR p) by apply pos_INR.
  assert (Hle : INR p <= INR t) by now apply le_INR.
  assert (Hpos : 0 < INR t) by now apply lt_0_INR.
  rewrite <- val_zero, <- val_one.
  apply (rounds_between (val (JS.of_nat p) / val (JS.of_nat t))).
  - apply div_rounds; auto. rewrite Hvt. lra.
  - reflexivity.
  - reflexivity.
  - rewrite val_zero, val_one, Hvp, Hvt. split.
    + apply Rmult_le_pos; [assumption |]. left. now apply Rinv_0_lt_compat.
    + apply Rmult_le_reg_r with (INR t); [assumption |].
      unfold Rdiv. rewrite Rmult_assoc, Rinv_l by lra. lra.
Qed.

Lemma sentiment_bounds (newsData : list string) :
  (Z.of_nat (length newsData) < 2 ^ 32)%Z ->
  finite (analyzeSentiment newsData)
  /\ 0 <= val (analyzeSentiment newsData) <= 1.
Proof.
  intros Hlen. rewrite analyzeSentiment_hits. unfold sentiment_reference.
  destruct (_ =? 0)%nat eqn:Htotal.
  - split; [reflexivity |].
    rewrite <- val_zero, <- val_one.
    split; apply fle_val; reflexivity.
  - apply Nat.eqb_neq in Htotal.
    pose proof (hits_bound positiveWords newsData) as Hp.
    pose proof (hits_bound negativeWords newsData) as Hn.
    cbn [length positiveWords negativeWords] in Hp, Hn.
    apply quotient_in_unit_interval; lia.
Qed.

(** X14: the sentiment score of a list of fewer than [2^32] snippets (the
    bound of a JavaScript array) is a number between 0 and 1: never [NaN],
    never negative, never above 1. *)
Theorem sentiment_in_unit_interval (newsData : list string) :
  (Z.of_nat (length newsData) < 2 ^ 32)%Z ->
  (0 <=? analyzeSentiment newsData)%float = true
  /\ (analyzeSentiment newsData <=? 1)%float = true.
Proof.
  intros Hlen. destruct (sentiment_bounds newsData Hlen) as (Hfin & Hlo & Hhi).
  split; apply fle_val; try assumption; try reflexivity.
  now rewrite val_one.
Qed.

Lemma sentiment_in_unit_interval_witness :
  (0 <=? analyzeSentiment ["strong rally"; "fear"]%string)%float = true
  /\ (analyzeSentiment ["strong rally"; "fear"]%string <=? 1)%float = true.
Proof. apply sentiment_in_unit_interval. reflexivity. Defined.

End SentimentRange.

Section ConfidenceRange.

Local Open Scope float_scope.

Variable Math_pow : float -> float -> float.

Lemma val_positive (a : float) : finite a -> flt 0 a -> (0 < val a)%R.
Proof.
  intros Ha Hlt. apply flt_val in Hlt; [| reflexivity | assumption].
  now rewrite val_zero in Hlt.
Qed.

Lemma combinedScore_between (t s : float) :
  t = 0.4 \/ t = 0.5 \/ t = 0.6 ->
  finite s -> fle 0 s -> fle s 1 ->
  fle 0.24 (combinedScore t s) /\ fle (combinedScore t s) 0.76.
Proof.
  intros Ht Hs Hlo Hhi. unfold combinedScore.
  assert (H04 : finite 0.4 /\ (0 < val 0.4)%R)
    by (split; [reflexivity | apply val_positive; reflexivity]).
  destruct H04 as [Hf04 Hp04].
  pose proof (mul_mono_l 0.4 0 s Hf04 Hp04 eq_refl Hs Hlo) as H1.
  pose proof (mul_mono_l 0.4 s 1 Hf04 Hp04 Hs eq_refl Hhi) as H2.
  assert (Hfs : finite (s * 0.4))
    by (apply (finite_between (0 * 0.4) (s * 0.4) (1 * 0.4)); auto; reflexivity).
  assert (Hft : finite (t * 0.6)) by (destruct Ht as [-> | [-> | ->]]; reflexivity).
  pose proof (add_mono_r (t * 0.6) (0 * 0.4) (s * 0.4) Hft eq_refl Hfs H1) as H3.
  pose proof (add_mono_r (t * 0.6) (s * 0.4) (1 * 0.4) Hft Hfs eq_refl H2) as H4.
  split.
  - apply fle_trans with (t * 0.6 + 0 * 0.4); [| assumption].
    destruct Ht as [-> | [-> | ->]]; reflexivity.
  - apply fle_trans with (t * 0.6 + 1 * 0.4); [assumption |].
    destruct Ht as [-> | [-> | ->]]; reflexivity.
Qed.

Lemma confidence_of_between (c : float) :
  fle 0.24 c -> fle c 0.76 ->
  fle 0 (confidence_of c) /\ fle (confidence_of c) 0.52.
Proof.
  intros Hlo Hhi. unfold confidence_of, JS.Math_abs.
  assert (Hc : finite c) by (apply (finite_between 0.24 c 0.76); auto; reflexivity).
  pose proof (sub_mono_l 0.5 0.24 c eq_refl eq_refl Hc Hlo) as H1.
  pose proof (sub_mono_l 0.5 c 0.76 eq_refl Hc eq_refl Hhi) as H2.
  destruct (abs_between (c - 0.5) 0.26) as [H3 H4].
  - reflexivity.
  - apply fle_trans with (0.24 - 0.5); [reflexivity | assumption].
  - apply fle_trans with (0.76 - 0.5); [assumption | reflexivity].
  - assert (Ha : finite (abs (c - 0.5)))
      by (apply (finite_between 0 (abs (c - 0.5)) 0.26); auto; reflexivity).
    assert (H2p : finite 2 /\ (0 < val 2)%R)
      by (split; [reflexivity | apply val_positive; reflexivity]).
    destruct H2p as [Hf2 Hp2].
    pose proof (mul_mono_l 2 0 (abs (c - 0.5)) Hf2 Hp2 eq_refl Ha H3) as H5.
    pose proof (mul_mono_l 2 (abs (c - 0.5)) 0.26 Hf2 Hp2 Ha eq_refl H4) as H6.
    assert (He : finite (abs (c - 0.5) * 2))
      by (apply (finite_between (0 * 2) (abs (c - 0.5) * 2) (0.26 * 2)); auto; reflexivity).
    rewrite Math_min_right.
    + split.
      * apply fle_trans with (0 * 2); [reflexivity | assumption].
      * apply fle_trans with (0.26 * 2); [assumption | reflexivity].
    + reflexivity.
    + assumption.
    + apply flt_val; [assumption | reflexivity |].
      apply fle_val in H6; [| assumption | reflexivity].
      assert (H : (val (0.26 * 2) < val 0.95)%R) by (apply flt_val; reflexivity).
      lra.
Qed.

(** X15: for every strategy, bar sequence and list of fewer than [2^32]
    snippets, [analyzeMarket] returns a signal whose confidence is between
    0 and 0.52: the cap [Math.min(0.95, ...)] never binds, and no signal
    reaches a confidence of 0.6. *)
Theorem confidence_range (strategy : Strategy) (marketData : list MarketData)
    (newsData : list string) (random : float) :
  (Z.of_nat (length newsData) < 2 ^ 32)%Z ->
  exists signal : AISignal,
    analyzeMarket Math_pow (Some strategy) marketData newsData random = Ok signal
    /\ (0 <=? confidence signal) = true
    /\ (confidence signal <=? 0.52) = true.
Proof.
  intros Hlen.
  destruct (analyzeMarket_unfold Math_pow strategy marketData newsData random)
    as (volatility & _ & Hsignal).
  cbv zeta in Hsignal. eexists. split; [exact Hsignal |].
  cbn [confidence].
  destruct (sentiment_bounds newsData Hlen) as (Hfin & Hlo & Hhi).
  destruct (combinedScore_between (technical_score_reference marketData)
              (analyzeSentiment newsData)) as [Hc1 Hc2].
  - apply technical_score_reference_values.
  - assumption.
  - apply fle_val; [reflexivity | assumption | exact Hlo].
  - apply fle_val; [assumption | reflexivity |]. now rewrite val_one.
  - now apply confidence_of_between.
Qed.

End ConfidenceRange.

Section ConfidenceRangeClosed.

Local Open Scope float_scope.

Lemma confidence_range_witness :
  exists signal : AISignal,
    analyzeMarket pow_square
      (Some {| symbols := None; stop_loss_percentage := 2; risk_level := "medium" |})
      [close_only 100; close_only 110] ["strong bullish rally"%string] 0.25
    = Ok signal
    /\ (0 <=? confidence signal) = true
    /\ (confidence signal <=? 0.52) = true.
Proof. apply confidence_range. reflexivity. Defined.

End ConfidenceRangeClosed.

Section RSIRange.

Local Open Scope float_scope.

(** [x] is a number that is not negative: [+0], [-0], a positive number or
    [+Infinity]. *)
Lemma nonneg_cases (x : float) :
  fle 0 x -> Prim2SF x = S754_infinity false \/ (finite x /\ (0 <= val x)%R).
Proof.
  intros H. pose proof H as H'. unfold fle in H'. rewrite FloatAxioms.leb_spec in H'.
  change (Prim2SF 0) with (S754_zero false) in H'.
  destruct (Prim2SF x) as [s | [|] | | s m e] eqn:E; try discriminate H'.
  - right. split; [unfold finite; now rewrite E |]. unfold val. rewrite E. cbn [B2R]. lra.
  - now left.
  - right.
    assert (Hf : finite x) by (unfold finite; now rewrite E).
    split; [assumption |].
    apply fle_val in H; [| reflexivity | assumption].
    now rewrite val_zero in H.
Qed.

Lemma positive_cases (x : float) :
  flt 0 x -> Prim2SF x = S754_infinity false \/ (finite x /\ (0 < val x)%R).
Proof.
  intros H. pose proof H as H'. unfold flt in H'. rewrite FloatAxioms.ltb_spec in H'.
  change (Prim2SF 0) with (S754_zero false) in H'.
  destruct (Prim2SF x) as [s | [|] | | s m e] eqn:E; try discriminate H'.
  - now left.
  - right.
    assert (Hf : finite x) by (unfold finite; now rewrite E).
    split; [assumption |].
    apply flt_val in H; [| reflexivity | assumption].
    now rewrite val_zero in H.
Qed.

Lemma infinity_nonneg (x : float) : Prim2SF x = S754_infinity false -> fle 0 x.
Proof.
  intros H. unfold fle. rewrite FloatAxioms.leb_spec, H. reflexivity.
Qed.

Lemma finite_nonneg (x : float) : finite x -> (0 <= val x)%R -> fle 0 x.
Proof.
  intros Hf Hv. apply fle_val; [reflexivity | assumption |]. now rewrite val_zero.
Qed.

Lemma rounds_nonneg (r : R) (z : float) :
  rounds r (Prim2SF z) -> (0 <= r)%R -> fle 0 z.
Proof.
  intros Hr Hpos. apply (rounds_fle_lower r z 0); [assumption | reflexivity |].
  now rewrite val_zero.
Qed.

Lemma add_nonneg (x y : float) : fle 0 x -> flt 0 y -> fle 0 (x + y).
Proof.
  intros Hx Hy.
  destruct (nonneg_cases x Hx) as [Ex | [Hfx Hvx]];
    destruct (positive_cases y Hy) as [Ey | [Hfy Hvy]].
  - apply infinity_nonneg. rewrite add_spec, Ex, Ey. reflexivity.
  - apply infinity_nonneg. rewrite add_spec, Ex. unfold SF64add.
    float_cases y; reflexivity.
  - apply infinity_nonneg. rewrite add_spec, Ey. unfold SF64add.
    float_cases x; reflexivity.
  - apply (rounds_nonneg (val x + val y)); [now apply add_rounds | lra].
Qed.

Lemma sub_nonneg (x y : float) :
  nan_or_nonneg x -> (0 <? y) = false -> nan_or_nonneg (x - y).
Proof.
  intros [Ex | Hx] Hy.
  - left. rewrite sub_spec, Ex. unfold SF64sub. now destruct (Prim2SF y).
  - pose proof Hy as Hy'. rewrite FloatAxioms.ltb_spec in Hy'.
    change (Prim2SF 0) with (S754_zero false) in Hy'.
    destruct (Prim2SF y) as [s | s | | s m e] eqn:Ey.
    + destruct (nonneg_cases x Hx) as [Ex | [Hfx Hvx]].
      * right. apply infinity_nonneg. rewrite sub_spec, Ex, Ey. reflexivity.
      * right. apply (rounds_nonneg (val x - val y)).
        -- apply sub_rounds; [assumption | unfold finite; now rewrite Ey].
        -- unfold val at 2. rewrite Ey. cbn [B2R]. lra.
    + destruct s; [| discriminate Hy'].
      destruct (nonneg_cases x Hx) as [Ex | [Hfx Hvx]].
      * right. apply infinity_nonneg. rewrite sub_spec, Ex, Ey. reflexivity.
      * right. apply infinity_nonneg. rewrite sub_spec, Ey. unfold SF64sub.
        float_cases x; reflexivity.
    + left. rewrite sub_spec, Ey. unfold SF64sub. now destruct (Prim2SF x).
    + assert (Hfy : finite y) by (unfold finite; now rewrite Ey).
      assert (Hvy : (val y <= 0)%R).
      { destruct (Rle_or_lt (val y) 0) as [H | H]; [assumption |].
        assert (Hlt : flt 0 y) by (apply flt_val; [reflexivity | assumption | exact H]).
        unfold flt in Hlt. congruence. }
      destruct (nonneg_cases x Hx) as [Ex | [Hfx Hvx]].
      * right. apply infinity_nonneg. rewrite sub_spec, Ex, Ey. reflexivity.
      * right. apply (rounds_nonneg (val x - val y)); [now apply sub_rounds | lra].
Qed.

Lemma div_nonneg (x y : float) :
  nan_or_nonneg x -> flt 0 y -> nan_or_nonneg (x / y).
Proof.
  intros [Ex | Hx] Hy.
  - left. rewrite div_spec, Ex. unfold SF64div. now destruct (Prim2SF y).
  - destruct (nonneg_cases x Hx) as [Ex | [Hfx Hvx]];
      destruct (positive_cases y Hy) as [Ey | [Hfy Hvy]].
    + left. rewrite div_spec, Ex, Ey. reflexivity.
    + right. apply infinity_nonneg. rewrite div_spec, Ex. unfold SF64div.
      float_cases y; cbn [B2R] in Hvy; [lra |].
      destruct s; [| reflexivity].
      exfalso. cbn [cond_Zopp] in Hvy. rewrite opp_IZR in Hvy.
      pose proof (bpow_gt_0 e). assert (0 < IZR (Z.pos m))%R by (apply IZR_lt; lia). nra.
    + right. unfold fle. rewrite FloatAxioms.leb_spec, div_spec, Ey. unfold SF64div.
      float_cases x; reflexivity.
    + right. apply (rounds_nonneg (val x / val y)).
      * apply div_rounds; auto. lra.
      * apply Rmult_le_pos; [assumption |]. left. now apply Rinv_0_lt_compat.
Qed.

Lemma nonzero_positive (x : float) : fle 0 x -> (x =? 0) = false -> flt 0 x.
Proof.
  intros Hx Hne.
  destruct (nonneg_cases x Hx) as [Ex | [Hfx Hvx]].
  - unfold flt. rewrite FloatAxioms.ltb_spec, Ex. reflexivity.
  - apply flt_val; [reflexivity | assumption |]. rewrite val_zero.
    destruct Hvx as [Hlt | Heq]; [assumption |].
    assert (H : (x =? 0) = true)
      by (apply feq_val; [assumption | reflexivity | now rewrite val_zero]).
    congruence.
Qed.

Lemma at_least_one_positive (x : float) : fle 1 x -> flt 0 x.
Proof.
  intros Hx.
  assert (H0 : fle 0 x) by (apply fle_trans with 1; [reflexivity | assumption]).
  destruct (nonneg_cases x H0) as [Ex | [Hfx Hvx]].
  - unfold flt. rewrite FloatAxioms.ltb_spec, Ex. reflexivity.
  - apply flt_val; [reflexivity | assumption |]. rewrite val_zero.
    apply fle_val in Hx; [| reflexivity | assumption].
    rewrite val_one in Hx. lra.
Qed.

Lemma of_nat_positive (n : nat) : (0 < n)%nat -> flt 0 (JS.of_nat n).
Proof.
  intros Hn. apply at_least_one_positive.
  apply (rounds_fle_lower (IZR (Z.of_nat n))).
  - apply of_Z_rounds.
  - reflexivity.
  - rewrite val_one. apply IZR_le. lia.
Qed.

Lemma val_hundred : val 100 = 100%R.
Proof.
  change 100 with (JS.of_Z 100).
  now destruct (of_Z_value 100) as [_ ->].
Qed.

(** The last line of [calculateRSI], on a ratio that is [NaN] or not
    negative. *)
Lemma rsi_of_ratio (rs : float) :
  nan_or_nonneg rs ->
  Prim2SF (100 - 100 / (1 + rs)) = S754_nan
  \/ (fle 0 (100 - 100 / (1 + rs)) /\ fle (100 - 100 / (1 + rs)) 100).
Proof.
  intros [Ers | Hrs].
  - left. rewrite sub_spec, div_spec, add_spec, Ers. reflexivity.
  - right.
    assert (HD : fle 1 (1 + rs)).
    { destruct (nonneg_cases rs Hrs) as [Ers | [Hfrs Hvrs]].
      - unfold fle. rewrite FloatAxioms.leb_spec, add_spec, Ers. reflexivity.
      - apply (rounds_fle_lower (val 1 + val rs)).
        + apply add_rounds; [reflexivity | assumption].
        + reflexivity.
        + lra. }
    set (D := 1 + rs) in *. clearbody D.
    assert (H0 : fle 0 D) by (apply fle_trans with 1; [reflexivity | assumption]).
    destruct (nonneg_cases D H0) as [ED | [HfD _]].
    + unfold fle. rewrite !FloatAxioms.leb_spec, sub_spec, div_spec, ED. split; reflexivity.
    + apply fle_val in HD; [| reflexivity | assumption]. rewrite val_one in HD.
      assert (Hq : finite (100 / D) /\ (val 0 <= val (100 / D) <= val 100)%R).
      { apply (rounds_between (val 100 / val D)).
        - apply div_rounds; [reflexivity | assumption | lra].
        - reflexivity.
        - reflexivity.
        - rewrite val_zero, val_hundred. split.
          + apply Rmult_le_pos; [lra |]. left. apply Rinv_0_lt_compat. lra.
          + apply Rmult_le_reg_r with (val D); [lra |].
            unfold Rdiv. rewrite Rmult_assoc, Rinv_l by lra. nra. }
      destruct Hq as [Hfq Hvq]. rewrite val_zero in Hvq.
      assert (Hr : finite (100 - 100 / D)
                   /\ (val 0 <= val (100 - 100 / D) <= val 100)%R).
      { apply (rounds_between (val 100 - val (100 / D))).
        - apply sub_rounds; [reflexivity | assumption].
        - reflexivity.
        - reflexivity.
        - rewrite val_zero. lra. }
      destruct Hr as [Hfr Hvr].
      split; apply fle_val; try assumption; try reflexivity; apply Hvr.
Qed.

Lemma rsi_step_invariant (prices : list float) (acc : float * float) (i : nat) :
  fle 0 (fst acc) /\ nan_or_nonneg (snd acc) ->
  fle 0 (fst (rsi_step prices acc i)) /\ nan_or_nonneg (snd (rsi_step prices acc i)).
Proof.
  destruct acc as [gains losses]. cbn [fst snd]. intros [Hg Hl].
  unfold rsi_step, JS.gt.
  destruct (0 <? _) eqn:Hchange; cbn [fst snd].
  - split; [| assumption]. now apply add_nonneg.
  - split; [assumption |]. now apply sub_nonneg.
Qed.

Lemma rsi_loop_invariant (prices : list float) (indices : list nat) (acc : float * float) :
  fle 0 (fst acc) /\ nan_or_nonneg (snd acc) ->
  fle 0 (fst (fold_left (rsi_step prices) indices acc))
  /\ nan_or_nonneg (snd (fold_left (rsi_step prices) indices acc)).
Proof.
  revert acc. induction indices as [| i indices IH]; intros acc Hacc; [exact Hacc |].
  cbn [fold_left]. apply IH. now apply rsi_step_invariant.
Qed.

Lemma calculateRSI_bounds (prices : list float) (period : nat) :
  Prim2SF (calculateRSI prices period) = S754_nan
  \/ (fle 0 (calculateRSI prices period) /\ fle (calculateRSI prices period) 100).
Proof.
  unfold calculateRSI.
  destruct (_ <? _)%nat; [right; split; reflexivity |].
  destruct period as [| period].
  - left. reflexivity.
  - pose proof (rsi_loop_invariant prices
                  (seq (length prices - S period) (S period)) (0, 0)) as Hloop.
    assert (Hstart : fle 0 (fst (0, 0)) /\ nan_or_nonneg (snd (0, 0)))
      by (split; [reflexivity | right; reflexivity]).
    specialize (Hloop Hstart). clear Hstart.
    destruct (fold_left _ _ _) as [gains losses]. cbn [fst snd] in Hloop.
    destruct Hloop as [Hg Hl].
    assert (Hk : flt 0 (JS.of_nat (S period))) by (apply of_nat_positive; lia).
    pose proof (div_nonneg gains _ (or_intror Hg) Hk) as HavgGain.
    pose proof (div_nonneg losses _ Hl Hk) as HavgLoss.
    unfold JS.strict_eq.
    destruct (_ =? 0) eqn:Hzero; [right; split; reflexivity |].
    assert (Hrs : nan_or_nonneg (gains / JS.of_nat (S period) / (losses / JS.of_nat (S period)))).
    { destruct HavgLoss as [E | Hpos].
      - left. rewrite div_spec, E. unfold SF64div.
        destruct (Prim2SF (gains / _)); reflexivity.
      - apply div_nonneg; [assumption |]. now apply nonzero_positive. }
    exact (rsi_of_ratio _ Hrs).
Qed.

Lemma nan_is_nan (x : float) : Prim2SF x = S754_nan -> is_nan x = true.
Proof.
  intros H. unfold is_nan. rewrite FloatAxioms.eqb_spec, H. reflexivity.
Qed.

(** X16: on every list of prices and every period, [calculateRSI] returns
    [NaN] or a number between 0 and 100; prices that are [NaN], infinite
    or out of range, and sums that overflow, can make it [NaN] but never
    take it out of that range. *)
Theorem calculateRSI_range (prices : list float) (period : nat) :
  is_nan (calculateRSI prices period) = true
  \/ ((0 <=? calculateRSI prices period) = true
      /\ (calculateRSI prices period <=? 100) = true).
Proof.
  destruct (calculateRSI_bounds prices period) as [H | H].
  - left. now apply nan_is_nan.
  - right. exact H.
Qed.

(** *** Prices that never fall *)

Lemma rising_step (prices : list float) (gains losses : float) (i : nat) :
  finite (JS.index prices (i - 1)) -> finite (JS.index prices i) ->
  fle (JS.index prices (i - 1)) (JS.index prices i) ->
  Prim2SF losses = S754_zero false ->
  Prim2SF (snd (rsi_step prices (gains, losses) i)) = S754_zero false.
Proof.
  intros Hp Hc Hle Hl. unfold rsi_step, JS.gt.
  set (change := JS.index prices i - JS.index prices (i - 1)).
  assert (Hchange : fle 0 change).
  { apply (rounds_nonneg (val (JS.index prices i) - val (JS.index prices (i - 1)))).
    - now apply sub_rounds.
    - apply fle_val in Hle; [lra | assumption | assumption]. }
  destruct (0 <? change) eqn:Hpos; cbn [snd]; [assumption |].
  rewrite sub_spec, Hl.
  destruct (nonneg_cases change Hchange) as [E | [Hf Hv]].
  - rewrite FloatAxioms.ltb_spec, E in Hpos. discriminate Hpos.
  - assert (Hzero : val change = 0%R).
    { destruct Hv as [Hlt | Heq]; [| now symmetry].
      assert (H : flt 0 change) by (apply flt_val; [reflexivity | assumption | exact Hlt]).
      unfold flt in H. congruence. }
    pose proof (Prim2SF_valid change) as Hvalid.
    unfold finite, val in Hf, Hzero.
    destruct (Prim2SF change) as [s | s | | s m e]; try discriminate Hf.
    + destruct s; reflexivity.
    + exfalso. cbn [B2R] in Hzero.
      pose proof (bpow_gt_0 e).
      assert (IZR (cond_Zopp s (Z.pos m)) <> 0)%R by (apply not_0_IZR; destruct s; cbn; lia).
      nra.
Qed.

Lemma rising_loop (prices : list float) (indices : list nat) (gains losses : float) :
  (forall i, In i indices ->
     finite (JS.index prices (i - 1)) /\ finite (JS.index prices i)
     /\ fle (JS.index prices (i - 1)) (JS.index prices i)) ->
  Prim2SF losses = S754_zero false ->
  Prim2SF (snd (fold_left (rsi_step prices) indices (gains, losses))) = S754_zero false.
Proof.
  revert gains losses.
  induction indices as [| i indices IH]; intros gains losses Hrise Hl; [exact Hl |].
  cbn [fold_left].
  destruct (Hrise i (or_introl eq_refl)) as (Hp & Hc & Hle).
  pose proof (rising_step prices gains losses i Hp Hc Hle Hl) as Hstep.
  destruct (rsi_step prices (gains, losses) i) as [gains' losses'].
  apply IH; [| exact Hstep].
  intros j Hj. apply Hrise. now right.
Qed.

(** X17: when the prices are finite and none is below the one before it,
    [calculateRSI] returns exactly 100 for every period from 1 to the number
    of prices less one; a flat market is in that case, no loss being
    recorded and [avgLoss === 0] answering 100. *)
Theorem rsi_of_prices_that_never_fall (prices : list float) (period : nat) :
  (0 < period)%nat -> (period + 1 <= length prices)%nat ->
  (forall i, (i < length prices)%nat -> finite (JS.index prices i)) ->
  (forall i, (S i < length prices)%nat ->
     (JS.index prices i <=? JS.index prices (S i)) = true) ->
  calculateRSI prices period = 100.
Proof.
  intros Hperiod Hlen Hfin Hrise. unfold calculateRSI.
  replace (length prices <? period + 1)%nat with false
    by (symmetry; apply Nat.ltb_ge; lia).
  pose proof (rising_loop prices (seq (length prices - period) period) 0 0) as Hloop.
  destruct (fold_left _ _ _) as [gains losses]. cbn [snd] in Hloop.
  assert (Hl : Prim2SF losses = S754_zero false).
  { apply Hloop; [| reflexivity].
    intros i Hi. apply in_seq in Hi.
    repeat split.
    - apply Hfin. lia.
    - apply Hfin. lia.
    - replace i with (S (i - 1)) at 2 by lia. apply Hrise. lia. }
  assert (Hzero : JS.strict_eq (losses / JS.of_nat period) 0 = true).
  { unfold JS.strict_eq. rewrite FloatAxioms.eqb_spec, div_spec, Hl.
    destruct (positive_cases _ (of_nat_positive period Hperiod)) as [E | [Hf Hv]].
    - rewrite E. reflexivity.
    - unfold finite, val in Hf, Hv.
      destruct (Prim2SF (JS.of_nat period)) as [s | s | | s m e];
        try discriminate Hf; [cbn [B2R] in Hv; lra | reflexivity]. }
  now rewrite Hzero.
Qed.

Lemma rsi_of_prices_that_never_fall_witness :
  calculateRSI [100; 100; 101.5; 101.5] 3 = 100.
Proof.
  apply rsi_of_prices_that_never_fall.
  - lia.
  - simpl. lia.
  - intros i Hi. do 4 (destruct i as [| i]; [reflexivity |]). simpl in Hi. lia.
  - intros i Hi. do 3 (destruct i as [| i]; [reflexivity |]). simpl in Hi. lia.
Defined.

End RSIRange.

Section IntegerBounds.

Local Open Scope R_scope.

Lemma rounds_within (r : R) (z : float) (a b : Z) :
  rounds r (Prim2SF z) -> small a -> small b -> IZR a <= r <= IZR b -> within z a b.
Proof.
  intros Hr Ha Hb Hab.
  destruct (of_Z_value a Ha) as [Hfa Hva].
  destruct (of_Z_value b Hb) as [Hfb Hvb].
  rewrite <- Hva, <- Hvb in Hab.
  destruct (rounds_between r z _ _ Hr Hfa Hfb Hab) as [Hf Hv].
  rewrite Hva, Hvb in Hv. now split.
Qed.

Lemma of_Z_within (a : Z) : small a -> within (JS.of_Z a) a a.
Proof.
  intros Ha. destruct (of_Z_value a Ha) as [Hf Hv].
  split; [assumption | rewrite Hv; lra].
Qed.

Lemma fle_within (x : float) (a b : Z) :
  small a -> small b -> fle (JS.of_Z a) x -> fle x (JS.of_Z b) -> within x a b.
Proof.
  intros Ha Hb Hlo Hhi.
  destruct (of_Z_value a Ha) as [Hfa Hva].
  destruct (of_Z_value b Hb) as [Hfb Hvb].
  assert (Hx : finite x) by now apply (finite_between (JS.of_Z a) x (JS.of_Z b)).
  apply fle_val in Hlo; [| assumption | assumption].
  apply fle_val in Hhi; [| assumption | assumption].
  split; [assumption | lra].
Qed.

Lemma within_fle (x : float) (a b : Z) :
  small a -> small b -> within x a b -> fle (JS.of_Z a) x /\ fle x (JS.of_Z b).
Proof.
  intros Ha Hb [Hx Hv].
  destruct (of_Z_value a Ha) as [Hfa Hva].
  destruct (of_Z_value b Hb) as [Hfb Hvb].
  split; apply fle_val; try assumption; lra.
Qed.

Lemma add_within (x y : float) (a b c d : Z) :
  within x a b -> within y c d -> small (a + c) -> small (b + d) ->
  within (x + y) (a + c) (b + d).
Proof.
  intros [Hx Hvx] [Hy Hvy] Hlo Hhi.
  apply (rounds_within (val x + val y)); auto.
  - now apply add_rounds.
  - rewrite !plus_IZR. lra.
Qed.

Lemma sub_within (x y : float) (a b c d : Z) :
  within x a b -> within y c d -> small (a - d) -> small (b - c) ->
  within (x - y) (a - d) (b - c).
Proof.
  intros [Hx Hvx] [Hy Hvy] Hlo Hhi.
  apply (rounds_within (val x - val y)); auto.
  - now apply sub_rounds.
  - rewrite !minus_IZR. lra.
Qed.

Lemma mul_within (x y : float) (a b k : Z) :
  within x a b -> within y k k -> (0 <= k)%Z -> small (a * k) -> small (b * k) ->
  within (x * y) (a * k) (b * k).
Proof.
  intros [Hx Hvx] [Hy Hvy] Hk Hlo Hhi.
  apply (rounds_within (val x * val y)); auto.
  - now apply mul_rounds.
  - assert (Hy' : val y = IZR k) by lra.
    assert (0 <= IZR k) by now apply IZR_le.
    rewrite !mult_IZR, Hy'. nra.
Qed.

End IntegerBounds.

Section Printing.

Local Open Scope R_scope.

Lemma bpow_neg_inv (e : Z) : (e < 0)%Z -> bpow e * IZR (2 ^ (- e)) = 1.
Proof.
  intros He. rewrite <- bpow_IZR by lia. rewrite <- bpow_add.
  replace (e + - e)%Z with 0%Z by lia. apply bpow_0.
Qed.

(** [nearest_scaled m e 100] is [m * 2^e * 100 + 1/2], rounded down. *)
Lemma nearest_scaled_spec (m : positive) (e : Z) :
  IZR (JS.nearest_scaled m e 100) <= 100 * (IZR (Z.pos m) * bpow e) + / 2
  < IZR (JS.nearest_scaled m e 100) + 1.
Proof.
  unfold JS.nearest_scaled.
  destruct (Z.leb_spec 0 e) as [He | He].
  - rewrite !mult_IZR, <- bpow_IZR by assumption. lra.
  - set (P := (2 ^ (- e))%Z).
    assert (HP : (0 < P)%Z) by (apply Z.pow_pos_nonneg; lia).
    assert (HPr : 0 < IZR P) by now apply IZR_lt.
    pose proof (bpow_neg_inv e He) as Hinv. fold P in Hinv.
    assert (Hb : bpow e = / IZR P).
    { apply Rmult_eq_reg_r with (IZR P); [| lra]. rewrite Hinv, Rinv_l; lra. }
    set (N := (2 * Z.pos m * 100 + P)%Z).
    pose proof (Z.div_mod N (2 * P)) as Hdiv.
    pose proof (Z.mod_pos_bound N (2 * P)) as Hmod.
    set (q := (N / (2 * P))%Z) in *.
    set (r := (N mod (2 * P))%Z) in *.
    assert (HN : IZR N = 2 * IZR P * IZR q + IZR r).
    { rewrite Hdiv by lia. rewrite plus_IZR, !mult_IZR. reflexivity. }
    assert (Hr : 0 <= IZR r < 2 * IZR P).
    { destruct Hmod as [H1 H2]; [lia |]. split; [now apply IZR_le |].
      apply IZR_lt in H2. rewrite mult_IZR in H2. exact H2. }
    assert (HN' : IZR N = 2 * IZR (Z.pos m) * 100 + IZR P).
    { subst N. rewrite plus_IZR, !mult_IZR. reflexivity. }
    rewrite Hb.
    assert (Hx : 100 * (IZR (Z.pos m) * / IZR P) + / 2 = IZR N / (2 * IZR P)).
    { rewrite HN'. field. lra. }
    rewrite Hx, HN.
    assert (H2P : 0 < 2 * IZR P) by lra.
    split.
    + apply Rmult_le_reg_r with (2 * IZR P); [assumption |].
      unfold Rdiv. rewrite Rmult_assoc, Rinv_l by lra. lra.
    + apply Rmult_lt_reg_r with (2 * IZR P); [assumption |].
      unfold Rdiv. rewrite Rmult_assoc, Rinv_l by lra. lra.
Qed.

Lemma of_fraction_rounds (n : Z) :
  (0 <= n)%Z -> rounds (IZR n / 100) (Prim2SF (JS.of_fraction n 100)).
Proof.
  intros Hn. destruct n as [| p | p]; [| | lia].
  - unfold Rdiv. rewrite Rmult_0_l. apply rounds_zero.
  - unfold JS.of_fraction.
    pose proof (SFdiv_rounds false false p 100 0 0) as H.
    cbn [B2R cond_Zopp] in H. rewrite bpow_0, !Rmult_1_r in H.
    rewrite Prim2SF_SF2Prim; [exact H | apply H].
Qed.

Lemma positive_float (x : float) :
  finite x -> 0 < val x -> exists m e, Prim2SF x = S754_finite false m e.
Proof.
  intros Hf Hv. unfold finite, val in *.
  destruct (Prim2SF x) as [s | s | | s m e]; try discriminate Hf;
    cbn [B2R] in Hv; [lra |].
  destruct s; [| now exists m, e].
  exfalso. cbn [cond_Zopp] in Hv. rewrite opp_IZR in Hv.
  pose proof (bpow_gt_0 e). assert (0 < IZR (Z.pos m)) by (apply IZR_lt; lia). nra.
Qed.

(** On a positive number below [10^13], [Number(x.toFixed(2))] is the
    number nearest to [n / 100], where [n] is [100 * x + 1/2] rounded
    down. *)
Lemma toFixed2_positive (x : float) (b : Z) :
  finite x -> 0 < val x <= IZR b -> (b <= 10 ^ 13)%Z ->
  exists n : Z,
    JS.Number_toFixed2 x = JS.of_fraction n 100
    /\ (0 <= n)%Z
    /\ IZR n <= 100 * val x + / 2 < IZR n + 1.
Proof.
  intros Hf Hv Hb.
  destruct (positive_float x Hf) as (m & e & E); [lra |].
  assert (Hbig : (1e21 <=? abs x)%float = false).
  { destruct (val_abs x Hf) as [Hfa Hva].
    rewrite Rabs_right in Hva by lra.
    destruct (1e21 <=? abs x)%float eqn:Hle; [| reflexivity].
    apply fle_val in Hle; [| reflexivity | assumption].
    assert (Hc : val (JS.of_Z (10 ^ 13)) < val 1e21) by (apply flt_val; reflexivity).
    destruct (of_Z_value (10 ^ 13)) as [_ Hv13]; [reflexivity |].
    assert (IZR b <= IZR (10 ^ 13)) by now apply IZR_le.
    lra. }
  exists (JS.nearest_scaled m e 100).
  unfold JS.Number_toFixed2. rewrite E, Hbig.
  pose proof (nearest_scaled_spec m e) as Hn.
  assert (Hx : val x = IZR (Z.pos m) * bpow e) by (unfold val; now rewrite E).
  rewrite <- Hx in Hn.
  split; [reflexivity |]. split; [| exact Hn].
  assert (H : (-1 < JS.nearest_scaled m e 100)%Z); [| lia].
  apply lt_IZR. lra.
Qed.

(** [Number(x.toFixed(2))] stays between two positive whole numbers that
    [x] lies between. *)
Lemma toFixed2_within (x : float) (a b : Z) :
  (0 < a)%Z -> (b <= 10 ^ 13)%Z -> within x a b -> within (JS.Number_toFixed2 x) a b.
Proof.
  intros Ha Hb [Hf Hv].
  assert (Hapos : 0 < IZR a) by now apply IZR_lt.
  destruct (toFixed2_positive x b Hf) as (n & -> & Hn0 & Hn); [lra | assumption |].
  assert (Hlo : (a * 100 <= n)%Z).
  { assert (H : (a * 100 - 1 < n)%Z); [| lia].
    apply lt_IZR. rewrite minus_IZR, mult_IZR. lra. }
  assert (Hhi : (n <= b * 100)%Z).
  { assert (H : (n < b * 100 + 1)%Z); [| lia].
    apply lt_IZR. rewrite plus_IZR, mult_IZR. lra. }
  apply (rounds_within (IZR n / 100)).
  - apply of_fraction_rounds. lia.
  - unfold small. lia.
  - unfold small. lia.
  - apply IZR_le in Hlo, Hhi. rewrite mult_IZR in Hlo, Hhi. lra.
Qed.

(** [Number(x.toFixed(2))] keeps the order of positive numbers below
    [10^13]. *)
Lemma toFixed2_monotone (x y : float) (a b : Z) :
  (0 < a)%Z -> (b <= 10 ^ 13)%Z -> within x a b -> within y a b ->
  fle x y -> fle (JS.Number_toFixed2 x) (JS.Number_toFixed2 y).
Proof.
  intros Ha Hb [Hfx Hvx] [Hfy Hvy] Hxy.
  assert (Hapos : 0 < IZR a) by now apply IZR_lt.
  apply fle_val in Hxy; [| assumption | assumption].
  destruct (toFixed2_positive x b Hfx) as (n & -> & Hn0 & Hn); [lra | assumption |].
  destruct (toFixed2_positive y b Hfy) as (n' & -> & Hn0' & Hn'); [lra | assumption |].
  assert (Hle : (n <= n')%Z).
  { assert (H : (n < n' + 1)%Z); [| lia]. apply lt_IZR. rewrite plus_IZR. lra. }
  destruct (Z.eq_dec n n') as [-> | Hne].
  - apply fle_refl. apply (rounds_not_nan (IZR n' / 100)).
    now apply of_fraction_rounds.
  - apply (rounds_fle (IZR n / 100) (IZR n' / 100)).
    + now apply of_fraction_rounds.
    + now apply of_fraction_rounds.
    + assert (IZR n < IZR n') by (apply IZR_lt; lia). lra.
Qed.

(** [Math.floor(x)] stays between two positive whole numbers that [x] lies
    between. *)
Lemma floor_within (x : float) (a b : Z) :
  (0 < a)%Z -> small b -> within x a b -> within (JS.Math_floor x) a b.
Proof.
  intros Ha Hb [Hf Hv].
  assert (Hapos : 0 < IZR a) by now apply IZR_lt.
  destruct (positive_float x Hf) as (m & e & E); [lra |].
  unfold JS.Math_floor. rewrite E.
  destruct (Z.leb_spec 0 e) as [He | He]; [now split |].
  assert (Hx : val x = IZR (Z.pos m) * bpow e) by (unfold val; now rewrite E).
  set (P := (2 ^ (- e))%Z).
  assert (HP : (0 < P)%Z) by (apply Z.pow_pos_nonneg; lia).
  assert (HPr : 0 < IZR P) by now apply IZR_lt.
  pose proof (bpow_neg_inv e He) as Hinv. fold P in Hinv.
  pose proof (Z.div_mod (Z.pos m) P) as Hdiv.
  pose proof (Z.mod_pos_bound (Z.pos m) P HP) as Hmod.
  set (q := (Z.pos m / P)%Z) in *.
  set (r := (Z.pos m mod P)%Z) in *.
  assert (Hm : IZR (Z.pos m) = IZR P * IZR q + IZR r).
  { rewrite Hdiv by lia. rewrite plus_IZR, mult_IZR. reflexivity. }
  assert (Hr : 0 <= IZR r < IZR P).
  { destruct Hmod as [H1 H2]. split; [now apply IZR_le | now apply IZR_lt]. }
  assert (Hxq : val x * IZR P = IZR P * IZR q + IZR r).
  { rewrite Hx, Rmult_assoc, Hinv. lra. }
  assert (Hq1 : IZR q <= val x) by nra.
  assert (Hq2 : val x < IZR q + 1) by nra.
  assert (Hlo : (a <= q)%Z).
  { assert (H : (a - 1 < q)%Z); [| lia]. apply lt_IZR. rewrite minus_IZR. lra. }
  assert (Hhi : (q <= b)%Z).
  { apply le_IZR. lra. }
  assert (Hq : small q) by (unfold small in *; lia).
  destruct (of_Z_value q Hq) as [Hfq Hvq].
  split; [assumption |]. rewrite Hvq.
  split; now apply IZR_le.
Qed.

End Printing.

Section GeneratorRange.

Local Open Scope float_scope.

Variable Math_random : nat -> float.
Variable isoDate : Z -> string.

(** [Math.random()] returns a number that is at least 0 and below 1. *)
Hypothesis Math_random_range :
  forall k : nat, (0 <=? Math_random k) = true /\ (Math_random k <? 1) = true.

Lemma flt_fle (x y : float) : flt x y -> fle x y.
Proof.
  unfold flt, fle. rewrite FloatAxioms.ltb_spec, FloatAxioms.leb_spec.
  unfold SFltb, SFleb. now destruct (SFcompare _ _) as [[| |] |].
Qed.

Lemma random_within (k : nat) : within (Math_random k) 0 1.
Proof.
  destruct (Math_random_range k) as [Hlo Hhi].
  apply fle_within; try reflexivity; [exact Hlo | now apply flt_fle].
Qed.

Lemma val_half : val 0.5 = (/ 2)%R.
Proof.
  unfold val. change (Prim2SF 0.5) with (S754_finite false 4503599627370496 (-53)).
  cbn [B2R cond_Zopp].
  pose proof (bpow_neg_inv (-53) eq_refl) as H.
  change (2 ^ (- -53))%Z with 9007199254740992%Z in H. lra.
Qed.

Lemma val_minus_half : val (-0.5) = (- / 2)%R.
Proof.
  unfold val. change (Prim2SF (-0.5)) with (S754_finite true 4503599627370496 (-53)).
  cbn [B2R cond_Zopp Z.opp].
  pose proof (bpow_neg_inv (-53) eq_refl) as H.
  change (2 ^ (- -53))%Z with 9007199254740992%Z in H. lra.
Qed.

(** [(Math.random() - 0.5) * (2 * h)] lies between [-h] and [h]. *)
Lemma centred_within (k : nat) (h : Z) :
  (0 < h < 2 ^ 50)%Z ->
  within ((Math_random k - 0.5) * JS.of_Z (2 * h)) (- h) h.
Proof.
  intros Hh.
  destruct (random_within k) as [Hr Hv]. 
  destruct (of_Z_value (2 * h)) as [Hf2 Hv2]; [unfold small; lia |].
  assert (Hd : finite (Math_random k - 0.5)
               /\ (val (- 0.5) <= val (Math_random k - 0.5) <= val 0.5)%R).
  { apply (rounds_between (val (Math_random k) - val 0.5)).
    - apply sub_rounds; [assumption | reflexivity].
    - reflexivity.
    - reflexivity.
    - rewrite val_minus_half, val_half. lra. }
  destruct Hd as [Hfd Hvd].
  rewrite val_minus_half, val_half in Hvd.
  apply (rounds_within (val (Math_random k - 0.5) * val (JS.of_Z (2 * h)))).
  - now apply mul_rounds.
  - unfold small. lia.
  - unfold small. lia.
  - rewrite Hv2, mult_IZR, opp_IZR.
    assert (0 < IZR h)%R by (apply IZR_lt; lia). nra.
Qed.

Lemma scaled_random_within (k : nat) (h : Z) :
  (0 < h < 2 ^ 50)%Z -> within (Math_random k * JS.of_Z h) 0 h.
Proof.
  intros Hh.
  change 0%Z with (0 * h)%Z. replace h with (1 * h)%Z at 3 by lia.
  apply mul_within.
  - apply random_within.
  - apply of_Z_within. unfold small. lia.
  - lia.
  - unfold small. lia.
  - unfold small. lia.
Qed.

Lemma generated_close_within (days i : nat) :
  (i < days)%nat -> (Z.of_nat days < 2 ^ 53)%Z ->
  within (50000 + (JS.of_nat i / JS.of_nat days) * 5000
          + (Math_random (5 * i) - 0.5) * 2000) 49000 56000.
Proof.
  intros Hi Hdays.
  assert (Hq : within (JS.of_nat i / JS.of_nat days) 0 1).
  { destruct (quotient_in_unit_interval i days) as [Hf Hv]; [lia | lia | assumption |].
    now split. }
  assert (Htrend : within (JS.of_nat i / JS.of_nat days * 5000) (0 * 5000) (1 * 5000)).
  { apply mul_within; [assumption | | lia | reflexivity | reflexivity].
    apply (of_Z_within 5000). reflexivity. }
  assert (Hbase : within (50000 + JS.of_nat i / JS.of_nat days * 5000)
                    (50000 + 0 * 5000) (50000 + 1 * 5000)).
  { apply add_within; [| assumption | reflexivity | reflexivity].
    apply (of_Z_within 50000). reflexivity. }
  change 49000%Z with (50000 + 0 * 5000 + - 1000)%Z.
  change 56000%Z with (50000 + 1 * 5000 + 1000)%Z.
  apply add_within; [assumption | | reflexivity | reflexivity].
  apply (centred_within (5 * i) 1000). lia.
Qed.

Lemma generated_bar_in_range (days i : nat) :
  (i < days)%nat -> (Z.of_nat days < 2 ^ 53)%Z ->
  let bar := generated_bar Math_random isoDate days i in
  within (close bar) 49000 56000
  /\ within (volume bar) 800000 2000000
  /\ within (high bar) 49000 56500
  /\ within (low bar) 48500 56000
  /\ within (open bar) 48900 56100.
Proof.
  intros Hi Hdays bar. subst bar. unfold generated_bar.
  cbn [close volume high low open].
  pose proof (generated_close_within days i Hi Hdays) as Hclose.
  set (c := 50000 + JS.of_nat i / JS.of_nat days * 5000
            + (Math_random (5 * i) - 0.5) * 2000) in *.
  split; [| split; [| split; [| split]]].
  - apply toFixed2_within; [lia | lia | assumption].
  - apply floor_within; [lia | reflexivity |].
    change 800000%Z with (800000 + 0)%Z. change 2000000%Z with (800000 + 1200000)%Z.
    apply add_within; [| | reflexivity | reflexivity].
    + apply (of_Z_within 800000). reflexivity.
    + apply (scaled_random_within (5 * i + 1) 1200000). lia.
  - apply toFixed2_within; [lia | lia |].
    change 49000%Z with (49000 + 0)%Z. change 56500%Z with (56000 + 500)%Z.
    apply add_within; [assumption | | reflexivity | reflexivity].
    apply (scaled_random_within (5 * i + 2) 500). lia.
  - apply toFixed2_within; [lia | lia |].
    change 48500%Z with (49000 - 500)%Z. change 56000%Z with (56000 - 0)%Z.
    apply sub_within; [assumption | | reflexivity | reflexivity].
    apply (scaled_random_within (5 * i + 3) 500). lia.
  - apply toFixed2_within; [lia | lia |].
    change 48900%Z with (49000 + - 100)%Z. change 56100%Z with (56000 + 100)%Z.
    apply add_within; [assumption | | reflexivity | reflexivity].
    apply (centred_within (5 * i + 4) 100). lia.
Qed.

Lemma within_weaken (x : float) (a b a' b' : Z) :
  within x a b -> (a' <= a)%Z -> (b <= b')%Z -> within x a' b'.
Proof.
  intros [Hf Hv] Ha Hb. apply IZR_le in Ha, Hb. split; [assumption | lra].
Qed.

Lemma generated_bar_ordered (days i : nat) :
  (i < days)%nat -> (Z.of_nat days < 2 ^ 53)%Z ->
  let bar := generated_bar Math_random isoDate days i in
  fle (low bar) (close bar) /\ fle (close bar) (high bar).
Proof.
  intros Hi Hdays bar. subst bar. unfold generated_bar.
  cbn [close high low].
  pose proof (generated_close_within days i Hi Hdays) as Hclose.
  set (c := 50000 + JS.of_nat i / JS.of_nat days * 5000
            + (Math_random (5 * i) - 0.5) * 2000) in *.
  pose proof (scaled_random_within (5 * i + 2) 500) as Hup.
  pose proof (scaled_random_within (5 * i + 3) 500) as Hdown.
  change (JS.of_Z 500) with 500 in Hup, Hdown.
  specialize (Hup ltac:(lia)). specialize (Hdown ltac:(lia)).
  assert (Hhigh : within (c + Math_random (5 * i + 2) * 500) (49000 + 0) (56000 + 500))
    by (apply add_within; [assumption | assumption | reflexivity | reflexivity]).
  assert (Hlow : within (c - Math_random (5 * i + 3) * 500) (49000 - 500) (56000 - 0))
    by (apply sub_within; [assumption | assumption | reflexivity | reflexivity]).
  destruct Hclose as [Hfc Hvc]. destruct Hup as [Hfu Hvu]. destruct Hdown as [Hfd Hvd].
  split.
  - apply (toFixed2_monotone _ _ 48500 56500); [lia | lia | | |].
    + apply (within_weaken _ _ _ _ _ Hlow); lia.
    + split; [assumption |]. 
      assert (IZR 48500 <= IZR 49000)%R by (apply IZR_le; lia).
      assert (IZR 56000 <= IZR 56500)%R by (apply IZR_le; lia). lra.
    + apply (rounds_fle_upper (val c - val (Math_random (5 * i + 3) * 500))%R).
      * now apply sub_rounds.
      * assumption.
      * lra.
  - apply (toFixed2_monotone _ _ 48500 56500); [lia | lia | | |].
    + split; [assumption |]. 
      assert (IZR 48500 <= IZR 49000)%R by (apply IZR_le; lia).
      assert (IZR 56000 <= IZR 56500)%R by (apply IZR_le; lia). lra.
    + apply (within_weaken _ _ _ _ _ Hhigh); lia.
    + apply (rounds_fle_lower (val c + val (Math_random (5 * i + 2) * 500))%R).
      * now apply add_rounds.
      * assumption.
      * lra.
Qed.

Lemma generated_bars (days : nat) (bar : MarketData) :
  In bar (generateMockMarketData Math_random isoDate days) ->
  exists i, (i < days)%nat /\ bar = generated_bar Math_random isoDate days i.
Proof.
  unfold generateMockMarketData.
  change (@nil MarketData, 0%nat) with (@nil MarketData, (5 * 0)%nat).
  rewrite (generate_loop Math_random isoDate days 0 days []).
  cbn [fst app]. intros Hin.
  apply in_map_iff in Hin. destruct Hin as (i & <- & Hi).
  apply in_seq in Hi. exists i. split; [lia | reflexivity].
Qed.

(** X18: when every draw of [Math.random()] is at least 0 and below 1,
    every bar of [generateMockMarketData days] has its close between 49000
    and 56000, its volume between 800000 and 2000000, its high between
    49000 and 56500, its low between 48500 and 56000 and its open between
    48900 and 56100 ([days] being an integer below [2^53]). *)
Theorem generated_bars_in_range (days : nat) (bar : MarketData) :
  (Z.of_nat days < 2 ^ 53)%Z ->
  In bar (generateMockMarketData Math_random isoDate days) ->
  ((49000 <=? close bar) = true /\ (close bar <=? 56000) = true)
  /\ ((800000 <=? volume bar) = true /\ (volume bar <=? 2000000) = true)
  /\ ((49000 <=? high bar) = true /\ (high bar <=? 56500) = true)
  /\ ((48500 <=? low bar) = true /\ (low bar <=? 56000) = true)
  /\ ((48900 <=? open bar) = true /\ (open bar <=? 56100) = true).
Proof.
  intros Hdays Hin.
  destruct (generated_bars days bar Hin) as (i & Hi & ->).
  destruct (generated_bar_in_range days i Hi Hdays) as (Hc & Hv & Hh & Hl & Ho).
  repeat split;
    match goal with
    | H : within ?x ?a ?b |- (_ <=? ?x) = true =>
        apply (within_fle x a b); [reflexivity | reflexivity | exact H]
    | H : within ?x ?a ?b |- (?x <=? _) = true =>
        apply (within_fle x a b); [reflexivity | reflexivity | exact H]
    end.
Qed.

(** X19: when every draw of [Math.random()] is at least 0 and below 1,
    every bar of [generateMockMarketData days] has its low at or below its
    close and its close at or below its high: printing with two decimals
    keeps the order of the three prices. *)
Theorem generated_bars_ordered (days : nat) (bar : MarketData) :
  (Z.of_nat days < 2 ^ 53)%Z ->
  In bar (generateMockMarketData Math_random isoDate days) ->
  (low bar <=? close bar) = true /\ (close bar <=? high bar) = true.
Proof.
  intros Hdays Hin.
  destruct (generated_bars days bar Hin) as (i & Hi & ->).
  exact (generated_bar_ordered days i Hi Hdays).
Qed.

End GeneratorRange.

Section GeneratorRangeClosed.

Local Open Scope float_scope.

Definition quarter_draws (k : nat) : float := 0.25.
Definition no_date (d : Z) : string := EmptyString.

Lemma quarter_draws_range (k : nat) :
  (0 <=? quarter_draws k) = true /\ (quarter_draws k <? 1) = true.
Proof. split; reflexivity. Qed.

Lemma generated_bars_in_range_witness :
  let bar := generated_bar quarter_draws no_date 3 1 in
  ((49000 <=? close bar) = true /\ (close bar <=? 56000) = true)
  /\ ((800000 <=? volume bar) = true /\ (volume bar <=? 2000000) = true)
  /\ ((49000 <=? high bar) = true /\ (high bar <=? 56500) = true)
  /\ ((48500 <=? low bar) = true /\ (low bar <=? 56000) = true)
  /\ ((48900 <=? open bar) = true /\ (open bar <=? 56100) = true).
Proof.
  intros bar.
  apply (generated_bars_in_range quarter_draws no_date quarter_draws_range 3 bar).
  - lia.
  - right. left. reflexivity.
Defined.

Lemma generated_bars_ordered_witness :
  let bar := generated_bar quarter_draws no_date 3 1 in
  (low bar <=? close bar) = true /\ (close bar <=? high bar) = true.
Proof.
  intros bar.
  apply (generated_bars_ordered quarter_draws no_date quarter_draws_range 3 bar).
  - lia.
  - right. left. reflexivity.
Defined.

End GeneratorRangeClosed.

(** * Further ranges, the variant with a configured threshold, and what the analysis reads *)

Section VolatilityRange.

Local Open Scope float_scope.

Variable Math_pow : float -> float -> float.

Lemma sqrt_nan_or_nonneg (x : float) : nan_or_nonneg (sqrt x).
Proof.
  unfold nan_or_nonneg, fle.
  rewrite FloatAxioms.leb_spec, sqrt_spec.
  change (Prim2SF 0) with (S754_zero false).
  unfold SF64sqrt, SFsqrt.
  destruct (Prim2SF x) as [s | s | | s m e].
  - right. now destruct s.
  - destruct s; [now left | now right].
  - now left.
  - destruct s; [now left |].
    destruct (SFsqrt_core_binary prec emax (Z.pos m) e) as [[mz ez] lz].
    unfold binary_round_aux.
    destruct (shr_fexp prec emax mz ez lz) as [mrs' e'].
    destruct (shr_fexp prec emax _ e' loc_Exact) as [mrs'' e''].
    destruct (shr_m mrs'') as [| p | p]; [now right | | now left].
    destruct (e'' <=? emax - prec)%Z; now right.
Qed.

Lemma nan_or_nonneg_test (x : float) :
  nan_or_nonneg x -> is_nan x = true \/ (0 <=? x) = true.
Proof.
  intros [H | H]; [left; now apply nan_is_nan | now right].
Qed.

(** X20: whatever [Math.pow] returns, [calculateVolatility] returns, and
    its result is [NaN] or a number that is not negative (0.02 below two
    bars, a square root otherwise). *)
Theorem volatility_never_negative (marketData : list MarketData) :
  exists volatility : float,
    calculateVolatility Math_pow marketData = Ok volatility
    /\ (is_nan volatility = true \/ (0 <=? volatility) = true).
Proof.
  unfold calculateVolatility.
  destruct (length marketData <? 2)%nat eqn:Hlen.
  - eexists. split; [reflexivity |]. right. reflexivity.
  - apply Nat.ltb_ge in Hlen.
    destruct (volatility_returns_total marketData (seq 1 (length marketData - 1)))
      with (acc := @nil float) as [rets Hrets].
    { intros i Hi. apply in_seq in Hi. lia. }
    rewrite Hrets. cbn [bind].
    eexists. split; [reflexivity |].
    apply nan_or_nonneg_test. apply sqrt_nan_or_nonneg.
Qed.

End VolatilityRange.

Section IndicatorRange.

Local Open Scope float_scope.

Lemma toFixed2_within_from_zero (x : float) (b : Z) :
  (0 <= b <= 10 ^ 13)%Z -> within x 0 b -> within (JS.Number_toFixed2 x) 0 b.
Proof.
  intros Hb [Hf Hv].
  destruct (proj1 Hv) as [Hpos | Hzero].
  - destruct (toFixed2_positive x b Hf) as (n & -> & Hn0 & Hn); [lra | lia |].
    assert (Hhi : (n <= b * 100)%Z).
    { assert (H : (n < b * 100 + 1)%Z); [| lia].
      apply lt_IZR. rewrite plus_IZR, mult_IZR. lra. }
    apply (rounds_within (IZR n / 100)).
    + now apply of_fraction_rounds.
    + reflexivity.
    + unfold small. lia.
    + apply IZR_le in Hn0, Hhi. rewrite mult_IZR in Hhi. lra.
  - unfold finite, val in Hf, Hzero.
    unfold JS.Number_toFixed2.
    destruct (Prim2SF x) as [s | s | | s m e]; try discriminate Hf.
    + split; [reflexivity |]. rewrite val_zero. split; [lra | apply IZR_le; lia].
    + exfalso. cbn [B2R] in Hzero.
      pose proof (bpow_gt_0 e).
      assert (IZR (cond_Zopp s (Z.pos m)) <> 0)%R by (apply not_0_IZR; destruct s; cbn; lia).
      nra.
Qed.

(** X21: the [rsi] of the indicator set is [NaN] or a number between 0 and
    100 on every bar sequence: it is 50 below fourteen bars, and the value
    of [calculateRSI] printed with two decimals otherwise, which stays in
    that range. *)
Theorem indicator_rsi_range (marketData : list MarketData) :
  is_nan (rsi (calculateTechnicalIndicators marketData)) = true
  \/ ((0 <=? rsi (calculateTechnicalIndicators marketData)) = true
      /\ (rsi (calculateTechnicalIndicators marketData) <=? 100) = true).
Proof.
  unfold calculateTechnicalIndicators.
  destruct (length marketData <? 14)%nat; cbn [rsi]; [right; split; reflexivity |].
  destruct (calculateRSI_bounds (map close marketData) 14) as [Hnan | [Hlo Hhi]].
  - left. apply nan_is_nan. unfold JS.Number_toFixed2. now rewrite Hnan.
  - right.
    apply (within_fle _ 0 100); [reflexivity | reflexivity |].
    apply toFixed2_within_from_zero; [lia |].
    apply fle_within; [reflexivity | reflexivity | exact Hlo | exact Hhi].
Qed.

End IndicatorRange.

Section ConfiguredSignal.

Local Open Scope float_scope.

Variable Math_pow : float -> float -> float.

Lemma configured_sentiment_loop (newsData : list string) (p n : nat) :
  fold_left Configured.sentiment_step newsData (p, n)
  = (p + hits Configured.positiveWords newsData,
     n + hits Configured.negativeWords newsData)%nat.
Proof.
  revert p n. induction newsData as [| news newsData IH]; intros p n.
  - unfold hits. simpl. f_equal; lia.
  - cbn [fold_left]. unfold Configured.sentiment_step at 2.
    rewrite IH, !count_words_filter, !hits_cons. f_equal; lia.
Qed.

Lemma configured_sentiment_bounds (newsData : list string) :
  (Z.of_nat (length newsData) < 2 ^ 32)%Z ->
  finite (Configured.analyzeSentiment newsData)
  /\ (0 <= val (Configured.analyzeSentiment newsData) <= 1)%R.
Proof.
  intros Hlen. unfold Configured.analyzeSentiment.
  rewrite configured_sentiment_loop. cbn [Nat.add].
  assert (Hhalf : finite 0.5 /\ (0 <= val 0.5 <= 1)%R).
  { split; [reflexivity |]. rewrite <- val_zero, <- val_one.
    split; apply fle_val; reflexivity. }
  destruct (length newsData =? 0)%nat; [exact Hhalf |].
  destruct (_ =? 0)%nat eqn:Htotal; [exact Hhalf |].
  apply Nat.eqb_neq in Htotal.
  pose proof (hits_bound Configured.positiveWords newsData) as Hp.
  pose proof (hits_bound Configured.negativeWords newsData) as Hn.
  cbn [length Configured.positiveWords Configured.negativeWords] in Hp, Hn.
  apply quotient_in_unit_interval; lia.
Qed.

(** What the [analyzeMarket] of the variant returns for a strategy that
    exists. *)
Lemma configured_analyzeMarket_unfold (strategy : Configured.StrategyRow)
    (marketData : list MarketData) (newsData : list string) (random : float) :
  exists volatility,
    Configured.analyzeMarket Math_pow (Some strategy) marketData newsData random
    = let latestPrice := latest_price marketData random in
      let combined :=
        combinedScore (technical_score_reference marketData)
          (Configured.analyzeSentiment newsData) in
      let action :=
        if JS.gt combined (Configured.threshold strategy) then BUY
        else if JS.lt combined (1 - Configured.threshold strategy) then SELL
        else HOLD in
      Ok {| Configured.symbol :=
              if String.eqb (Configured.strategy_type strategy) "crypto"
              then "BTC/USDT"%string else "EUR/USD"%string;
            Configured.action := action;
            Configured.confidence := confidence_of combined;
            Configured.price_target :=
              JS.Number_toFixed2 (priceTarget action latestPrice volatility);
            Configured.stop_loss :=
              JS.Number_toFixed2
                (stopLoss action latestPrice (Configured.stop_loss_percentage strategy)) |}.
Proof.
  destruct (calculateVolatility_returns Math_pow marketData) as [volatility Hvol].
  exists volatility.
  unfold Configured.analyzeMarket.
  rewrite latest_close_returns.
  rewrite technical_score_is_reference.
  simpl bind. rewrite Hvol. reflexivity.
Qed.

(** X22: in the variant with a configured threshold too, for every strategy,
    bar sequence and list of fewer than [2^32] snippets, [analyzeMarket]
    returns a signal whose confidence is between 0 and 0.52, whatever the
    threshold: the cap [Math.min(0.95, confidence)] never binds. *)
Theorem configured_confidence_range (strategy : Configured.StrategyRow)
    (marketData : list MarketData) (newsData : list string) (random : float) :
  (Z.of_nat (length newsData) < 2 ^ 32)%Z ->
  exists signal : Configured.AISignal,
    Configured.analyzeMarket Math_pow (Some strategy) marketData newsData random = Ok signal
    /\ (0 <=? Configured.confidence signal) = true
    /\ (Configured.confidence signal <=? 0.52) = true.
Proof.
  intros Hlen.
  destruct (configured_analyzeMarket_unfold strategy marketData newsData random)
    as (volatility & Hsignal).
  cbv zeta in Hsignal. eexists. split; [exact Hsignal |].
  cbn [Configured.confidence].
  destruct (configured_sentiment_bounds newsData Hlen) as (Hfin & Hlo & Hhi).
  destruct (combinedScore_between (technical_score_reference marketData)
              (Configured.analyzeSentiment newsData)) as [Hc1 Hc2].
  - apply technical_score_reference_values.
  - assumption.
  - apply fle_val; [reflexivity | assumption | exact Hlo].
  - apply fle_val; [assumption | reflexivity |]. now rewrite val_one.
  - now apply confidence_of_between.
Qed.

End ConfiguredSignal.

Section ConfiguredSignalClosed.

Local Open Scope float_scope.

Definition example_configured (t : option float) : Configured.StrategyRow :=
  {| Configured.ai_model_config := Some {| Configured.confidence_threshold := t |};
     Configured.stop_loss_percentage := 2;
     Configured.strategy_type := "crypto";
     Configured.is_active := true;
     Configured.max_investment_per_trade := 1000 |}.

Lemma configured_confidence_range_witness :
  exists signal : Configured.AISignal,
    Configured.analyzeMarket pow_square (Some (example_configured (Some 0.5)))
      [close_only 100; close_only 110] ["strong bullish rally"%string] 0.25
    = Ok signal
    /\ (0 <=? Configured.confidence signal) = true
    /\ (Configured.confidence signal <=? 0.52) = true.
Proof. apply configured_confidence_range. reflexivity. Defined.

End ConfiguredSignalClosed.

Section ConfiguredTrade.

Local Open Scope float_scope.

Variable Math_pow : float -> float -> float.
Variable Math_random : nat -> float.
Variable isoDate : Z -> string.
Variable SessionId : Type.
Variable TradeRow : Type.
Variable truthy_id : SessionId -> bool.
Variable trading_strategies : string -> string -> option Configured.StrategyRow.
Variable active_session : string -> string -> option SessionId.
Variable insert_session : string -> string -> option SessionId.
Variable insert_trade : Configured.TradeInsert SessionId -> TradeRow + string.

Local Abbreviation run :=
  (Configured.executeTrade Math_pow Math_random isoDate truthy_id trading_strategies
     active_session insert_session insert_trade).

(** The order of numbers is total away from [NaN]. *)
Lemma not_lt_le (k t : float) :
  finite k -> is_nan t = false -> (k <? t) = false -> fle t k.
Proof.
  intros Hk Hnan Hlt.
  destruct (Prim2SF t) as [s | s | | s m e] eqn:E.
  - apply fle_val; [unfold finite; now rewrite E | assumption |].
    destruct (Rle_or_lt (val t) (val k)) as [H | H]; [assumption |].
    assert (Hc : flt k t) by (apply flt_val; [assumption | unfold finite; now rewrite E | exact H]).
    unfold flt in Hc. congruence.
  - unfold fle. rewrite FloatAxioms.leb_spec, E.
    rewrite FloatAxioms.ltb_spec, E in Hlt.
    float_cases k; destruct s; try discriminate Hlt; reflexivity.
  - rewrite (nan_is_nan t E) in Hnan. discriminate Hnan.
  - apply fle_val; [unfold finite; now rewrite E | assumption |].
    destruct (Rle_or_lt (val t) (val k)) as [H | H]; [assumption |].
    assert (Hc : flt k t) by (apply flt_val; [assumption | unfold finite; now rewrite E | exact H]).
    unfold flt in Hc. congruence.
Qed.

Lemma le_lt_trans (a b c : float) :
  finite b -> finite c -> fle a b -> flt b c -> flt a c.
Proof.
  intros Hb Hc Hab Hbc.
  destruct (Prim2SF a) as [s | s | | s m e] eqn:E.
  - assert (Ha : finite a) by (unfold finite; now rewrite E).
    apply fle_val in Hab; [| assumption | assumption].
    apply flt_val in Hbc; [| assumption | assumption].
    apply flt_val; [assumption | assumption | lra].
  - unfold fle in Hab. rewrite FloatAxioms.leb_spec, E in Hab.
    unfold flt. rewrite FloatAxioms.ltb_spec, E.
    float_cases b; float_cases c; destruct s; try discriminate Hab; reflexivity.
  - unfold fle in Hab. rewrite FloatAxioms.leb_spec, E in Hab. discriminate Hab.
  - assert (Ha : finite a) by (unfold finite; now rewrite E).
    apply fle_val in Hab; [| assumption | assumption].
    apply flt_val in Hbc; [| assumption | assumption].
    apply flt_val; [assumption | assumption | lra].
Qed.

(** The threshold is 0.7 or the configured number, which is then not
    [NaN]. *)
Lemma threshold_cases (strategy : Configured.StrategyRow) :
  (Configured.threshold strategy = 0.7
   /\ forall config, Configured.ai_model_config strategy = Some config ->
        match Configured.confidence_threshold config with
        | Some t => JS.truthy t = false
        | None => True
        end)
  \/ (is_nan (Configured.threshold strategy) = false
      /\ exists config,
           Configured.ai_model_config strategy = Some config
           /\ Configured.confidence_threshold config = Some (Configured.threshold strategy)).
Proof.
  unfold Configured.threshold, JS.or_default.
  destruct (Configured.ai_model_config strategy) as [config |].
  - destruct (Configured.confidence_threshold config) as [t |] eqn:Et.
    + destruct (JS.truthy t) eqn:Htruthy.
      * right. split.
        -- unfold JS.truthy in Htruthy. apply negb_true_iff in Htruthy.
           now apply orb_false_iff in Htruthy.
        -- exists config. now split.
      * left. split; [reflexivity |]. intros c [= <-]. now rewrite Et.
    + left. split; [reflexivity |]. intros c [= <-]. now rewrite Et.
  - left. split; [reflexivity |]. intros c [=].
Qed.

(** The news of [executeTrade] has one hit, a positive one. *)
Lemma configured_trade_sentiment :
  Configured.analyzeSentiment ["Market shows positive momentum"%string] = 1.
Proof. reflexivity. Qed.

(** With the sentiment at 1: when the action is not [HOLD] and the
    confidence is not below the threshold, the threshold is at most 0.52
    and the action is [BUY]. *)
Lemma configured_trade_condition (technicalScore t : float) :
  technicalScore = 0.4 \/ technicalScore = 0.5 \/ technicalScore = 0.6 ->
  t = 0.7 \/ is_nan t = false ->
  JS.lt (confidence_of (combinedScore technicalScore 1)) t = false ->
  fle t 0.52 /\ JS.gt (combinedScore technicalScore 1) t = true.
Proof.
  intros Hscore Ht Hconf.
  assert (Hk : finite (confidence_of (combinedScore technicalScore 1))
               /\ fle (confidence_of (combinedScore technicalScore 1)) 0.52
               /\ flt 0.52 (combinedScore technicalScore 1)
               /\ finite (combinedScore technicalScore 1)
               /\ JS.lt (confidence_of (combinedScore technicalScore 1)) 0.7 = true)
    by (destruct Hscore as [-> | [-> | ->]]; repeat split; reflexivity).
  destruct Hk as (Hfk & Hk52 & H52c & Hfc & Hdefault).
  destruct Ht as [-> | Hnan]; [congruence |].
  assert (Hle : fle t 0.52).
  { apply fle_trans with (confidence_of (combinedScore technicalScore 1)); [| assumption].
    now apply not_lt_le. }
  split; [assumption |].
  unfold JS.gt. apply (le_lt_trans t 0.52); auto. reflexivity.
Qed.

Lemma configured_executeTrade_cases (userId strategyId : string)
    (strategy : Configured.StrategyRow) :
  trading_strategies userId strategyId = Some strategy ->
  Configured.is_active strategy = true ->
  (exists (message : string) (signal : Configured.AISignal),
     run userId strategyId
     = Ok {| Configured.message := message; Configured.trade := None;
             Configured.signal := signal |}
     /\ (message = "No trade signal, holding position"%string
         \/ message = "Confidence below threshold, skipping trade"%string))
  \/ ((Configured.threshold strategy <=? 0.52) = true
      /\ (exists config,
            Configured.ai_model_config strategy = Some config
            /\ Configured.confidence_threshold config = Some (Configured.threshold strategy))
      /\ forall r, run userId strategyId = Ok r ->
           Configured.action (Configured.signal r) = BUY).
Proof.
  intros Hrow Hactive.
  unfold Configured.executeTrade. rewrite Hrow, Hactive. cbn [negb].
  set (marketData := generateMockMarketData Math_random isoDate 50).
  destruct (configured_analyzeMarket_unfold Math_pow strategy marketData
              ["Market shows positive momentum"%string] (Math_random (5 * 50)))
    as (volatility & ->).
  cbv zeta. rewrite configured_trade_sentiment. cbn [bind Configured.action Configured.confidence].
  set (c := combinedScore (technical_score_reference marketData) 1).
  pose proof (configured_trade_condition (technical_score_reference marketData)
                (Configured.threshold strategy)
                (technical_score_reference_values marketData)) as Hcond.
  fold c in Hcond.
  destruct (threshold_cases strategy) as [[Hdefault _] | [Hnan Hconfig]].
  - (* the default threshold *)
    left. 
    destruct (JS.lt (confidence_of c) (Configured.threshold strategy)) eqn:Hconf.
    + destruct (JS.gt c (Configured.threshold strategy));
        [| destruct (JS.lt c (1 - Configured.threshold strategy))];
        eexists; eexists; (split; [reflexivity | auto]).
    + destruct Hcond as [Hle _]; [now left | reflexivity |].
      rewrite Hdefault in Hle. discriminate Hle.
  - destruct (JS.lt (confidence_of c) (Configured.threshold strategy)) eqn:Hconf.
    + left.
      destruct (JS.gt c (Configured.threshold strategy));
        [| destruct (JS.lt c (1 - Configured.threshold strategy))];
        eexists; eexists; (split; [reflexivity | auto]).
    + right. destruct Hcond as [Hle Hgt]; [now right | reflexivity |].
      split; [exact Hle |]. split; [exact Hconfig |].
      rewrite Hgt. cbn [bind].
      intros r Hr.
      destruct (match active_session userId strategyId with
                | Some id => _
                | None => _
                end) as [sessionId | msg]; cbn [bind] in Hr; [| discriminate Hr].
      destruct (insert_trade _) as [row | err]; [| discriminate Hr].
      injection Hr as <-. reflexivity.
Qed.

(** X23: in the variant with a configured threshold, [executeTrade] places
    a trade only for a strategy whose configuration holds a
    [confidence_threshold] of at most 0.52, and every trade it places is a
    [BUY]: [SELL] is never traded, and nothing is under the default
    threshold 0.7. *)
Theorem configured_trade_needs_low_threshold (userId strategyId : string)
    (strategy : Configured.StrategyRow) (r : Configured.TradeResult TradeRow) :
  trading_strategies userId strategyId = Some strategy ->
  run userId strategyId = Ok r ->
  Configured.trade r <> None ->
  (exists (config : Configured.ModelConfig) (t : float),
     Configured.ai_model_config strategy = Some config
     /\ Configured.confidence_threshold config = Some t
     /\ (t <=? 0.52) = true)
  /\ Configured.action (Configured.signal r) = BUY.
Proof.
  intros Hrow Hrun Htrade.
  destruct (Configured.is_active strategy) eqn:Hactive.
  - destruct (configured_executeTrade_cases userId strategyId strategy Hrow Hactive)
      as [(message & signal & Hskip & _) | (Hle & (config & Hconfig & Ht) & Hbuy)].
    + rewrite Hskip in Hrun. injection Hrun as <-. now contradiction Htrade.
    + split; [| now apply Hbuy].
      exists config, (Configured.threshold strategy). auto.
  - unfold Configured.executeTrade in Hrun. rewrite Hrow, Hactive in Hrun.
    discriminate Hrun.
Qed.

(** X24: in the variant with a configured threshold, for an active strategy
    without [ai_model_config] (the threshold is then 0.7) [executeTrade]
    returns without a trade, with one of the messages "No trade signal,
    holding position" and "Confidence below threshold, skipping trade",
    whatever the draws of [Math.random()] and the database. *)
Theorem default_threshold_never_trades (userId strategyId : string)
    (strategy : Configured.StrategyRow) :
  trading_strategies userId strategyId = Some strategy ->
  Configured.is_active strategy = true ->
  Configured.ai_model_config strategy = None ->
  exists (message : string) (signal : Configured.AISignal),
    run userId strategyId
    = Ok {| Configured.message := message; Configured.trade := None;
            Configured.signal := signal |}
    /\ (message = "No trade signal, holding position"%string
        \/ message = "Confidence below threshold, skipping trade"%string).
Proof.
  intros Hrow Hactive Hnone.
  destruct (configured_executeTrade_cases userId strategyId strategy Hrow Hactive)
    as [Hskip | (_ & (config & Hconfig & _) & _)]; [exact Hskip |].
  congruence.
Qed.

End ConfiguredTrade.

Section ConfiguredTradeClosed.

Local Open Scope float_scope.

(** A database with one active strategy per user, no session yet, and
    inserts that succeed; the draws are all 0.25, so that the generated
    closes rise. *)
Definition example_unconfigured : Configured.StrategyRow :=
  {| Configured.ai_model_config := None;
     Configured.stop_loss_percentage := 2;
     Configured.strategy_type := "crypto";
     Configured.is_active := true;
     Configured.max_investment_per_trade := 1000 |}.

Definition example_trade (strategy : Configured.StrategyRow) :
    result (Configured.TradeResult unit) :=
  Configured.executeTrade pow_square quarter_draws no_date
    (fun id : nat => true)
    (fun userId strategyId => Some strategy)
    (fun userId strategyId => None)
    (fun userId strategyId => Some 1%nat)
    (fun t => inl tt)
    "user" "strategy".

(** The result of a call that returned. *)
Definition returned (outcome : result (Configured.TradeResult unit)) :
    Configured.TradeResult unit :=
  match outcome with
  | Ok r => r
  | Throw _ =>
      {| Configured.message := ""; Configured.trade := None;
         Configured.signal :=
           {| Configured.symbol := ""; Configured.action := HOLD;
              Configured.confidence := 0; Configured.price_target := 0;
              Configured.stop_loss := 0 |} |}
  end.

Lemma configured_trade_needs_low_threshold_witness :
  (exists (config : Configured.ModelConfig) (t : float),
     Configured.ai_model_config (example_configured (Some 0.5)) = Some config
     /\ Configured.confidence_threshold config = Some t
     /\ (t <=? 0.52) = true)
  /\ Configured.action
       (Configured.signal (returned (example_trade (example_configured (Some 0.5))))) = BUY.
Proof.
  apply (configured_trade_needs_low_threshold pow_square quarter_draws no_date nat unit
           (fun id : nat => true)
           (fun userId strategyId => Some (example_configured (Some 0.5)))
           (fun userId strategyId => None)
           (fun userId strategyId => Some 1%nat)
           (fun t => inl tt)
           "user" "strategy" (example_configured (Some 0.5))).
  - reflexivity.
  - vm_compute. reflexivity.
  - vm_compute. discriminate.
Defined.

Lemma default_threshold_never_trades_witness :
  exists (message : string) (signal : Configured.AISignal),
    example_trade example_unconfigured
    = Ok {| Configured.message := message; Configured.trade := None;
            Configured.signal := signal |}
    /\ (message = "No trade signal, holding position"%string
        \/ message = "Confidence below threshold, skipping trade"%string).
Proof.
  apply (default_threshold_never_trades pow_square quarter_draws no_date nat unit
           (fun id : nat => true)
           (fun userId strategyId => Some example_unconfigured)
           (fun userId strategyId => None)
           (fun userId strategyId => Some 1%nat)
           (fun t => inl tt)
           "user" "strategy" example_unconfigured); reflexivity.
Defined.

End ConfiguredTradeClosed.

Section SentimentOrder.

Local Open Scope float_scope.

Lemma hits_middle (words : list string) (before after : list string) (news : string) :
  hits words (before ++ news :: after)
  = (hits words [news] + hits words (before ++ after))%nat.
Proof.
  rewrite (hits_permutation words (before ++ news :: after) (news :: before ++ after)).
  - rewrite !hits_cons. unfold hits at 2. cbn [list_prod filter length app]. lia.
  - symmetry. apply Permutation_middle.
Qed.

(** No word of [words] occurs in the lower-cased snippet. *)
Definition has_none_of (words : list string) (news : string) : Prop :=
  forall word, In word words -> includes (toLowerCase news) word = false.

Lemma no_hit (words : list string) (news : string) :
  has_none_of words news -> hits words [news] = 0%nat.
Proof.
  intros Hnone. rewrite hits_cons. unfold hits. cbn [list_prod filter length].
  rewrite Nat.add_0_r.
  induction words as [| w words IH]; [reflexivity |].
  cbn [filter]. rewrite (Hnone w (or_introl eq_refl)).
  apply IH. intros word Hin. apply Hnone. now right.
Qed.

Ltac none_of_the_words :=
  let word := fresh "word" in
  let Hin := fresh "Hin" in
  intros word Hin; cbn [In positiveWords negativeWords] in Hin;
  repeat (destruct Hin as [<- | Hin]; [reflexivity |]); contradiction.

(** X25: a snippet in which no word of either list occurs does not change
    the sentiment score, wherever it stands in the list. *)
Theorem sentiment_ignores_neutral_news (before after : list string) (news : string) :
  has_none_of positiveWords news -> has_none_of negativeWords news ->
  analyzeSentiment (before ++ news :: after) = analyzeSentiment (before ++ after).
Proof.
  intros Hp Hn. rewrite !analyzeSentiment_hits. unfold sentiment_reference.
  now rewrite !hits_middle, (no_hit _ _ Hp), (no_hit _ _ Hn).
Qed.

Lemma sentiment_ignores_neutral_news_witness :
  analyzeSentiment ["strong rally"; "the market opened"; "fear"]%string
  = analyzeSentiment ["strong rally"; "fear"]%string.
Proof.
  apply (sentiment_ignores_neutral_news ["strong rally"%string] ["fear"%string]);
    none_of_the_words.
Defined.

Lemma self_quotient (p : nat) :
  (0 < p)%nat -> (Z.of_nat p < 2 ^ 53)%Z ->
  finite (JS.of_nat p / JS.of_nat p) /\ val (JS.of_nat p / JS.of_nat p) = 1%R.
Proof.
  intros Hp Hbound.
  destruct (of_nat_value p Hbound) as [Hf Hv].
  assert (Hpos : (0 < INR p)%R) by now apply lt_0_INR.
  apply rounds_value.
  - replace 1%R with (val (JS.of_nat p) / val (JS.of_nat p))%R
      by (rewrite Hv; field; lra).
    apply div_rounds; auto. rewrite Hv. lra.
  - exists 1%Z, 0%Z. rewrite bpow_0. split; [lra | split; [reflexivity | lia]].
  - rewrite Rabs_R1. pose proof (bpow_ge_1 1024 ltac:(lia)) as H.
    assert (bpow 0 < bpow 1024)%R by (apply bpow_lt; lia). rewrite bpow_0 in *. assumption.
Qed.

(** [p / (p + n)] does not decrease when [p] grows. *)
Lemma ratio_monotone (p n k : nat) :
  (0 < p + n)%nat -> (Z.of_nat (k + p + n) < 2 ^ 53)%Z ->
  fle (JS.of_nat p / JS.of_nat (p + n)) (JS.of_nat (k + p) / JS.of_nat (k + p + n)).
Proof.
  intros Hpos Hbound.
  destruct (quotient_in_unit_interval p (p + n)) as [Hfq _]; [lia | lia | lia |].
  destruct (quotient_in_unit_interval (k + p) (k + p + n)) as [Hfq' _]; [lia | lia | lia |].
  destruct k as [| k].
  - cbn [Nat.add]. apply fle_refl. unfold finite in Hfq.
    intros E. rewrite E in Hfq. discriminate Hfq.
  - destruct n as [| n].
    + rewrite !Nat.add_0_r in *.
      destruct (self_quotient p) as [_ H1]; [lia | lia |].
      destruct (self_quotient (S k + p)) as [_ H2]; [lia | lia |].
      apply fle_val; [assumption | assumption |]. rewrite H1, H2. lra.
    + destruct (of_nat_value p) as [Hf1 Hv1]; [lia |].
      destruct (of_nat_value (p + S n)) as [Hf2 Hv2]; [lia |].
      destruct (of_nat_value (S k + p)) as [Hf3 Hv3]; [lia |].
      destruct (of_nat_value (S k + p + S n)) as [Hf4 Hv4]; [lia |].
      assert (Ht : (0 < INR (p + S n))%R) by (apply lt_0_INR; lia).
      assert (Ht' : (0 < INR (S k + p + S n))%R) by (apply lt_0_INR; lia).
      apply (rounds_fle (val (JS.of_nat p) / val (JS.of_nat (p + S n)))
                        (val (JS.of_nat (S k + p)) / val (JS.of_nat (S k + p + S n)))).
      * apply div_rounds; auto. rewrite Hv2. lra.
      * apply div_rounds; auto. rewrite Hv4. lra.
      * rewrite Hv1, Hv2, Hv3, Hv4.
        rewrite !plus_INR, !S_INR in *.
        pose proof (pos_INR p). pose proof (pos_INR n). pose proof (pos_INR k).
        apply Rmult_lt_reg_r with (INR p + (INR n + 1))%R; [lra |].
        apply Rmult_lt_reg_r with (INR k + 1 + INR p + (INR n + 1))%R; [lra |].
        field_simplify; [| lra | lra]. nra.
Qed.

Lemma zero_quotient (t : nat) :
  (0 < t)%nat -> (Z.of_nat t < 2 ^ 53)%Z ->
  finite (JS.of_nat 0 / JS.of_nat t) /\ val (JS.of_nat 0 / JS.of_nat t) = 0%R.
Proof.
  intros Ht Hbound.
  destruct (of_nat_value t Hbound) as [Hf Hv].
  assert (Hpos : (0 < INR t)%R) by now apply lt_0_INR.
  apply rounds_value.
  - replace 0%R with (val (JS.of_nat 0) / val (JS.of_nat t))%R.
    + apply div_rounds; [reflexivity | assumption |]. rewrite Hv. lra.
    + change (val (JS.of_nat 0)) with 0%R. unfold Rdiv. apply Rmult_0_l.
  - apply InF_0.
  - rewrite Rabs_R0. apply bpow_gt_0.
Qed.

(** [p / (p + n)] does not increase when [n] grows. *)
Lemma ratio_antitone (p n k : nat) :
  (0 < p + n)%nat -> (Z.of_nat (p + (k + n)) < 2 ^ 53)%Z ->
  fle (JS.of_nat p / JS.of_nat (p + (k + n))) (JS.of_nat p / JS.of_nat (p + n)).
Proof.
  intros Hpos Hbound.
  destruct (quotient_in_unit_interval p (p + n)) as [Hfq _]; [lia | lia | lia |].
  destruct (quotient_in_unit_interval p (p + (k + n))) as [Hfq' _]; [lia | lia | lia |].
  destruct k as [| k].
  - cbn [Nat.add]. apply fle_refl. unfold finite in Hfq.
    intros E. rewrite E in Hfq. discriminate Hfq.
  - destruct p as [| p].
    + destruct (zero_quotient (0 + n)) as [_ H1]; [lia | lia |].
      destruct (zero_quotient (0 + (S k + n))) as [_ H2]; [lia | lia |].
      apply fle_val; [assumption | assumption |]. rewrite H1, H2. lra.
    + destruct (of_nat_value (S p)) as [Hf1 Hv1]; [lia |].
      destruct (of_nat_value (S p + n)) as [Hf2 Hv2]; [lia |].
      destruct (of_nat_value (S p + (S k + n))) as [Hf4 Hv4]; [lia |].
      assert (Ht : (0 < INR (S p + n))%R) by (apply lt_0_INR; lia).
      assert (Ht' : (0 < INR (S p + (S k + n)))%R) by (apply lt_0_INR; lia).
      apply (rounds_fle (val (JS.of_nat (S p)) / val (JS.of_nat (S p + (S k + n))))
                        (val (JS.of_nat (S p)) / val (JS.of_nat (S p + n)))).
      * apply div_rounds; auto. rewrite Hv4. lra.
      * apply div_rounds; auto. rewrite Hv2. lra.
      * rewrite Hv1, Hv2, Hv4.
        rewrite !plus_INR, !S_INR in *.
        pose proof (pos_INR p). pose proof (pos_INR n). pose proof (pos_INR k).
        apply Rmult_lt_reg_r with (INR p + 1 + INR n)%R; [lra |].
        apply Rmult_lt_reg_r with (INR p + 1 + (INR k + 1 + INR n))%R; [lra |].
        field_simplify; [| lra | lra]. nra.
Qed.

(** X26: a snippet that has no word of the negative list never lowers the
    sentiment score of the list it is added to (a list of fewer than
    [2^32 - 1] snippets): more good news, a score at least as high. *)
Theorem good_news_never_lowers_sentiment (newsData : list string) (news : string) :
  (Z.of_nat (length newsData) < 2 ^ 32 - 1)%Z ->
  has_none_of negativeWords news ->
  (analyzeSentiment newsData <=? analyzeSentiment (news :: newsData)) = true.
Proof.
  intros Hlen Hn. apply no_hit in Hn. rewrite !analyzeSentiment_hits. unfold sentiment_reference.
  pose proof (hits_middle positiveWords [] newsData news) as Hpos.
  pose proof (hits_middle negativeWords [] newsData news) as Hneg.
  cbn [app] in Hpos, Hneg. rewrite Hpos, Hneg, Hn. clear Hpos Hneg.
  pose proof (hits_bound positiveWords newsData) as HP.
  pose proof (hits_bound negativeWords newsData) as HN.
  pose proof (hits_bound positiveWords [news]) as HK.
  cbn [length positiveWords negativeWords] in HP, HN, HK.
  set (P := hits positiveWords newsData) in *.
  set (N := hits negativeWords newsData) in *.
  set (K := hits positiveWords [news]) in *.
  cbn [Nat.add].
  destruct (P + N =? 0)%nat eqn:Ht.
  - apply Nat.eqb_eq in Ht.
    destruct (K + P + N =? 0)%nat eqn:Ht'; [reflexivity |].
    apply Nat.eqb_neq in Ht'.
    replace N with 0%nat by lia. rewrite Nat.add_0_r.
    destruct (self_quotient (K + P)) as [Hf Hv]; [lia | lia |].
    apply fle_val; [reflexivity | assumption |]. rewrite Hv, val_half. lra.
  - apply Nat.eqb_neq in Ht.
    replace (K + P + N =? 0)%nat with false by (symmetry; apply Nat.eqb_neq; lia).
    apply ratio_monotone; lia.
Qed.

Lemma good_news_never_lowers_sentiment_witness :
  (analyzeSentiment ["fear"; "weak rally"]%string
   <=? analyzeSentiment ["strong gains"; "fear"; "weak rally"]%string) = true.
Proof.
  apply (good_news_never_lowers_sentiment ["fear"; "weak rally"]%string "strong gains");
    [reflexivity | none_of_the_words].
Defined.

(** X27: a snippet that has no word of the positive list never raises the
    sentiment score of the list it is added to (a list of fewer than
    [2^32 - 1] snippets). *)
Theorem bad_news_never_raises_sentiment (newsData : list string) (news : string) :
  (Z.of_nat (length newsData) < 2 ^ 32 - 1)%Z ->
  has_none_of positiveWords news ->
  (analyzeSentiment (news :: newsData) <=? analyzeSentiment newsData) = true.
Proof.
  intros Hlen Hp. apply no_hit in Hp. rewrite !analyzeSentiment_hits. unfold sentiment_reference.
  pose proof (hits_middle positiveWords [] newsData news) as Hpos.
  pose proof (hits_middle negativeWords [] newsData news) as Hneg.
  cbn [app] in Hpos, Hneg. rewrite Hpos, Hneg, Hp. clear Hpos Hneg.
  pose proof (hits_bound positiveWords newsData) as HP.
  pose proof (hits_bound negativeWords newsData) as HN.
  pose proof (hits_bound negativeWords [news]) as HK.
  cbn [length positiveWords negativeWords] in HP, HN, HK.
  set (P := hits positiveWords newsData) in *.
  set (N := hits negativeWords newsData) in *.
  set (K := hits negativeWords [news]) in *.
  cbn [Nat.add].
  destruct (P + N =? 0)%nat eqn:Ht.
  - apply Nat.eqb_eq in Ht.
    destruct (P + (K + N) =? 0)%nat eqn:Ht'; [reflexivity |].
    apply Nat.eqb_neq in Ht'.
    replace P with 0%nat by lia.
    destruct (zero_quotient (0 + (K + N))) as [Hf Hv]; [lia | lia |].
    apply fle_val; [assumption | reflexivity |]. rewrite Hv, val_half. lra.
  - apply Nat.eqb_neq in Ht.
    replace (P + (K + N) =? 0)%nat with false by (symmetry; apply Nat.eqb_neq; lia).
    apply ratio_antitone; lia.
Qed.

Lemma bad_news_never_raises_sentiment_witness :
  (analyzeSentiment ["crash"; "fear"; "weak rally"]%string
   <=? analyzeSentiment ["fear"; "weak rally"]%string) = true.
Proof.
  apply (bad_news_never_raises_sentiment ["fear"; "weak rally"]%string "crash");
    [reflexivity | none_of_the_words].
Defined.

End SentimentOrder.

Section FieldsRead.

Local Open Scope float_scope.

Variable Math_pow : float -> float -> float.

Lemma property_close (marketData marketData' : list MarketData) (i : nat) :
  map close marketData = map close marketData' ->
  property (element marketData i) close = property (element marketData' i) close.
Proof.
  intros Hclose.
  assert (H : option_map close (element marketData i)
              = option_map close (element marketData' i)).
  { unfold element. now rewrite <- !nth_error_map, Hclose. }
  destruct (element marketData i), (element marketData' i);
    cbn [option_map property] in *; congruence.
Qed.

Lemma map_slice_last {A B : Type} (f : A -> B) (k : nat) (arr : list A) :
  map f (slice_last k arr) = slice_last k (map f arr).
Proof.
  unfold slice_last. now rewrite skipn_map, length_map.
Qed.

Lemma same_length (marketData marketData' : list MarketData) :
  map close marketData = map close marketData' ->
  length marketData = length marketData'.
Proof.
  intros H. apply (f_equal (@length float)) in H. now rewrite !length_map in H.
Qed.

Lemma technical_score_reads_closes (marketData marketData' : list MarketData) :
  map close marketData = map close marketData' ->
  calculateTechnicalScore marketData = calculateTechnicalScore marketData'.
Proof.
  intros Hclose. unfold calculateTechnicalScore.
  rewrite !map_slice_last, <- Hclose, <- (same_length _ _ Hclose).
  now rewrite !(property_close marketData marketData' _ Hclose).
Qed.

Lemma volatility_returns_reads_closes (marketData marketData' : list MarketData)
    (indices : list nat) (acc : list float) :
  map close marketData = map close marketData' ->
  volatility_returns marketData indices acc = volatility_returns marketData' indices acc.
Proof.
  intros Hclose. revert acc.
  induction indices as [| i indices IH]; intros acc; [reflexivity |].
  cbn [volatility_returns].
  rewrite !(property_close marketData marketData' _ Hclose).
  destruct (property (element marketData' i) close); [| reflexivity].
  destruct (property (element marketData' (i - 1)) close); [| reflexivity].
  cbn [bind]. apply IH.
Qed.

Lemma volatility_reads_closes (marketData marketData' : list MarketData) :
  map close marketData = map close marketData' ->
  calculateVolatility Math_pow marketData = calculateVolatility Math_pow marketData'.
Proof.
  intros Hclose. unfold calculateVolatility.
  rewrite <- (same_length _ _ Hclose).
  now rewrite (volatility_returns_reads_closes marketData marketData' _ _ Hclose).
Qed.

Lemma indicators_read_closes_and_volumes (marketData marketData' : list MarketData) :
  map close marketData = map close marketData' ->
  map volume marketData = map volume marketData' ->
  calculateTechnicalIndicators marketData = calculateTechnicalIndicators marketData'.
Proof.
  intros Hclose Hvolume. unfold calculateTechnicalIndicators.
  rewrite <- Hclose, <- Hvolume, <- (same_length _ _ Hclose).
  assert (H : option_map close (element marketData (length marketData - 1))
              = option_map close (element marketData' (length marketData - 1))).
  { unfold element. now rewrite <- !nth_error_map, Hclose. }
  now rewrite H.
Qed.

(** X28: the signal depends on the bars through their closes and volumes
    only: two bar sequences with the same closes and the same volumes give
    the same result, whatever their dates, highs, lows and opens. *)
Theorem analyzeMarket_reads_closes_and_volumes (strategy : option Strategy)
    (marketData marketData' : list MarketData) (newsData : list string) (random : float) :
  map close marketData = map close marketData' ->
  map volume marketData = map volume marketData' ->
  analyzeMarket Math_pow strategy marketData newsData random
  = analyzeMarket Math_pow strategy marketData' newsData random.
Proof.
  intros Hclose Hvolume. unfold analyzeMarket.
  destruct strategy as [strategy |]; [| reflexivity].
  rewrite <- (same_length _ _ Hclose).
  rewrite (property_close marketData marketData' _ Hclose).
  rewrite (technical_score_reads_closes marketData marketData' Hclose).
  rewrite (volatility_reads_closes marketData marketData' Hclose).
  now rewrite (indicators_read_closes_and_volumes marketData marketData' Hclose Hvolume).
Qed.

End FieldsRead.

Section FieldsReadClosed.

Local Open Scope float_scope.

Lemma analyzeMarket_reads_closes_and_volumes_witness :
  analyzeMarket pow_square
    (Some {| symbols := None; stop_loss_percentage := 2; risk_level := "medium" |})
    [{| date := "2025-01-01"; close := 100; volume := 10; high := 120; low := 90; open := 95 |};
     {| date := "2025-01-02"; close := 110; volume := 12; high := 115; low := 99; open := 100 |}]
    ["strong rally"%string] 0.25
  = analyzeMarket pow_square
      (Some {| symbols := None; stop_loss_percentage := 2; risk_level := "medium" |})
      [{| date := ""; close := 100; volume := 10; high := 0; low := 0; open := 0 |};
       {| date := ""; close := 110; volume := 12; high := 0; low := 0; open := 0 |}]
      ["strong rally"%string] 0.25.
Proof. apply analyzeMarket_reads_closes_and_volumes; reflexivity. Defined.

End FieldsReadClosed.

Section DefaultThreshold.

Local Open Scope float_scope.

Variable Math_pow : float -> float -> float.

(** Below the number that follows [a] in the format is at or below [a]. *)
Lemma lt_successor (c a b : float) (m : positive) (e : Z) :
  Prim2SF a = S754_finite false m e ->
  Prim2SF b = S754_finite false (m + 1) e ->
  (2 ^ 52 <= Z.pos m)%Z ->
  (c <? b) = (c <=? a).
Proof.
  intros Ea Eb Hm.
  assert (Hfa : finite a) by (unfold finite; now rewrite Ea).
  assert (Hfb : finite b) by (unfold finite; now rewrite Eb).
  assert (Hva : val a = (IZR (Z.pos m) * bpow e)%R) by (unfold val; now rewrite Ea).
  assert (Hvb : val b = ((IZR (Z.pos m) + 1) * bpow e)%R).
  { unfold val. rewrite Eb. cbn [B2R cond_Zopp].
    rewrite Pos2Z.inj_add, plus_IZR. reflexivity. }
  pose proof (bpow_gt_0 e) as Hb.
  destruct (Prim2SF c) as [s | s | | s mc ec] eqn:Ec.
  - rewrite FloatAxioms.ltb_spec, FloatAxioms.leb_spec, Ea, Eb, Ec. reflexivity.
  - rewrite FloatAxioms.ltb_spec, FloatAxioms.leb_spec, Ea, Eb, Ec. now destruct s.
  - rewrite FloatAxioms.ltb_spec, FloatAxioms.leb_spec, Ea, Eb, Ec. reflexivity.
  - assert (Hfc : finite c) by (unfold finite; now rewrite Ec).
    assert (Hgap : (val c <= val a \/ val b <= val c)%R).
    { rewrite Hva, Hvb. apply format_gap.
      - lia.
      - pose proof (Prim2SF_valid a) as Hv. rewrite Ea in Hv.
        apply valid_finite_bounds in Hv. lia.
      - now left.
      - apply B2R_InF. apply Prim2SF_valid. }
    destruct (c <? b) eqn:Hlt, (c <=? a) eqn:Hle; try reflexivity; exfalso.
    + apply flt_val in Hlt; [| assumption | assumption].
      destruct Hgap as [H | H]; [| lra].
      assert (Hc : fle c a) by (apply fle_val; assumption).
      unfold fle in Hc. congruence.
    + apply fle_val in Hle; [| assumption | assumption].
      assert (Hc : flt c b) by (apply flt_val; [assumption | assumption | nra]).
      unfold flt in Hc. congruence.
Qed.

End DefaultThreshold.

Section DefaultThresholdSignal.

Local Open Scope float_scope.

Variable Math_pow : float -> float -> float.

Lemma default_sell_test (combined : float) :
  JS.lt combined (1 - 0.7) = (combined <=? 0.3).
Proof.
  unfold JS.lt.
  apply (lt_successor combined 0.3 (1 - 0.7) 5404319552844595 (-54));
    [reflexivity | reflexivity | lia].
Qed.

(** X29: for a strategy without [ai_model_config] (threshold 0.7), the
    [analyzeMarket] of the variant answers [BUY] when the combined score is
    above 0.7, [SELL] when it is at most 0.3 and [HOLD] otherwise: [1 - 0.7]
    is the number that follows 0.3 in binary64, so the test
    [combinedScore < 1 - threshold] holds at 0.3 itself, which a neutral
    technical score and a sentiment score of 0 reach. *)
Theorem default_threshold_sells_at_bound (strategy : Configured.StrategyRow)
    (marketData : list MarketData) (newsData : list string) (random technicalScore : float) :
  Configured.ai_model_config strategy = None ->
  calculateTechnicalScore marketData = Ok technicalScore ->
  exists signal : Configured.AISignal,
    Configured.analyzeMarket Math_pow (Some strategy) marketData newsData random = Ok signal
    /\ let combined :=
         technicalScore * 0.6 + Configured.analyzeSentiment newsData * 0.4 in
       Configured.action signal
       = if 0.7 <? combined then BUY
         else if combined <=? 0.3 then SELL
         else HOLD.
Proof.
  intros Hconfig Hscore.
  destruct (configured_analyzeMarket_unfold Math_pow strategy marketData newsData random)
    as (volatility & Hsignal).
  rewrite technical_score_is_reference in Hscore. injection Hscore as <-.
  cbv zeta in Hsignal. eexists. split; [exact Hsignal |].
  cbn [Configured.action].
  unfold Configured.threshold. rewrite Hconfig. cbn [JS.or_default].
  rewrite default_sell_test. reflexivity.
Qed.

End DefaultThresholdSignal.

Section DefaultThresholdClosed.

Local Open Scope float_scope.

Lemma default_threshold_sells_at_bound_witness :
  exists signal : Configured.AISignal,
    Configured.analyzeMarket pow_square (Some example_unconfigured)
      [close_only 100] ["crash"%string] 0.25 = Ok signal
    /\ Configured.action signal = SELL.
Proof.
  destruct (default_threshold_sells_at_bound pow_square example_unconfigured
              [close_only 100] ["crash"%string] 0.25 0.5 eq_refl eq_refl)
    as (signal & Hsignal & Haction).
  exists signal. split; [exact Hsignal |]. exact Haction.
Defined.

End DefaultThresholdClosed.

Section Authentication.

Local Open Scope string_scope.

Variable Math_pow : float -> float -> float.
Variable Math_random : nat -> float.
Variable isoDate : Z -> string.
Variable TradeRow : Type.
Variable strategies : string -> string -> option StrategyRow.
Variable insert_trade : TradeInsert -> TradeRow + string.
Variable getUser : string -> option string.

Lemma substring_all (s : string) (m : nat) :
  String.length s <= m -> substring 0 m s = s.
Proof.
  revert m. induction s as [| c s IH]; intros m Hm.
  - now destruct m.
  - destruct m as [| m]; cbn [String.length] in Hm; [lia |].
    cbn [substring]. rewrite IH by lia. reflexivity.
Qed.

(** The token of a header ["Bearer " + token] is [token]. *)
Lemma replace_bearer (token : string) :
  replace "Bearer " "" (String.append "Bearer " token) = token.
Proof.
  cbn. replace (prefix "" token) with true by (now destruct token).
  apply substring_all. lia.
Qed.

(** X30: a request other than [OPTIONS] whose [Authorization] header is
    "Bearer " followed by a token that [getUser] does not accept is
    answered 500 with the error "Unauthorized", whatever its body: the
    token checked is the header without its prefix. *)
Theorem unknown_token_is_rejected (req : Request) (token : string) :
  String.eqb (method req) "OPTIONS" = false ->
  authorization req = Some (String.append "Bearer " token) ->
  getUser token = None ->
  response_status (serve Math_pow Math_random isoDate strategies insert_trade getUser req)
  = 500
  /\ response_body (serve Math_pow Math_random isoDate strategies insert_trade getUser req)
     = ErrorMessage "Unauthorized".
Proof.
  intros Hmethod Hauth Huser.
  unfold serve, serve_try. rewrite Hmethod, Hauth.
  cbn [String.append]. 
  change (String "B" (String "e" (String "a" (String "r" (String "e" (String "r"
            (String " " token)))))))
    with (String.append "Bearer " token).
  rewrite replace_bearer, Huser. split; reflexivity.
Qed.

End Authentication.

Section AuthenticationClosed.

Local Open Scope string_scope.

Lemma unknown_token_is_rejected_witness :
  response_status
    (example_serve {| method := "POST"; authorization := Some "Bearer token-2";
                      json := Throw "SyntaxError" |}) = 500
  /\ response_body
       (example_serve {| method := "POST"; authorization := Some "Bearer token-2";
                         json := Throw "SyntaxError" |})
     = ErrorMessage "Unauthorized".
Proof.
  apply (unknown_token_is_rejected pow_square (fun _ => 0.25%float) (fun _ => ""%string)
           TradeInsert example_strategies example_insert example_getUser
           {| method := "POST"; authorization := Some "Bearer token-2"%string;
              json := Throw "SyntaxError" |} "token-2"); reflexivity.
Defined.

End AuthenticationClosed.
